(** * Agentopoly: the game engine of [src/game.ts] and [src/setup/agents.ts]

    A shallow embedding of the turn engine, the transaction resolver, the
    card-effect executor, jail handling and bankruptcy settlement, followed by
    the properties stated about them.

    Conventions of the embedding.
    - JavaScript numbers that hold money, positions and counts are integers in
      every run of the engine; they are modelled as [Z].  [Math.floor (c * 0.8)],
      [Math.floor (m * 1.1)] and [Math.floor (w * 0.1)] on an integer argument
      are written as the floor divisions [c * 8 / 10], [m * 11 / 10], [w / 10].
    - The engine mutates shared objects.  A [Player] object is named by its
      index in [gameState.players], a [Property] object by its index in
      [gameState.properties]; a mutation is an update of the state at that
      index, applied in the order in which the source performs it.
    - An uncaught [TypeError] (reading a field of [undefined]) aborts the run;
      it is the outcome [Raise TypeError].  A recursion that does not come back
      is [Raise Diverges].
    - [console.log] output and the files written by the recorder are left out;
      the in-memory event log keeps the action name of every record. *)

From Stdlib Require Import ZArith Lia Bool.
From stdpp Require Import base option relations list strings pretty.

Local Open Scope string_scope.
Local Open Scope Z_scope.

(** ** Outcomes *)

Inductive exn := TypeError | Diverges.

Inductive res (A : Type) :=
| Ok (a : A)
| Raise (x : exn).
Arguments Ok {A} a.
Arguments Raise {A} x.

#[global] Instance res_ret : MRet res := fun A a => Ok a.
#[global] Instance res_bind : MBind res := fun A B f m =>
  match m with
  | Ok a => f a
  | Raise x => Raise x
  end.

(** [o ?? TypeError]: reading a field of a value that may be [undefined]. *)
Definition defined {A : Type} (o : option A) : res A :=
  match o with
  | Some a => Ok a
  | None => Raise TypeError
  end.

(** [x || 0] and [x ?? 0] on an optional number. *)
Definition orZero (o : option Z) : Z := default 0 o.

(** Truthiness of an optional number: defined and not [0]. *)
Definition truthyZ (o : option Z) : bool :=
  match o with
  | Some n => negb (n =? 0)
  | None => false
  end.

(** ** The board (declared in [setup/board.ts]) *)

Module Tile.

Inductive tile_type :=
| go | colored | railroad | utilities | chance | community_chest
| income_tax | luxury_tax | go_to_jail | free_parking | visiting_jail.

Record attributes := {
  color : option string;
  cost : option Z;
  rent_amount : option Z;
  rent1House : option Z;
  rent2Houses : option Z;
  rent3Houses : option Z;
  rent4Houses : option Z;
  rentHotel : option Z;
  houseCost : option Z;
}.

Record t := {
  location : Z;
  name : string;
  type : tile_type;
  attrs : attributes;
}.

#[global] Instance tile_type_eq_dec : EqDecision tile_type.
Proof. solve_decision. Defined.

(** [!color]: a missing colour and the empty string are both falsy. *)
Definition truthyColor (tile : t) : option string :=
  match color (attrs tile) with
  | Some "" => None
  | c => c
  end.

End Tile.

(** ** Cards ([setup/cards.ts]) *)

Module Card.

Inductive card_type :=
| movement | movement_penalty | movement_jail | special | financial
| financial_penalty.

Inductive nearest := nearest_railroad | nearest_utility.

(** An absent optional boolean is [false]; the engine only tests them for
    truthiness.  A card without [attributes] has every field absent. *)
Record attributes := {
  amount : option Z;
  location : option Z;
  jailFreeCard : bool;
  collectFromPlayers : bool;
  payToPlayers : bool;
  perPlayer : option Z;
  moveSpaces : option Z;
  moveToNearest : option nearest;
  rentMultiplier : option Z;
  diceMultiplier : option Z;
  perHouse : option Z;
  perHotel : option Z;
  collectOnPassGo : bool;
}.

Record t := {
  id : Z;
  type : card_type;
  name : string;
  attrs : attributes;
}.

#[global] Instance card_type_eq_dec : EqDecision card_type.
Proof. solve_decision. Defined.

Definition noAttributes : attributes :=
  {| amount := None; location := None; jailFreeCard := false;
     collectFromPlayers := false; payToPlayers := false; perPlayer := None;
     moveSpaces := None; moveToNearest := None; rentMultiplier := None;
     diceMultiplier := None; perHouse := None; perHotel := None;
     collectOnPassGo := false |}.

End Card.

(** ** Properties, players, game state ([setup/agents.ts]) *)

Module Property.

Record t := {
  tile : Tile.t;
  owner : option string;
  houses : Z;
  hotels : Z;
  mortgaged : bool;
}.

Definition set_owner (v : option string) (p : t) : t :=
  {| tile := tile p; owner := v; houses := houses p; hotels := hotels p;
     mortgaged := mortgaged p |}.
Definition set_houses (v : Z) (p : t) : t :=
  {| tile := tile p; owner := owner p; houses := v; hotels := hotels p;
     mortgaged := mortgaged p |}.
Definition set_hotels (v : Z) (p : t) : t :=
  {| tile := tile p; owner := owner p; houses := houses p; hotels := v;
     mortgaged := mortgaged p |}.
Definition set_mortgaged (v : bool) (p : t) : t :=
  {| tile := tile p; owner := owner p; houses := houses p; hotels := hotels p;
     mortgaged := v |}.

Definition location (p : t) : Z := Tile.location (tile p).
Definition color (p : t) : option string := Tile.color (Tile.attrs (tile p)).
Definition cost (p : t) : Z := orZero (Tile.cost (Tile.attrs (tile p))).

End Property.

Module Player.

Record t := {
  id : string;
  name : string;
  position : Z;
  money : Z;
  properties : list Z;
  jailFreeCards : Z;
  inJail : bool;
  jailTurns : Z;
  bankrupt : bool;
}.

Definition set_position (v : Z) (p : t) : t :=
  {| id := id p; name := name p; position := v; money := money p;
     properties := properties p; jailFreeCards := jailFreeCards p;
     inJail := inJail p; jailTurns := jailTurns p; bankrupt := bankrupt p |}.
Definition set_money (v : Z) (p : t) : t :=
  {| id := id p; name := name p; position := position p; money := v;
     properties := properties p; jailFreeCards := jailFreeCards p;
     inJail := inJail p; jailTurns := jailTurns p; bankrupt := bankrupt p |}.
Definition set_properties (v : list Z) (p : t) : t :=
  {| id := id p; name := name p; position := position p; money := money p;
     properties := v; jailFreeCards := jailFreeCards p;
     inJail := inJail p; jailTurns := jailTurns p; bankrupt := bankrupt p |}.
Definition set_jailFreeCards (v : Z) (p : t) : t :=
  {| id := id p; name := name p; position := position p; money := money p;
     properties := properties p; jailFreeCards := v;
     inJail := inJail p; jailTurns := jailTurns p; bankrupt := bankrupt p |}.
Definition set_inJail (v : bool) (p : t) : t :=
  {| id := id p; name := name p; position := position p; money := money p;
     properties := properties p; jailFreeCards := jailFreeCards p;
     inJail := v; jailTurns := jailTurns p; bankrupt := bankrupt p |}.
Definition set_jailTurns (v : Z) (p : t) : t :=
  {| id := id p; name := name p; position := position p; money := money p;
     properties := properties p; jailFreeCards := jailFreeCards p;
     inJail := inJail p; jailTurns := v; bankrupt := bankrupt p |}.
Definition set_bankrupt (v : bool) (p : t) : t :=
  {| id := id p; name := name p; position := position p; money := money p;
     properties := properties p; jailFreeCards := jailFreeCards p;
     inJail := inJail p; jailTurns := jailTurns p; bankrupt := v |}.

(** [p.money += d] and [p.properties.push (loc)]. *)
Definition add_money (d : Z) (p : t) : t := set_money (money p + d) p.
Definition push_property (loc : Z) (p : t) : t :=
  set_properties (properties p ++ [loc]) p.

End Player.

Module GameState.

Record t := {
  players : list Player.t;
  currentPlayerIndex : nat;
  properties : list Property.t;
  chanceCards : list Card.t;
  communityChestCards : list Card.t;
  houses : Z;
  hotels : Z;
  turn : Z;
  gameOver : bool;
  winner : option string;
}.

Definition set_players (v : list Player.t) (g : t) : t :=
  {| players := v; currentPlayerIndex := currentPlayerIndex g;
     properties := properties g; chanceCards := chanceCards g;
     communityChestCards := communityChestCards g; houses := houses g;
     hotels := hotels g; turn := turn g; gameOver := gameOver g;
     winner := winner g |}.
Definition set_currentPlayerIndex (v : nat) (g : t) : t :=
  {| players := players g; currentPlayerIndex := v;
     properties := properties g; chanceCards := chanceCards g;
     communityChestCards := communityChestCards g; houses := houses g;
     hotels := hotels g; turn := turn g; gameOver := gameOver g;
     winner := winner g |}.
Definition set_properties (v : list Property.t) (g : t) : t :=
  {| players := players g; currentPlayerIndex := currentPlayerIndex g;
     properties := v; chanceCards := chanceCards g;
     communityChestCards := communityChestCards g; houses := houses g;
     hotels := hotels g; turn := turn g; gameOver := gameOver g;
     winner := winner g |}.
Definition set_chanceCards (v : list Card.t) (g : t) : t :=
  {| players := players g; currentPlayerIndex := currentPlayerIndex g;
     properties := properties g; chanceCards := v;
     communityChestCards := communityChestCards g; houses := houses g;
     hotels := hotels g; turn := turn g; gameOver := gameOver g;
     winner := winner g |}.
Definition set_communityChestCards (v : list Card.t) (g : t) : t :=
  {| players := players g; currentPlayerIndex := currentPlayerIndex g;
     properties := properties g; chanceCards := chanceCards g;
     communityChestCards := v; houses := houses g;
     hotels := hotels g; turn := turn g; gameOver := gameOver g;
     winner := winner g |}.
Definition set_houses (v : Z) (g : t) : t :=
  {| players := players g; currentPlayerIndex := currentPlayerIndex g;
     properties := properties g; chanceCards := chanceCards g;
     communityChestCards := communityChestCards g; houses := v;
     hotels := hotels g; turn := turn g; gameOver := gameOver g;
     winner := winner g |}.
Definition set_hotels (v : Z) (g : t) : t :=
  {| players := players g; currentPlayerIndex := currentPlayerIndex g;
     properties := properties g; chanceCards := chanceCards g;
     communityChestCards := communityChestCards g; houses := houses g;
     hotels := v; turn := turn g; gameOver := gameOver g;
     winner := winner g |}.
Definition set_turn (v : Z) (g : t) : t :=
  {| players := players g; currentPlayerIndex := currentPlayerIndex g;
     properties := properties g; chanceCards := chanceCards g;
     communityChestCards := communityChestCards g; houses := houses g;
     hotels := hotels g; turn := v; gameOver := gameOver g;
     winner := winner g |}.
Definition set_gameOver (v : bool) (g : t) : t :=
  {| players := players g; currentPlayerIndex := currentPlayerIndex g;
     properties := properties g; chanceCards := chanceCards g;
     communityChestCards := communityChestCards g; houses := houses g;
     hotels := hotels g; turn := turn g; gameOver := v;
     winner := winner g |}.
Definition set_winner (v : option string) (g : t) : t :=
  {| players := players g; currentPlayerIndex := currentPlayerIndex g;
     properties := properties g; chanceCards := chanceCards g;
     communityChestCards := communityChestCards g; houses := houses g;
     hotels := hotels g; turn := turn g; gameOver := gameOver g;
     winner := v |}.

End GameState.

(** ** The per-player agent: roll bookkeeping of [MonopolyAgent] *)

Module Agent.

Record t := {
  hasRolledThisTurn : bool;
  doublesCount : Z;
  turnInteractionCount : Z;
}.

Definition resetForNewTurn (a : t) : t :=
  {| hasRolledThisTurn := false; doublesCount := 0;
     turnInteractionCount := 0 |}.

Definition markRollResult (doubles : bool) (a : t) : t :=
  {| hasRolledThisTurn := true;
     doublesCount := if doubles then doublesCount a + 1 else doublesCount a;
     turnInteractionCount := turnInteractionCount a |}.

Definition canRollDice (a : t) : bool :=
  negb (hasRolledThisTurn a)
  || ((0 <? doublesCount a) && (doublesCount a <? 3)).

(** The counter bumped by every [takeTurn]. *)
Definition countInteraction (a : t) : t :=
  {| hasRolledThisTurn := hasRolledThisTurn a;
     doublesCount := doublesCount a;
     turnInteractionCount := turnInteractionCount a + 1 |}.

End Agent.

(** ** Dice, results and commands *)

Module Roll.

Record t := {
  die1 : Z;
  die2 : Z;
  total : Z;
  doubles : bool;
}.

Definition make (d : Z * Z) : t :=
  {| die1 := d.1; die2 := d.2; total := d.1 + d.2;
     doubles := bool_decide (d.1 = d.2) |}.

End Roll.

(** The reasons carried by a failure result, one per message of the source. *)
Inductive reason :=
| AlreadyRolled
| NotPurchasable
| AlreadyOwned
| NeedHave (cost have : Z)
| PropertyNotFound
| NotOwner
| NeedFullColorGroup
| HasHotelAlready
| AlreadyFourHouses
| MustBuildEvenly
| NoHousesInBank
| Need (cost : Z)
| MustHaveFourHouses
| NoHotelsInBank
| AlreadyMortgaged
| SellBuildingsFirst
| NotMortgaged
| NoHousesToSell
| MustSellEvenly
| NoHotelToSell
| NotInJail
| NoJailCard
| UnknownTool.

Module Result.

(** The fields of a handler's result that the engine reads: [success],
    [error] and [turnEnded]; the informational payload is left out. *)
Record t := {
  success : bool;
  error : option reason;
  turnEnded : bool;
}.

Definition ok : t := {| success := true; error := None; turnEnded := false |}.
Definition okTurnEnded : t :=
  {| success := true; error := None; turnEnded := true |}.
Definition failure (why : reason) : t :=
  {| success := false; error := Some why; turnEnded := false |}.

End Result.

(** A tool call after [parseToolArguments]: [propertyLocation] is [None] when
    the argument is missing or is not a number, [confirm] and [accept] are the
    truthiness of the argument.

    The argument string [null] parses to [null], not to an object.  The
    commands that ignore their arguments ([roll_dice], [pass_auction],
    [pay_jail_fine], [use_jail_card], [get_game_state], [end_turn] and the
    unknown ones) are not affected; for the commands that read a field of
    their arguments ([buy_property], [auction_bid], [build_house],
    [build_hotel], [mortgage_property], [unmortgage_property], [sell_house],
    [sell_hotel], [trade_property], [respond_to_trade], [get_property_info])
    such a call is [null_arguments]. *)
Inductive ToolCall :=
| roll_dice
| buy_property (confirm : bool)
| auction_bid
| pass_auction
| build_house (propertyLocation : option Z)
| build_hotel (propertyLocation : option Z)
| mortgage_property (propertyLocation : option Z)
| unmortgage_property (propertyLocation : option Z)
| sell_house (propertyLocation : option Z)
| sell_hotel (propertyLocation : option Z)
| pay_jail_fine
| use_jail_card
| trade_property
| respond_to_trade (accept : bool)
| get_game_state
| get_property_info (propertyLocation : option Z)
| end_turn
| unknown_tool
| null_arguments.

(** ** The engine: [MonopolyBenchmark] with its [MonopolyMultiAgent] *)

Module Engine.

Record t := {
  gameState : GameState.t;
  agents : list Agent.t;
  logs : list string;
  doublesCount : Z;
  currentDiceRoll : option Roll.t;
  lastCardDrawn : option Card.t;
  (** dice thrown so far, and decisions requested so far *)
  rolls : nat;
  interactions : nat;
}.

Definition set_gameState (v : GameState.t) (e : t) : t :=
  {| gameState := v; agents := agents e; logs := logs e;
     doublesCount := doublesCount e; currentDiceRoll := currentDiceRoll e;
     lastCardDrawn := lastCardDrawn e; rolls := rolls e;
     interactions := interactions e |}.
Definition set_agents (v : list Agent.t) (e : t) : t :=
  {| gameState := gameState e; agents := v; logs := logs e;
     doublesCount := doublesCount e; currentDiceRoll := currentDiceRoll e;
     lastCardDrawn := lastCardDrawn e; rolls := rolls e;
     interactions := interactions e |}.
Definition set_logs (v : list string) (e : t) : t :=
  {| gameState := gameState e; agents := agents e; logs := v;
     doublesCount := doublesCount e; currentDiceRoll := currentDiceRoll e;
     lastCardDrawn := lastCardDrawn e; rolls := rolls e;
     interactions := interactions e |}.
Definition set_doublesCount (v : Z) (e : t) : t :=
  {| gameState := gameState e; agents := agents e; logs := logs e;
     doublesCount := v; currentDiceRoll := currentDiceRoll e;
     lastCardDrawn := lastCardDrawn e; rolls := rolls e;
     interactions := interactions e |}.
Definition set_currentDiceRoll (v : option Roll.t) (e : t) : t :=
  {| gameState := gameState e; agents := agents e; logs := logs e;
     doublesCount := doublesCount e; currentDiceRoll := v;
     lastCardDrawn := lastCardDrawn e; rolls := rolls e;
     interactions := interactions e |}.
Definition set_lastCardDrawn (v : option Card.t) (e : t) : t :=
  {| gameState := gameState e; agents := agents e; logs := logs e;
     doublesCount := doublesCount e; currentDiceRoll := currentDiceRoll e;
     lastCardDrawn := v; rolls := rolls e;
     interactions := interactions e |}.
Definition set_rolls (v : nat) (e : t) : t :=
  {| gameState := gameState e; agents := agents e; logs := logs e;
     doublesCount := doublesCount e; currentDiceRoll := currentDiceRoll e;
     lastCardDrawn := lastCardDrawn e; rolls := v;
     interactions := interactions e |}.
Definition set_interactions (v : nat) (e : t) : t :=
  {| gameState := gameState e; agents := agents e; logs := logs e;
     doublesCount := doublesCount e; currentDiceRoll := currentDiceRoll e;
     lastCardDrawn := lastCardDrawn e; rolls := rolls e;
     interactions := v |}.

Definition players (e : t) : list Player.t := GameState.players (gameState e).
Definition properties (e : t) : list Property.t :=
  GameState.properties (gameState e).

(** Mutation of the player object at index [i], of every player, and of the
    property object at index [k]. *)
Definition updPlayer (i : nat) (f : Player.t -> Player.t) (e : t) : t :=
  set_gameState (GameState.set_players (alter f i (players e)) (gameState e)) e.
Definition setPlayers (ps : list Player.t) (e : t) : t :=
  set_gameState (GameState.set_players ps (gameState e)) e.
Definition updProperty (k : nat) (f : Property.t -> Property.t) (e : t) : t :=
  set_gameState
    (GameState.set_properties (alter f k (properties e)) (gameState e)) e.
Definition setProperties (ps : list Property.t) (e : t) : t :=
  set_gameState (GameState.set_properties ps (gameState e)) e.
Definition updBank (dHouses dHotels : Z) (e : t) : t :=
  set_gameState
    (GameState.set_hotels (GameState.hotels (gameState e) + dHotels)
       (GameState.set_houses (GameState.houses (gameState e) + dHouses)
          (gameState e))) e.

(** [multiAgent.log (action, details, player)] followed by [logWithAfter]. *)
Definition log (action : string) (e : t) : t := set_logs (logs e ++ [action]) e.

(** The player object behind a reference; [undefined] has no fields. *)
Definition player (e : t) (i : nat) : res Player.t := defined (players e !! i).

(** [gameState.properties.find (p => p.tile.location === loc)]: the first
    match, with its index. *)
Definition findProperty (e : t) (loc : option Z)
  : option (nat * Property.t) :=
  list_find (fun p => Some (Property.location p) = loc) (properties e).

(** [gameState.players.find (p => p.id === owner)]. *)
Definition findPlayer (e : t) (owner : option string)
  : option (nat * Player.t) :=
  list_find (fun p => Some (Player.id p) = owner) (players e).

End Engine.

(** ** The engine's operations

    The board [tiles] is a constant of [setup/board.ts]; the dice are
    [Math.random]: [dice n] is the pair thrown by the [n]-th call of
    [rollDice]; [takeTurn n g] is the list of tool calls with which the
    decision provider answers the [n]-th request, made on game state [g]. *)

Section Operations.

Variable tiles : list Tile.t.
Variable dice : nat -> Z * Z.
Variable takeTurn : nat -> GameState.t -> list ToolCall.

(** [tiles[pos]] *)
Definition tileAt (pos : Z) : option Tile.t :=
  if pos <? 0 then None else tiles !! Z.to_nat pos.

(** *** Queries on the property table *)

Definition ownedBy (playerId : string) (p : Property.t) : bool :=
  bool_decide (Property.owner p = Some playerId).

(** The properties of colour [color] that [playerId] owns. *)
Definition ownedGroup (e : Engine.t) (playerId color : string)
  : list Property.t :=
  filter (fun p => Property.color p = Some color
                   /\ Property.owner p = Some playerId) (Engine.properties e).

Definition hasMonopoly (e : Engine.t) (playerId : string) (tile : Tile.t)
  : bool :=
  match Tile.truthyColor tile with
  | None => false
  | Some color =>
      forallb (ownedBy playerId)
        (filter (fun p => Property.color p = Some color) (Engine.properties e))
  end.

(** [Math.min (...l)] and [Math.max (...l)]; of no argument they are
    [Infinity] and [-Infinity], which equal no house count. *)
Definition minimum (l : list Z) : option Z :=
  match l with
  | [] => None
  | x :: l' => Some (foldl Z.min x l')
  end.
Definition maximum (l : list Z) : option Z :=
  match l with
  | [] => None
  | x :: l' => Some (foldl Z.max x l')
  end.

Definition canBuildEvenly (e : Engine.t) (playerId : string) (tile : Tile.t)
  : bool :=
  match Tile.truthyColor tile with
  | None => false
  | Some color =>
      let group := ownedGroup e playerId color in
      match list_find (fun p => Property.location p = Tile.location tile)
              group with
      | None => false
      | Some (_, current) =>
          bool_decide (Some (Property.houses current)
                       = minimum (Property.houses <$> group))
      end
  end.

Definition canSellEvenly (e : Engine.t) (playerId : string) (tile : Tile.t)
  : bool :=
  match Tile.truthyColor tile with
  | None => false
  | Some color =>
      let group := ownedGroup e playerId color in
      match list_find (fun p => Property.location p = Tile.location tile)
              group with
      | None => false
      | Some (_, current) =>
          bool_decide (Some (Property.houses current)
                       = maximum (Property.houses <$> group))
      end
  end.

Definition colorGroupHasBuildings (e : Engine.t) (playerId : string)
  (tile : Tile.t) : bool :=
  match Tile.truthyColor tile with
  | None => false
  | Some color =>
      existsb (fun p => (0 <? Property.houses p) || (0 <? Property.hotels p))
        (ownedGroup e playerId color)
  end.

Definition calculateHouseRent (property : Property.t) : Z :=
  let a := Tile.attrs (Property.tile property) in
  let h := Property.houses property in
  if h =? 1 then orZero (Tile.rent1House a)
  else if h =? 2 then orZero (Tile.rent2Houses a)
  else if h =? 3 then orZero (Tile.rent3Houses a)
  else if h =? 4 then orZero (Tile.rent4Houses a)
  else orZero (Tile.rent_amount a).

Definition calculateHotelRent (property : Property.t) : Z :=
  orZero (Tile.rentHotel (Tile.attrs (Property.tile property))).

Definition getHouseCost (tile : Tile.t) : Z :=
  orZero (Tile.houseCost (Tile.attrs tile)).

Definition countOwned (ty : Tile.tile_type) (e : Engine.t) (playerId : string)
  : Z :=
  Z.of_nat (length (filter (fun p => Tile.type (Property.tile p) = ty
                                     /\ Property.owner p = Some playerId)
                      (Engine.properties e))).
Definition countRailroadsOwned := countOwned Tile.railroad.
Definition countUtilitiesOwned := countOwned Tile.utilities.

Definition calculateNetWorth (e : Engine.t) (player : Player.t) : Z :=
  foldl (fun worth p =>
           let worth := worth + Property.cost p in
           let worth :=
             worth + Property.houses p * getHouseCost (Property.tile p) in
           let worth :=
             worth + Property.hotels p * getHouseCost (Property.tile p) * 5 in
           if Property.mortgaged p then worth - Property.cost p / 2 else worth)
    (Player.money player)
    (filter (fun p => Property.owner p = Some (Player.id player))
       (Engine.properties e)).

(** *** Jail and bankruptcy *)

Definition sendToJail (i : nat) (e : Engine.t) : Engine.t :=
  Engine.log "SENT_TO_JAIL"
    (Engine.updPlayer i
       (fun p => Player.set_jailTurns 0
                   (Player.set_inJail true (Player.set_position 10 p))) e).

(** [properties.filter (p => p.owner === player.id).forEach (p => ...)]: the
    filter is evaluated before any property is changed, so the mutation is an
    in-place map of the properties that were owned. *)
Definition forOwned (playerId : string) (f : Property.t -> Property.t)
  (ps : list Property.t) : list Property.t :=
  (fun p => if ownedBy playerId p then f p else p) <$> ps.

Definition surrender (p : Property.t) : Property.t :=
  Property.set_mortgaged false
    (Property.set_owner None
       (Property.set_houses 0 (Property.set_hotels 0 p))).

(** [handleBankruptcy (player, creditor)], the creditor being a player object
    or [null]. *)
Definition handleBankruptcy (i : nat) (creditor : option nat) (e : Engine.t)
  : res Engine.t :=
  player ← Engine.player e i;
  let e := Engine.log "BANKRUPTCY" e in
  let e := Engine.updPlayer i (Player.set_bankrupt true) e in
  e ← match creditor with
      | Some c =>
          cred ← Engine.player e c;
          player ← Engine.player e i;
          let e := Engine.updPlayer c (Player.add_money (Player.money player)) e in
          let owned := filter (fun p => Property.owner p
                                        = Some (Player.id player))
                         (Engine.properties e) in
          let e := Engine.setProperties
                     (forOwned (Player.id player)
                        (Property.set_owner (Some (Player.id cred)))
                        (Engine.properties e)) e in
          let e := Engine.updPlayer c
                     (fun q => Player.set_properties
                                 (Player.properties q
                                  ++ (Property.location <$> owned)) q) e in
          player ← Engine.player e i;
          Ok (Engine.updPlayer c
                (fun q => Player.set_jailFreeCards
                            (Player.jailFreeCards q
                             + Player.jailFreeCards player) q) e)
      | None =>
          Ok (Engine.setProperties
                (forOwned (Player.id player) surrender (Engine.properties e)) e)
      end;
  Ok (Engine.updPlayer i
        (fun p => Player.set_jailFreeCards 0
                    (Player.set_properties [] (Player.set_money 0 p))) e).

(** *** Rent *)

(** [if (player.money >= rent) { pay } else handleBankruptcy (player, owner)],
    the tail shared by [payRent] and the two card settlements. *)
Definition settle (action : string) (i o : nat) (rent : Z) (e : Engine.t)
  : res Engine.t :=
  player ← Engine.player e i;
  if rent <=? Player.money player then
    Ok (Engine.log action
          (Engine.updPlayer o (Player.add_money rent)
             (Engine.updPlayer i (Player.add_money (- rent)) e)))
  else handleBankruptcy i (Some o) e.

Definition payRent (i : nat) (property : Property.t) (e : Engine.t)
  : res Engine.t :=
  if Property.mortgaged property then Ok e else
  match Engine.findPlayer e (Property.owner property) with
  | None => Ok e
  | Some (o, owner) =>
      if Player.bankrupt owner then Ok e else
      let tile := Property.tile property in
      let rent := orZero (Tile.rent_amount (Tile.attrs tile)) in
      let rent :=
        if 0 <? Property.hotels property then calculateHotelRent property
        else if 0 <? Property.houses property then calculateHouseRent property
        else if hasMonopoly e (Player.id owner) tile then rent * 2
        else rent in
      let rent :=
        if bool_decide (Tile.type tile = Tile.railroad)
        then 25 * 2 ^ (countRailroadsOwned e (Player.id owner) - 1)
        else rent in
      let rent :=
        match Engine.currentDiceRoll e with
        | Some roll =>
            if bool_decide (Tile.type tile = Tile.utilities)
            then Roll.total roll
                 * (if countUtilitiesOwned e (Player.id owner) =? 1
                    then 4 else 10)
            else rent
        | None => rent
        end in
      settle "PAY_RENT" i o rent e
  end.

Definition handlePropertyLanding (i : nat) (tile : Tile.t) (e : Engine.t)
  : res Engine.t :=
  match Engine.findProperty e (Some (Tile.location tile)) with
  | None => Ok e
  | Some (_, property) =>
      player ← Engine.player e i;
      match Property.owner property with
      | None => Ok e
      | Some o =>
          if bool_decide (o = Player.id player) then Ok e
          else payRent i property e
      end
  end.

(** *** Taxes *)

Definition payBank (action : string) (i : nat) (tax : Z) (e : Engine.t)
  : res Engine.t :=
  player ← Engine.player e i;
  if tax <=? Player.money player then
    Ok (Engine.log action (Engine.updPlayer i (Player.add_money (- tax)) e))
  else handleBankruptcy i None e.

Definition handleIncomeTax (i : nat) (e : Engine.t) : res Engine.t :=
  player ← Engine.player e i;
  let worth := calculateNetWorth e player in
  payBank "PAY_INCOME_TAX" i (Z.min 200 (worth / 10)) e.

Definition handleLuxuryTax (i : nat) (e : Engine.t) : res Engine.t :=
  payBank "PAY_LUXURY_TAX" i 75 e.

(** *** Card effects

    [executeCardEffect] and [handleLanding] call each other; the executor
    takes the landing resolution as [landing], and [handleLanding] below ties
    the knot. *)

(** [targets.find (r => r > currentPos) ?? targets[0]] *)
Definition nearestAhead (targets : list Z) (currentPos : Z) : option Z :=
  match list_find (fun r => currentPos < r) targets with
  | Some (_, r) => Some r
  | None => head targets
  end.

Definition nearestPosition (target : Card.nearest) (currentPos : Z)
  : option Z :=
  match target with
  | Card.nearest_railroad => nearestAhead [5; 15; 25; 35] currentPos
  | Card.nearest_utility => nearestAhead [12; 28] currentPos
  end.

(** [property.owner] is truthy: set, and not the empty string. *)
Definition truthyOwner (o : option string) : option string :=
  match o with
  | Some "" => None
  | o => o
  end.

Definition cardMoveToNearest (landing : nat -> Engine.t -> res Engine.t)
  (i : nat) (target : Card.nearest) (attrs : Card.attributes) (e : Engine.t)
  : res Engine.t :=
  player ← Engine.player e i;
  nearestPos ← defined (nearestPosition target (Player.position player));
  let oldPos := Player.position player in
  let e := Engine.updPlayer i (Player.set_position nearestPos) e in
  let e := if nearestPos <? oldPos
           then Engine.updPlayer i (Player.add_money 200) e else e in
  _ ← defined (tileAt nearestPos);
  let visit := landing i e in
  match Engine.findProperty e (Some nearestPos) with
  | None => visit
  | Some (_, property) =>
      match truthyOwner (Property.owner property) with
      | None => visit
      | Some ownerId =>
          if bool_decide (ownerId = Player.id player) then visit else
          match Engine.findPlayer e (Property.owner property) with
          | None => Ok e
          | Some (o, owner) =>
              if Player.bankrupt owner then Ok e else
              e ← (if truthyZ (Card.rentMultiplier attrs) then
                     let baseRent :=
                       orZero (Tile.rent_amount
                                 (Tile.attrs (Property.tile property))) in
                     let baseRent :=
                       if bool_decide (Tile.type (Property.tile property)
                                       = Tile.railroad)
                       then 25 * 2 ^ (countRailroadsOwned e (Player.id owner)
                                      - 1)
                       else baseRent in
                     settle "PAY_RENT_MULTIPLIED" i o
                       (baseRent * orZero (Card.rentMultiplier attrs)) e
                   else Ok e);
              if truthyZ (Card.diceMultiplier attrs) then
                let diceRoll := Roll.make (dice (Engine.rolls e)) in
                let e := Engine.set_rolls (S (Engine.rolls e)) e in
                settle "PAY_RENT_DICE_MULTIPLIER" i o
                  (Roll.total diceRoll * orZero (Card.diceMultiplier attrs)) e
              else Ok e
          end
      end
  end.

(** The others of a card: [players.filter (p => !p.bankrupt && p.id !== player.id)],
    each with its index. *)
Definition otherPlayers (e : Engine.t) (player : Player.t)
  : list (nat * Player.t) :=
  filter (fun jp => Player.bankrupt jp.2 = false
                    /\ Player.id jp.2 <> Player.id player)
    (imap pair (Engine.players e)).

(** One turn of [for (const p of others) { amt = Math.min (p.money, perPlayer);
    p.money -= amt; player.money += amt }]. *)
Definition collectFrom (i : nat) (perPlayer : Z) (e : Engine.t) (j : nat)
  : Engine.t :=
  match Engine.players e !! j with
  | Some p =>
      let amt := Z.min (Player.money p) perPlayer in
      Engine.updPlayer i (Player.add_money amt)
        (Engine.updPlayer j (Player.add_money (- amt)) e)
  | None => e
  end.

Definition collectFromPlayers (i : nat) (perPlayer : Z) (e : Engine.t)
  : res Engine.t :=
  player ← Engine.player e i;
  Ok (foldl (collectFrom i perPlayer) e (fst <$> otherPlayers e player)).

Definition payToPlayers (i : nat) (perPlayer : Z) (e : Engine.t)
  : res Engine.t :=
  player ← Engine.player e i;
  let others := otherPlayers e player in
  let total := perPlayer * Z.of_nat (length others) in
  if total <=? Player.money player then
    Ok (foldl (fun e j =>
                 Engine.updPlayer j (Player.add_money perPlayer)
                   (Engine.updPlayer i (Player.add_money (- perPlayer)) e))
          e (fst <$> others))
  else handleBankruptcy i None e.

Definition repairs (i : nat) (attrs : Card.attributes) (e : Engine.t)
  : res Engine.t :=
  player ← Engine.player e i;
  let total :=
    foldl (fun total p =>
             let total := if truthyZ (Card.perHouse attrs)
                          then total + Property.houses p
                                       * orZero (Card.perHouse attrs)
                          else total in
             if truthyZ (Card.perHotel attrs)
             then total + Property.hotels p * orZero (Card.perHotel attrs)
             else total)
      0 (filter (fun p => Property.owner p = Some (Player.id player))
           (Engine.properties e)) in
  if total <=? Player.money player
  then Ok (Engine.updPlayer i (Player.add_money (- total)) e)
  else handleBankruptcy i None e.

Definition executeCardEffect (landing : nat -> Engine.t -> res Engine.t)
  (i : nat) (card : Card.t) (e : Engine.t) : res Engine.t :=
  let attrs := Card.attrs card in
  player ← Engine.player e i;
  match Card.moveSpaces attrs with
  | Some n =>
      let pos := Z.rem (Player.position player + n + 40) 40 in
      let e := Engine.updPlayer i (Player.set_position pos) e in
      _ ← defined (tileAt pos);
      landing i e
  | None =>
  match Card.moveToNearest attrs with
  | Some target => cardMoveToNearest landing i target attrs e
  | None =>
      e ← match Card.location attrs with
          | Some loc =>
              let e := Engine.updPlayer i (Player.set_position loc) e in
              let e := if Card.collectOnPassGo attrs
                          && (loc <? Player.position player)
                       then Engine.updPlayer i (Player.add_money 200) e
                       else e in
              _ ← defined (tileAt loc);
              landing i e
          | None => Ok e
          end;
      let e := match Card.amount attrs with
               | Some a => Engine.updPlayer i (Player.add_money a) e
               | None => e
               end in
      let e := if Card.jailFreeCard attrs
               then Engine.updPlayer i
                      (fun p => Player.set_jailFreeCards
                                  (Player.jailFreeCards p + 1) p) e
               else e in
      let e := if bool_decide (Card.type card = Card.movement_jail)
               then sendToJail i e else e in
      e ← (if Card.collectFromPlayers attrs && truthyZ (Card.perPlayer attrs)
           then collectFromPlayers i (orZero (Card.perPlayer attrs)) e
           else Ok e);
      e ← (if Card.payToPlayers attrs && truthyZ (Card.perPlayer attrs)
           then payToPlayers i (orZero (Card.perPlayer attrs)) e
           else Ok e);
      if truthyZ (Card.perHouse attrs) || truthyZ (Card.perHotel attrs)
      then repairs i attrs e
      else Ok e
  end
  end.

(** [drawChanceCard] and [drawCommunityChestCard]: the top card goes to the
    back of its deck and is executed; an empty deck yields [undefined], whose
    [name] cannot be read. *)
Definition drawChanceCard (landing : nat -> Engine.t -> res Engine.t)
  (i : nat) (e : Engine.t) : res Engine.t :=
  match GameState.chanceCards (Engine.gameState e) with
  | [] => Raise TypeError
  | card :: rest =>
      let e := Engine.set_gameState
                 (GameState.set_chanceCards (rest ++ [card])
                    (Engine.gameState e)) e in
      let e := Engine.set_lastCardDrawn (Some card) e in
      let e := Engine.log "DRAW_CHANCE" e in
      executeCardEffect landing i card e
  end.

Definition drawCommunityChestCard (landing : nat -> Engine.t -> res Engine.t)
  (i : nat) (e : Engine.t) : res Engine.t :=
  match GameState.communityChestCards (Engine.gameState e) with
  | [] => Raise TypeError
  | card :: rest =>
      let e := Engine.set_gameState
                 (GameState.set_communityChestCards (rest ++ [card])
                    (Engine.gameState e)) e in
      let e := Engine.set_lastCardDrawn (Some card) e in
      let e := Engine.log "DRAW_COMMUNITY_CHEST" e in
      executeCardEffect landing i card e
  end.

(** *** Landing *)

Fixpoint handleLanding (fuel : nat) (i : nat) (e : Engine.t) : res Engine.t :=
  match fuel with
  | O => Raise Diverges
  | S fuel =>
      player ← Engine.player e i;
      tile ← defined (tileAt (Player.position player));
      let e := Engine.log "LAND_ON_TILE" e in
      match Tile.type tile with
      | Tile.go => Ok e
      | Tile.colored | Tile.railroad | Tile.utilities =>
          handlePropertyLanding i tile e
      | Tile.chance => drawChanceCard (handleLanding fuel) i e
      | Tile.community_chest => drawCommunityChestCard (handleLanding fuel) i e
      | Tile.income_tax => handleIncomeTax i e
      | Tile.luxury_tax => handleLuxuryTax i e
      | Tile.go_to_jail => Ok (sendToJail i e)
      | Tile.free_parking | Tile.visiting_jail => Ok e
      end
  end.

(** *** The transaction resolver *)

(** [Math.floor (cost * 0.8)] *)
Definition maxBid (property : Property.t) : Z := Property.cost property * 8 / 10.

(** The bidding loop of [startAuction] over the non-bankrupt players, from
    [bestBid = 0] and [winner = null]. *)
Definition auctionLoop (bid : Z) (candidates : list (nat * Player.t))
  : Z * option nat :=
  foldl (fun best jp =>
           if (bid <? Player.money jp.2) && (best.1 <? bid)
           then (bid, Some jp.1) else best)
    (0, None) candidates.

Definition startAuction (k : nat) (property : Property.t) (e : Engine.t)
  : Engine.t :=
  let e := Engine.log "AUCTION_START" e in
  let players := filter (fun jp => Player.bankrupt jp.2 = false)
                   (imap pair (Engine.players e)) in
  match auctionLoop (maxBid property) players with
  | (bestBid, Some w) =>
      if 0 <? bestBid then
        match Engine.players e !! w with
        | Some winner =>
            let e := Engine.updPlayer w (Player.add_money (- bestBid)) e in
            let e := Engine.updProperty k
                       (Property.set_owner (Some (Player.id winner))) e in
            let e := Engine.updPlayer w
                       (Player.push_property (Property.location property)) e in
            Engine.log "AUCTION_WON" e
        | None => e
        end
      else e
  | (_, None) => e
  end.

Definition handleBuyProperty (i : nat) (confirm : bool) (e : Engine.t)
  : res (Engine.t * Result.t) :=
  player ← Engine.player e i;
  match tileAt (Player.position player) with
  | None =>
      (* [tile.location] is read by the search predicate, once per property *)
      match Engine.properties e with
      | [] => Ok (e, Result.failure NotPurchasable)
      | _ :: _ => Raise TypeError
      end
  | Some tile =>
      match Engine.findProperty e (Some (Tile.location tile)) with
      | None => Ok (e, Result.failure NotPurchasable)
      | Some (k, property) =>
          match Property.owner property with
          | Some _ => Ok (e, Result.failure AlreadyOwned)
          | None =>
              let cost := orZero (Tile.cost (Tile.attrs tile)) in
              if negb confirm then Ok (startAuction k property e, Result.ok)
              else if Player.money player <? cost then
                Ok (e, Result.failure (NeedHave cost (Player.money player)))
              else
                let e := Engine.updPlayer i (Player.add_money (- cost)) e in
                let e := Engine.updProperty k
                           (Property.set_owner (Some (Player.id player))) e in
                let e := Engine.updPlayer i
                           (Player.push_property (Tile.location tile)) e in
                Ok (Engine.log "BUY_PROPERTY" e, Result.ok)
          end
      end
  end.

Definition handleBuildHouse (i : nat) (loc : option Z) (e : Engine.t)
  : res (Engine.t * Result.t) :=
  match Engine.findProperty e loc with
  | None => Ok (e, Result.failure PropertyNotFound)
  | Some (k, property) =>
      player ← Engine.player e i;
      if negb (ownedBy (Player.id player) property) then
        Ok (e, Result.failure NotOwner)
      else if negb (hasMonopoly e (Player.id player) (Property.tile property))
      then Ok (e, Result.failure NeedFullColorGroup)
      else if 0 <? Property.hotels property then
        Ok (e, Result.failure HasHotelAlready)
      else if 4 <=? Property.houses property then
        Ok (e, Result.failure AlreadyFourHouses)
      else if negb (canBuildEvenly e (Player.id player)
                      (Property.tile property))
      then Ok (e, Result.failure MustBuildEvenly)
      else if GameState.houses (Engine.gameState e) <=? 0 then
        Ok (e, Result.failure NoHousesInBank)
      else
        let cost := getHouseCost (Property.tile property) in
        if Player.money player <? cost then Ok (e, Result.failure (Need cost))
        else
          let e := Engine.updPlayer i (Player.add_money (- cost)) e in
          let e := Engine.updProperty k
                     (fun p => Property.set_houses (Property.houses p + 1) p)
                     e in
          let e := Engine.updBank (-1) 0 e in
          Ok (Engine.log "BUILD_HOUSE" e, Result.ok)
  end.

Definition handleBuildHotel (i : nat) (loc : option Z) (e : Engine.t)
  : res (Engine.t * Result.t) :=
  match Engine.findProperty e loc with
  | None => Ok (e, Result.failure PropertyNotFound)
  | Some (k, property) =>
      player ← Engine.player e i;
      if negb (ownedBy (Player.id player) property) then
        Ok (e, Result.failure NotOwner)
      else if negb (Property.houses property =? 4) then
        Ok (e, Result.failure MustHaveFourHouses)
      else if GameState.hotels (Engine.gameState e) <=? 0 then
        Ok (e, Result.failure NoHotelsInBank)
      else
        let cost := getHouseCost (Property.tile property) in
        if Player.money player <? cost then Ok (e, Result.failure (Need cost))
        else
          let e := Engine.updPlayer i (Player.add_money (- cost)) e in
          let e := Engine.updProperty k
                     (fun p => Property.set_hotels 1 (Property.set_houses 0 p))
                     e in
          let e := Engine.updBank 4 (-1) e in
          Ok (Engine.log "BUILD_HOTEL" e, Result.ok)
  end.

Definition handleMortgageProperty (i : nat) (loc : option Z) (e : Engine.t)
  : res (Engine.t * Result.t) :=
  match Engine.findProperty e loc with
  | None => Ok (e, Result.failure PropertyNotFound)
  | Some (k, property) =>
      player ← Engine.player e i;
      if negb (ownedBy (Player.id player) property) then
        Ok (e, Result.failure NotOwner)
      else if Property.mortgaged property then
        Ok (e, Result.failure AlreadyMortgaged)
      else if colorGroupHasBuildings e (Player.id player)
                (Property.tile property)
      then Ok (e, Result.failure SellBuildingsFirst)
      else
        let value := Property.cost property / 2 in
        let e := Engine.updPlayer i (Player.add_money value) e in
        let e := Engine.updProperty k (Property.set_mortgaged true) e in
        Ok (Engine.log "MORTGAGE_PROPERTY" e, Result.ok)
  end.

Definition handleUnmortgageProperty (i : nat) (loc : option Z) (e : Engine.t)
  : res (Engine.t * Result.t) :=
  match Engine.findProperty e loc with
  | None => Ok (e, Result.failure PropertyNotFound)
  | Some (k, property) =>
      player ← Engine.player e i;
      if negb (ownedBy (Player.id player) property) then
        Ok (e, Result.failure NotOwner)
      else if negb (Property.mortgaged property) then
        Ok (e, Result.failure NotMortgaged)
      else
        let mort := Property.cost property / 2 in
        let cost := mort * 11 / 10 in
        if Player.money player <? cost then Ok (e, Result.failure (Need cost))
        else
          let e := Engine.updPlayer i (Player.add_money (- cost)) e in
          let e := Engine.updProperty k (Property.set_mortgaged false) e in
          Ok (Engine.log "UNMORTGAGE_PROPERTY" e, Result.ok)
  end.

Definition handleSellHouse (i : nat) (loc : option Z) (e : Engine.t)
  : res (Engine.t * Result.t) :=
  match Engine.findProperty e loc with
  | None => Ok (e, Result.failure PropertyNotFound)
  | Some (k, property) =>
      player ← Engine.player e i;
      if negb (ownedBy (Player.id player) property) then
        Ok (e, Result.failure NotOwner)
      else if Property.houses property =? 0 then
        Ok (e, Result.failure NoHousesToSell)
      else if negb (canSellEvenly e (Player.id player)
                      (Property.tile property))
      then Ok (e, Result.failure MustSellEvenly)
      else
        let cost := getHouseCost (Property.tile property) in
        let value := cost / 2 in
        let e := Engine.updPlayer i (Player.add_money value) e in
        let e := Engine.updProperty k
                   (fun p => Property.set_houses (Property.houses p - 1) p)
                   e in
        let e := Engine.updBank 1 0 e in
        Ok (Engine.log "SELL_HOUSE" e, Result.ok)
  end.

Definition handleSellHotel (i : nat) (loc : option Z) (e : Engine.t)
  : res (Engine.t * Result.t) :=
  match Engine.findProperty e loc with
  | None => Ok (e, Result.failure PropertyNotFound)
  | Some (k, property) =>
      player ← Engine.player e i;
      if negb (ownedBy (Player.id player) property) then
        Ok (e, Result.failure NotOwner)
      else if Property.hotels property =? 0 then
        Ok (e, Result.failure NoHotelToSell)
      else
        let houseCost := getHouseCost (Property.tile property) in
        let hotelCost := houseCost * 5 in
        let value := hotelCost / 2 in
        let e := Engine.updPlayer i (Player.add_money value) e in
        let e := Engine.updProperty k
                   (fun p => Property.set_houses 4 (Property.set_hotels 0 p))
                   e in
        let e := Engine.updBank (-4) 1 e in
        Ok (Engine.log "SELL_HOTEL" e, Result.ok)
  end.

Definition leaveJail (p : Player.t) : Player.t :=
  Player.set_jailTurns 0 (Player.set_inJail false p).

Definition handlePayJailFine (i : nat) (e : Engine.t)
  : res (Engine.t * Result.t) :=
  player ← Engine.player e i;
  if negb (Player.inJail player) then Ok (e, Result.failure NotInJail)
  else if Player.money player <? 50 then Ok (e, Result.failure (Need 50))
  else
    let e := Engine.updPlayer i
               (fun p => leaveJail (Player.add_money (-50) p)) e in
    Ok (Engine.log "PAY_JAIL_FINE" e, Result.ok).

Definition handleUseJailCard (i : nat) (e : Engine.t)
  : res (Engine.t * Result.t) :=
  player ← Engine.player e i;
  if negb (Player.inJail player) then Ok (e, Result.failure NotInJail)
  else if Player.jailFreeCards player =? 0 then
    Ok (e, Result.failure NoJailCard)
  else
    let e := Engine.updPlayer i
               (fun p => leaveJail
                           (Player.set_jailFreeCards
                              (Player.jailFreeCards p - 1) p)) e in
    Ok (Engine.log "USE_JAIL_CARD" e, Result.ok).

(** *** Rolling and moving *)

(** [multiAgent.rollDice ()] *)
Definition rollDice (e : Engine.t) : Roll.t * Engine.t :=
  (Roll.make (dice (Engine.rolls e)), Engine.set_rolls (S (Engine.rolls e)) e).

Definition getCurrentAgent (e : Engine.t) : res Agent.t :=
  defined (Engine.agents e
           !! GameState.currentPlayerIndex (Engine.gameState e)).

(** The move of [handleRollDice]: the new position, and the bonus of passing
    the start; the flag tells whether the bonus was paid. *)
Definition advance (total : Z) (p : Player.t) : Player.t * bool :=
  let oldPos := Player.position p in
  let p := Player.set_position (Z.rem (Player.position p + total) 40) p in
  if (Player.position p <? oldPos) || (40 <=? oldPos + total)
  then (Player.add_money 200 p, true)
  else (p, false).

(** The move of [handleRollDice] in the state: runs once the roll is recorded
    and the jail redirect has not fired. *)
Definition move (i : nat) (roll : Roll.t) (e : Engine.t) : res Engine.t :=
  player ← Engine.player e i;
  let moved := advance (Roll.total roll) player in
  let e := Engine.updPlayer i (fun _ => moved.1) e in
  let e := if moved.2 then Engine.log "PASS_GO" e else e in
  _ ← defined (tileAt (Player.position moved.1));
  Ok (Engine.set_lastCardDrawn None e).

(** The landing that follows, and the result handed back. *)
Definition landAfterRoll (fuel : nat) (i : nat) (e : Engine.t)
  : res (Engine.t * Result.t) :=
  e ← handleLanding fuel i e;
  player ← Engine.player e i;
  _ ← defined (tileAt (Player.position player));
  Ok (e, Result.ok).

Definition moveAndLand (fuel : nat) (i : nat) (roll : Roll.t) (e : Engine.t)
  : res (Engine.t * Result.t) :=
  e ← move i roll e;
  landAfterRoll fuel i e.

(** The bookkeeping of an accepted roll: the engine keeps the roll, the agent
    marks it, the event is logged, a double is counted. *)
Definition recordRoll (roll : Roll.t) (e : Engine.t) : Engine.t :=
  let e := Engine.set_currentDiceRoll (Some roll) e in
  let e := Engine.set_agents
             (alter (Agent.markRollResult (Roll.doubles roll))
                (GameState.currentPlayerIndex (Engine.gameState e))
                (Engine.agents e)) e in
  let e := Engine.log "DICE_ROLL" e in
  if Roll.doubles roll
  then Engine.set_doublesCount (Engine.doublesCount e + 1) e
  else e.

Definition handleRollDice (fuel : nat) (i : nat) (e : Engine.t)
  : res (Engine.t * Result.t) :=
  agent ← getCurrentAgent e;
  if negb (Agent.canRollDice agent) then
    _ ← Engine.player e i;
    Ok (e, Result.failure AlreadyRolled)
  else
    let (roll, e) := rollDice e in
    let e := recordRoll roll e in
    if Roll.doubles roll && (Engine.doublesCount e =? 3) then
      Ok (sendToJail i e, Result.okTurnEnded)
    else moveAndLand fuel i roll e.

(** *** Jail at the start of a turn *)

Definition handleJail (fuel : nat) (i : nat) (e : Engine.t) : res Engine.t :=
  player ← Engine.player e i;
  let e := Engine.updPlayer i
             (fun p => Player.set_jailTurns (Player.jailTurns p + 1) p) e in
  if 3 <=? Player.jailTurns player + 1 then
    if 50 <=? Player.money player then
      Ok (Engine.log "PAY_JAIL_FINE"
            (Engine.updPlayer i
               (fun p => leaveJail (Player.add_money (-50) p)) e))
    else handleBankruptcy i None e
  else
    let (roll, e) := rollDice e in
    if Roll.doubles roll then
      let e := Engine.updPlayer i
                 (fun p => Player.set_position
                             (Z.rem (Player.position p + Roll.total roll) 40)
                             (leaveJail p)) e in
      let e := Engine.log "JAIL_DOUBLES" e in
      _ ← defined (tileAt (Z.rem (Player.position player + Roll.total roll) 40));
      handleLanding fuel i e
    else Ok (Engine.log "JAIL_NO_DOUBLES" e).

(** *** Dispatch of a tool call *)

Definition handleGetGameState (e : Engine.t) : res (Engine.t * Result.t) :=
  _ ← Engine.player e (GameState.currentPlayerIndex (Engine.gameState e));
  _ ← mapM (fun p : Player.t =>
              _ ← defined (tileAt (Player.position p));
              mapM (fun loc => defined (tileAt loc)) (Player.properties p))
        (Engine.players e);
  Ok (e, Result.ok).

Definition handleGetPropertyInfo (loc : option Z) (e : Engine.t)
  : res (Engine.t * Result.t) :=
  match Engine.findProperty e loc with
  | None => Ok (e, Result.failure PropertyNotFound)
  | Some _ => Ok (e, Result.ok)
  end.

Definition executeToolCall (fuel : nat) (call : ToolCall) (i : nat)
  (e : Engine.t) : res (Engine.t * Result.t) :=
  _ ← Engine.player e i;
  match call with
  | roll_dice => handleRollDice fuel i e
  | buy_property confirm => handleBuyProperty i confirm e
  | auction_bid => Ok (e, Result.ok)
  | pass_auction => Ok (e, Result.ok)
  | build_house loc => handleBuildHouse i loc e
  | build_hotel loc => handleBuildHotel i loc e
  | mortgage_property loc => handleMortgageProperty i loc e
  | unmortgage_property loc => handleUnmortgageProperty i loc e
  | sell_house loc => handleSellHouse i loc e
  | sell_hotel loc => handleSellHotel i loc e
  | pay_jail_fine => handlePayJailFine i e
  | use_jail_card => handleUseJailCard i e
  | trade_property => Ok (Engine.log "TRADE_PROPOSAL" e, Result.ok)
  | respond_to_trade _ => Ok (e, Result.ok)
  | get_game_state => handleGetGameState e
  | get_property_info loc => handleGetPropertyInfo loc e
  | end_turn => Ok (e, Result.okTurnEnded)
  | unknown_tool => Ok (e, Result.failure UnknownTool)
  | null_arguments =>
      (* [args.confirm], [args.propertyLocation], [args.amount],
         [args.accept], [args.targetPlayer] with [args = null] *)
      Raise TypeError
  end.

(** *** The turn *)

(** [nextPlayer]: [do { index = (index + 1) % players.length } while
    (current.bankrupt && !gameOver)].  With [n] players, [n + 1] rounds that
    all find a bankrupt player mean that the loop never ends. *)
Fixpoint nextPlayerLoop (n : nat) (e : Engine.t) : res Engine.t :=
  match n with
  | O => Raise Diverges
  | S n =>
      let g := Engine.gameState e in
      match length (GameState.players g) with
      | O => Raise TypeError
      | S _ as len =>
          let index := ((GameState.currentPlayerIndex g + 1) mod len)%nat in
          let e := Engine.set_gameState
                     (GameState.set_currentPlayerIndex index g) e in
          current ← Engine.player e index;
          if Player.bankrupt current && negb (GameState.gameOver g)
          then nextPlayerLoop n e
          else Ok e
      end
  end.

Definition nextPlayer (e : Engine.t) : res Engine.t :=
  nextPlayerLoop (S (length (Engine.players e))) e.

Definition isEndTurn (call : ToolCall) : bool :=
  match call with
  | end_turn => true
  | _ => false
  end.

(** [for (const call of toolCalls) { ... }] of [playTurn]; the flag is
    [turnEnded]. *)
Fixpoint runToolCalls (fuel : nat) (i : nat) (calls : list ToolCall)
  (e : Engine.t) : res (Engine.t * bool) :=
  match calls with
  | [] => Ok (e, false)
  | call :: calls =>
      '(e, result) ← executeToolCall fuel call i e;
      player ← Engine.player e i;
      if isEndTurn call || Result.turnEnded result || Player.bankrupt player
      then Ok (e, true)
      else runToolCalls fuel i calls e
  end.

(** [agent.takeTurn (gameState)]: the provider's answer; the request is
    counted by the agent. *)
Definition requestDecision (i : nat) (e : Engine.t)
  : list ToolCall * Engine.t :=
  (takeTurn (Engine.interactions e) (Engine.gameState e),
   Engine.set_interactions (S (Engine.interactions e))
     (Engine.set_agents (alter Agent.countInteraction i (Engine.agents e)) e)).

(** [while (!turnEnded && !player.bankrupt) { ... }] of [playTurn], entered
    with [turnEnded = false]; [n] bounds the number of rounds. *)
Fixpoint decisionLoop (n : nat) (fuel : nat) (i : nat)
  (emptyResponseCount : Z) (e : Engine.t) : res Engine.t :=
  player ← Engine.player e i;
  if Player.bankrupt player then Ok e else
  match n with
  | O => Raise Diverges
  | S n =>
      let (toolCalls, e) := requestDecision i e in
      '(e, turnEnded, emptyResponseCount) ←
        match toolCalls with
        | [] =>
            Ok (e, 3 <=? emptyResponseCount + 1, emptyResponseCount + 1)
        | _ :: _ =>
            '(e, turnEnded) ← runToolCalls fuel i toolCalls e;
            Ok (e, turnEnded, 0)
        end;
      agent ← defined (Engine.agents e !! i);
      if turnEnded || (20 <? Agent.turnInteractionCount agent) then Ok e
      else decisionLoop n fuel i emptyResponseCount e
  end.

(** The bookkeeping that opens [playTurn]. *)
Definition beginTurn (e : Engine.t) : Engine.t :=
  let g := Engine.gameState e in
  let e := Engine.set_gameState (GameState.set_turn (GameState.turn g + 1) g)
             e in
  let e := Engine.set_agents
             (alter Agent.resetForNewTurn (GameState.currentPlayerIndex g)
                (Engine.agents e)) e in
  let e := Engine.log "TURN_START" e in
  Engine.set_doublesCount 0 e.

Definition playTurn (fuel : nat) (e : Engine.t) : res Engine.t :=
  let i := GameState.currentPlayerIndex (Engine.gameState e) in
  player ← Engine.player e i;
  _ ← getCurrentAgent e;
  let e := beginTurn e in
  if Player.inJail player then
    e ← handleJail fuel i e;
    player ← Engine.player e i;
    if Player.inJail player || Player.bankrupt player then nextPlayer e
    else
      e ← decisionLoop fuel fuel i 0 e;
      nextPlayer e
  else
    e ← decisionLoop fuel fuel i 0 e;
    nextPlayer e.

(** The turns of [runBenchmark]: [while (!gameOver && turn < maxTurns)
    { playTurn (); if (checkWinCondition ()) break; }], where
    [checkWinCondition] closes the game when one player is left. *)
Definition checkWinCondition (e : Engine.t) : Engine.t * bool :=
  match filter (fun p => Player.bankrupt p = false) (Engine.players e) with
  | [winner] =>
      (Engine.log "GAME_OVER"
         (Engine.set_gameState
            (GameState.set_winner (Some (Player.name winner))
               (GameState.set_gameOver true (Engine.gameState e))) e),
       true)
  | _ => (e, false)
  end.

Fixpoint runTurns (n : nat) (maxTurns : Z) (fuel : nat) (e : Engine.t)
  : res Engine.t :=
  let g := Engine.gameState e in
  if GameState.gameOver g || negb (GameState.turn g <? maxTurns) then Ok e
  else
    match n with
    | O => Raise Diverges
    | S n =>
        e ← playTurn fuel e;
        let (e, won) := checkWinCondition e in
        if won then Ok e else runTurns n maxTurns fuel e
    end.

End Operations.

(** ** Creation of a game *)

(** [generatePlayers]: one fresh player per model name, with ids [p1], [p2],
    ... *)
Definition newPlayer (id name : string) : Player.t :=
  {| Player.id := id; Player.name := name; Player.position := 0;
     Player.money := 1500; Player.properties := []; Player.jailFreeCards := 0;
     Player.inJail := false; Player.jailTurns := 0;
     Player.bankrupt := false |}.

Definition newAgent : Agent.t :=
  {| Agent.hasRolledThisTurn := false; Agent.doublesCount := 0;
     Agent.turnInteractionCount := 0 |}.

(** The constructor of [MonopolyMultiAgent] inside that of
    [MonopolyBenchmark]; the decks come shuffled. *)
Definition newGame (tiles : list Tile.t) (players : list Player.t)
  (chance communityChest : list Card.t) : Engine.t :=
  {| Engine.gameState :=
       {| GameState.players := players;
          GameState.currentPlayerIndex := 0;
          GameState.properties :=
            (fun t => {| Property.tile := t; Property.owner := None;
                         Property.houses := 0; Property.hotels := 0;
                         Property.mortgaged := false |})
            <$> filter (fun t => is_Some (Tile.cost (Tile.attrs t))) tiles;
          GameState.chanceCards := chance;
          GameState.communityChestCards := communityChest;
          GameState.houses := 32;
          GameState.hotels := 12;
          GameState.turn := 0;
          GameState.gameOver := false;
          GameState.winner := None |};
     Engine.agents := (fun _ => newAgent) <$> players;
     Engine.logs := [];
     Engine.doublesCount := 0;
     Engine.currentDiceRoll := None;
     Engine.lastCardDrawn := None;
     Engine.rolls := 0;
     Engine.interactions := 0 |}.

(** ** Setting up and closing a game *)

(** [shuffle] of [MonopolyMultiAgent], the Fisher-Yates loop
    [for (i = a.length - 1; i > 0; i--) { j = Math.floor (Math.random () *
    (i + 1)); [a[i], a[j]] = [a[j], a[i]] }].  [draw i] is the index [j]
    drawn in the round of index [i].  An exchange that reads outside the
    array would store [undefined], which is no element: it has no outcome
    here. *)
Definition exchange {A} (i j : nat) (a : list A) : option (list A) :=
  x ← a !! i;
  y ← a !! j;
  Some (<[j := x]> (<[i := y]> a)).

Fixpoint shuffleFrom {A} (draw : nat -> nat) (i : nat) (a : list A)
  : option (list A) :=
  match i with
  | O => Some a
  | S i' => a ← exchange i (draw i) a; shuffleFrom draw i' a
  end.

Definition shuffle {A} (draw : nat -> nat) (arr : list A) : option (list A) :=
  shuffleFrom draw (length arr - 1) arr.

(** [generatePlayers (modelList)] of [setup/models.ts], on the names of the
    models: the player of index [i] has the id [`p${i + 1}`]. *)
Definition generatePlayers (names : list string) : list Player.t :=
  imap (fun i name => newPlayer ("p" +:+ pretty (S i)) name) names.

(** The search of [determineWinnerByNetWorth] over the solvent players, from
    [best = null] and [bestWorth = 0]. *)
Definition richest (e : Engine.t) : Z * option Player.t :=
  foldl (fun best p =>
           let w := calculateNetWorth e p in
           if best.1 <? w then (w, Some p) else best)
    (0, None)
    (filter (fun p => Player.bankrupt p = false) (Engine.players e)).

Definition determineWinnerByNetWorth (e : Engine.t) : Engine.t :=
  match (richest e).2 with
  | Some best =>
      Engine.log "GAME_OVER_NET_WORTH"
        (Engine.set_gameState
           (GameState.set_winner (Some (Player.name best))
              (GameState.set_gameOver true (Engine.gameState e))) e)
  | None => e
  end.

(** [runBenchmark], without the files it writes: the turns, then the verdict
    by net worth when the turn limit is reached. *)
Definition runBenchmark (tiles : list Tile.t) (dice : nat -> Z * Z)
  (takeTurn : nat -> GameState.t -> list ToolCall) (n : nat) (maxTurns : Z)
  (fuel : nat) (e : Engine.t) : res Engine.t :=
  let e := Engine.log "GAME_START" e in
  e ← runTurns tiles dice takeTurn n maxTurns fuel e;
  if maxTurns <=? GameState.turn (Engine.gameState e)
  then Ok (determineWinnerByNetWorth (Engine.log "MAX_TURNS_REACHED" e))
  else Ok e.

(** ** A concrete game

    Modelled from the spec: [setup/board.ts] is not among the sources.  The
    board below has the 40 tiles of the spec's Board Registry, laid out as the
    agents' prompt lists them (Brown 1, 3; LightBlue 6, 8, 9; Pink 11, 13, 14;
    Orange 16, 18, 19; Red 21, 23, 24; Yellow 26, 27, 29; Green 31, 32, 34;
    DarkBlue 37, 39; railroads 5, 15, 25, 35; utilities 12, 28), with the
    prices and rents of the classic game.  The operations above do not depend
    on it; it serves to run them on concrete inputs. *)

Module Sample.

Definition plain (loc : Z) (name : string) (ty : Tile.tile_type) : Tile.t :=
  {| Tile.location := loc; Tile.name := name; Tile.type := ty;
     Tile.attrs :=
       {| Tile.color := None; Tile.cost := None; Tile.rent_amount := None;
          Tile.rent1House := None; Tile.rent2Houses := None;
          Tile.rent3Houses := None; Tile.rent4Houses := None;
          Tile.rentHotel := None; Tile.houseCost := None |} |}.

Definition street (loc : Z) (name color : string)
  (cost rent r1 r2 r3 r4 rh hc : Z) : Tile.t :=
  {| Tile.location := loc; Tile.name := name; Tile.type := Tile.colored;
     Tile.attrs :=
       {| Tile.color := Some color; Tile.cost := Some cost;
          Tile.rent_amount := Some rent; Tile.rent1House := Some r1;
          Tile.rent2Houses := Some r2; Tile.rent3Houses := Some r3;
          Tile.rent4Houses := Some r4; Tile.rentHotel := Some rh;
          Tile.houseCost := Some hc |} |}.

Definition station (loc : Z) (name : string) (ty : Tile.tile_type)
  (cost rent : Z) : Tile.t :=
  {| Tile.location := loc; Tile.name := name; Tile.type := ty;
     Tile.attrs :=
       {| Tile.color := None; Tile.cost := Some cost;
          Tile.rent_amount := Some rent; Tile.rent1House := None;
          Tile.rent2Houses := None; Tile.rent3Houses := None;
          Tile.rent4Houses := None; Tile.rentHotel := None;
          Tile.houseCost := None |} |}.

Definition tiles : list Tile.t :=
  [ plain 0 "Go" Tile.go;
    street 1 "Mediterranean Avenue" "Brown" 60 2 10 30 90 160 250 50;
    plain 2 "Community Chest" Tile.community_chest;
    street 3 "Baltic Avenue" "Brown" 60 4 20 60 180 320 450 50;
    plain 4 "Income Tax" Tile.income_tax;
    station 5 "Reading Railroad" Tile.railroad 200 25;
    street 6 "Oriental Avenue" "LightBlue" 100 6 30 90 270 400 550 50;
    plain 7 "Chance" Tile.chance;
    street 8 "Vermont Avenue" "LightBlue" 100 6 30 90 270 400 550 50;
    street 9 "Connecticut Avenue" "LightBlue" 120 8 40 100 300 450 600 50;
    plain 10 "Jail" Tile.visiting_jail;
    street 11 "St. Charles Place" "Pink" 140 10 50 150 450 625 750 100;
    station 12 "Electric Company" Tile.utilities 150 0;
    street 13 "States Avenue" "Pink" 140 10 50 150 450 625 750 100;
    street 14 "Virginia Avenue" "Pink" 160 12 60 180 500 700 900 100;
    station 15 "Pennsylvania Railroad" Tile.railroad 200 25;
    street 16 "St. James Place" "Orange" 180 14 70 200 550 750 950 100;
    plain 17 "Community Chest" Tile.community_chest;
    street 18 "Tennessee Avenue" "Orange" 180 14 70 200 550 750 950 100;
    street 19 "New York Avenue" "Orange" 200 16 80 220 600 800 1000 100;
    plain 20 "Free Parking" Tile.free_parking;
    street 21 "Kentucky Avenue" "Red" 220 18 90 250 700 875 1050 150;
    plain 22 "Chance" Tile.chance;
    street 23 "Indiana Avenue" "Red" 220 18 90 250 700 875 1050 150;
    street 24 "Illinois Avenue" "Red" 240 20 100 300 750 925 1100 150;
    station 25 "B. & O. Railroad" Tile.railroad 200 25;
    street 26 "Atlantic Avenue" "Yellow" 260 22 110 330 800 975 1150 150;
    street 27 "Ventnor Avenue" "Yellow" 260 22 110 330 800 975 1150 150;
    station 28 "Water Works" Tile.utilities 150 0;
    street 29 "Marvin Gardens" "Yellow" 280 24 120 360 850 1025 1200 150;
    plain 30 "Go To Jail" Tile.go_to_jail;
    street 31 "Pacific Avenue" "Green" 300 26 130 390 900 1100 1275 200;
    street 32 "North Carolina Avenue" "Green" 300 26 130 390 900 1100 1275 200;
    plain 33 "Community Chest" Tile.community_chest;
    street 34 "Pennsylvania Avenue" "Green" 320 28 150 450 1000 1200 1400 200;
    station 35 "Short Line" Tile.railroad 200 25;
    plain 36 "Chance" Tile.chance;
    street 37 "Park Place" "DarkBlue" 350 35 175 500 1100 1300 1500 200;
    plain 38 "Luxury Tax" Tile.luxury_tax;
    street 39 "Boardwalk" "DarkBlue" 400 50 200 600 1400 1700 2000 200 ].

(** The two catalogues of [setup/cards.ts], in catalogue order. *)
Definition card (id : Z) (ty : Card.card_type) (name : string)
  (attrs : Card.attributes) : Card.t :=
  {| Card.id := id; Card.type := ty; Card.name := name; Card.attrs := attrs |}.

Definition amount (a : Z) : Card.attributes :=
  {| Card.amount := Some a; Card.location := None; Card.jailFreeCard := false;
     Card.collectFromPlayers := false; Card.payToPlayers := false;
     Card.perPlayer := None; Card.moveSpaces := None;
     Card.moveToNearest := None; Card.rentMultiplier := None;
     Card.diceMultiplier := None; Card.perHouse := None;
     Card.perHotel := None; Card.collectOnPassGo := false |}.

Definition moveTo (loc : Z) (amount : option Z) (collectOnPassGo : bool)
  : Card.attributes :=
  {| Card.amount := amount; Card.location := Some loc;
     Card.jailFreeCard := false;
     Card.collectFromPlayers := false; Card.payToPlayers := false;
     Card.perPlayer := None; Card.moveSpaces := None;
     Card.moveToNearest := None; Card.rentMultiplier := None;
     Card.diceMultiplier := None; Card.perHouse := None;
     Card.perHotel := None; Card.collectOnPassGo := collectOnPassGo |}.

Definition toNearest (target : Card.nearest) (rentMultiplier diceMultiplier : option Z)
  : Card.attributes :=
  {| Card.amount := None; Card.location := None; Card.jailFreeCard := false;
     Card.collectFromPlayers := false; Card.payToPlayers := false;
     Card.perPlayer := None; Card.moveSpaces := None;
     Card.moveToNearest := Some target; Card.rentMultiplier := rentMultiplier;
     Card.diceMultiplier := diceMultiplier; Card.perHouse := None;
     Card.perHotel := None; Card.collectOnPassGo := false |}.

Definition jailFree : Card.attributes :=
  {| Card.amount := None; Card.location := None; Card.jailFreeCard := true;
     Card.collectFromPlayers := false; Card.payToPlayers := false;
     Card.perPlayer := None; Card.moveSpaces := None;
     Card.moveToNearest := None; Card.rentMultiplier := None;
     Card.diceMultiplier := None; Card.perHouse := None;
     Card.perHotel := None; Card.collectOnPassGo := false |}.

Definition moveBy (n : Z) : Card.attributes :=
  {| Card.amount := None; Card.location := None; Card.jailFreeCard := false;
     Card.collectFromPlayers := false; Card.payToPlayers := false;
     Card.perPlayer := None; Card.moveSpaces := Some n;
     Card.moveToNearest := None; Card.rentMultiplier := None;
     Card.diceMultiplier := None; Card.perHouse := None;
     Card.perHotel := None; Card.collectOnPassGo := false |}.

Definition repair (perHouse perHotel : Z) : Card.attributes :=
  {| Card.amount := None; Card.location := None; Card.jailFreeCard := false;
     Card.collectFromPlayers := false; Card.payToPlayers := false;
     Card.perPlayer := None; Card.moveSpaces := None;
     Card.moveToNearest := None; Card.rentMultiplier := None;
     Card.diceMultiplier := None; Card.perHouse := Some perHouse;
     Card.perHotel := Some perHotel; Card.collectOnPassGo := false |}.

Definition amongPlayers (collect pay : bool) (perPlayer : Z)
  : Card.attributes :=
  {| Card.amount := None; Card.location := None; Card.jailFreeCard := false;
     Card.collectFromPlayers := collect; Card.payToPlayers := pay;
     Card.perPlayer := Some perPlayer; Card.moveSpaces := None;
     Card.moveToNearest := None; Card.rentMultiplier := None;
     Card.diceMultiplier := None; Card.perHouse := None;
     Card.perHotel := None; Card.collectOnPassGo := false |}.

Definition chance : list Card.t :=
  [ card 1 Card.movement "Advance to Boardwalk" (moveTo 39 None false);
    card 2 Card.movement "Advance to Go" (moveTo 0 (Some 200) false);
    card 3 Card.movement "Advance to Illinois Avenue" (moveTo 24 None true);
    card 4 Card.movement "Advance to St. Charles Place" (moveTo 16 None true);
    card 5 Card.movement "Advance to Nearest Railroad"
      (toNearest Card.nearest_railroad (Some 2) None);
    card 6 Card.movement "Advance to Nearest Railroad"
      (toNearest Card.nearest_railroad (Some 2) None);
    card 7 Card.movement "Advance Token to Nearest Utility"
      (toNearest Card.nearest_utility None (Some 10));
    card 8 Card.financial "Bank Pays You Dividend" (amount 50);
    card 9 Card.special "Get Out of Jail Free" jailFree;
    card 10 Card.movement_penalty "Go Back 3 Spaces" (moveBy (-3));
    card 11 Card.movement_jail "Go to Jail" (moveTo 10 None false);
    card 12 Card.financial_penalty "Make General Repairs" (repair 25 100);
    card 13 Card.financial_penalty "Speeding Fine" (amount (-15));
    card 14 Card.movement "Take a Trip to Reading Railroad"
      (moveTo 5 None true);
    card 15 Card.financial_penalty "Chairman of the Board"
      (amongPlayers false true 50);
    card 16 Card.financial "Building Loan Matures" (amount 150) ].

Definition communityChest : list Card.t :=
  [ card 1 Card.movement "Advance to Go" (moveTo 0 (Some 200) false);
    card 2 Card.financial "Bank Error in Your Favor" (amount 200);
    card 3 Card.financial_penalty "Doctor's Fee" (amount (-50));
    card 4 Card.financial "From Sale of Stock" (amount 50);
    card 5 Card.special "Get Out of Jail Free" jailFree;
    card 6 Card.movement_jail "Go to Jail" (moveTo 10 None false);
    card 7 Card.financial "Holiday Fund Matures" (amount 100);
    card 8 Card.financial "Income Tax Refund" (amount 20);
    card 9 Card.financial "It Is Your Birthday" (amongPlayers true false 10);
    card 10 Card.financial "Life Insurance Matures" (amount 100);
    card 11 Card.financial_penalty "Hospital Fees" (amount (-100));
    card 12 Card.financial_penalty "School Fees" (amount (-50));
    card 13 Card.financial "Consultancy Fee" (amount 25);
    card 14 Card.financial_penalty "Street Repair Assessment" (repair 40 115);
    card 15 Card.financial "Beauty Contest Prize" (amount 10);
    card 16 Card.financial "You Inherit $100" (amount 100) ].

(** Two players, as [generatePlayers] makes them for the two configured
    models. *)
Definition players : list Player.t :=
  [ newPlayer "p1" "GPT OSS 120B"; newPlayer "p2" "Deepseek V3.2" ].

Definition start : Engine.t := newGame tiles players chance communityChest.

End Sample.

(** * Statements about the engine *)

(** ** Vocabulary *)

(** The commands of the transaction resolver that can fail. *)
Definition isResolverCommand (call : ToolCall) : bool :=
  match call with
  | buy_property _ | build_house _ | build_hotel _ | mortgage_property _
  | unmortgage_property _ | sell_house _ | sell_hotel _ | pay_jail_fine
  | use_jail_card => true
  | _ => false
  end.

(** Two properties of one colour group in one hand. *)
Definition sameOwnedGroup (p q : Property.t) : Prop :=
  is_Some (Tile.truthyColor (Property.tile p))
  /\ Tile.truthyColor (Property.tile p) = Tile.truthyColor (Property.tile q)
  /\ is_Some (Property.owner p)
  /\ Property.owner p = Property.owner q.

#[global] Instance sameOwnedGroup_dec p q : Decision (sameOwnedGroup p q).
Proof. unfold sameOwnedGroup. apply _. Defined.

(** The building invariant as the spec words it: within an owned colour
    group, house counts differ by at most one. *)
Definition evenHouses (e : Engine.t) : Prop :=
  forall p q, p ∈ Engine.properties e -> q ∈ Engine.properties e ->
    sameOwnedGroup p q -> Property.houses p - Property.houses q <= 1.

(** The same, among the properties that carry no hotel. *)
Definition evenOffHotels (ps : list Property.t) : Prop :=
  forall p q, p ∈ ps -> q ∈ ps ->
    sameOwnedGroup p q ->
    Property.hotels p <= 0 -> Property.hotels q <= 0 ->
    Property.houses p - Property.houses q <= 1.

Definition evenHousesOffHotels (e : Engine.t) : Prop :=
  evenOffHotels (Engine.properties e).

(** Buildings stand only on properties whose whole colour group is in the
    hand of their owner. *)
Definition built (p : Property.t) : Prop :=
  Property.houses p <> 0 \/ Property.hotels p <> 0.

Definition builtInMonopoly (ps : list Property.t) : Prop :=
  forall p, p ∈ ps -> built p ->
    exists c o,
      Tile.truthyColor (Property.tile p) = Some c
      /\ Property.owner p = Some o
      /\ forall q, q ∈ ps -> Property.color q = Some c ->
           Property.owner q = Some o.

(** The two together: what the engine maintains about buildings. *)
Definition soundProperties (ps : list Property.t) : Prop :=
  evenOffHotels ps /\ builtInMonopoly ps.

Definition soundBuildings (e : Engine.t) : Prop :=
  soundProperties (Engine.properties e).

(** Every command but sell_hotel. *)
Definition leavesHotelsAlone (call : ToolCall) : bool :=
  match call with
  | sell_hotel _ => false
  | _ => true
  end.

(** The resolver commands that change no owner and sell no hotel. *)
Definition keepsOwners (call : ToolCall) : bool :=
  match call with
  | build_house _ | build_hotel _ | sell_house _ | mortgage_property _
  | unmortgage_property _ | pay_jail_fine | use_jail_card => true
  | _ => false
  end.

(** The player that a bankruptcy leaves behind. *)
Definition ruined (p : Player.t) : Player.t :=
  Player.set_jailFreeCards 0
    (Player.set_properties [] (Player.set_money 0 (Player.set_bankrupt true p))).


Definition sumZ (l : list Z) : Z := foldr Z.add 0 l.


(** A candidate of the auction who is willing to pay [bid]. *)
Definition willing (bid : Z) (p : Player.t) : Prop :=
  Player.bankrupt p = false /\ bid < Player.money p.

#[global] Instance willing_dec bid p : Decision (willing bid p).
Proof. unfold willing. apply _. Defined.

(** ** Concrete runs on the sample game *)

Module Play.

(** A game of ten turns: [p1] lands on Baltic Avenue and buys it, goes round
    the board, lands on Mediterranean Avenue, buys it and builds four houses
    on each; [p2] rolls and ends its turns. *)
Definition dice (n : nat) : Z * Z :=
  nth n [(1, 2); (4, 6); (6, 5); (4, 6); (6, 5); (3, 5); (6, 4); (1, 2);
         (2, 4); (1, 2)] (1, 2).

Definition takeTurn (n : nat) (g : GameState.t) : list ToolCall :=
  nth n [ [roll_dice; buy_property true; end_turn];
          [roll_dice; end_turn]; [roll_dice; end_turn]; [roll_dice; end_turn];
          [roll_dice; end_turn]; [roll_dice; end_turn]; [roll_dice; end_turn];
          [roll_dice; end_turn];
          [roll_dice; buy_property true;
           build_house (Some 1); build_house (Some 3);
           build_house (Some 1); build_house (Some 3);
           build_house (Some 1); build_house (Some 3);
           build_house (Some 1); build_house (Some 3); end_turn];
          [roll_dice; end_turn] ] [end_turn].

(** The properties [ps] with the one at [loc] given to [owner] and built. *)
Definition develop (owner : string) (loc houses hotels : Z)
  (ps : list Property.t) : list Property.t :=
  (fun p => if bool_decide (Property.location p = loc)
            then Property.set_hotels hotels
                   (Property.set_houses houses
                      (Property.set_owner (Some owner) p))
            else p) <$> ps.

(** The game state that the ten turns reach: [p1] on Mediterranean Avenue with
    $1180 and four houses on each Brown property, [p2] on Pennsylvania Avenue,
    24 houses left in the bank. *)
Definition brownBuilt : Engine.t :=
  let g := Engine.gameState Sample.start in
  Engine.set_gameState
    (GameState.set_turn 10
       (GameState.set_houses 24
          (GameState.set_properties
             (develop "p1" 1 4 0 (develop "p1" 3 4 0 (GameState.properties g)))
             (GameState.set_players
                [ Player.set_properties [3; 1]
                    (Player.set_money 1180
                       (Player.set_position 1 (newPlayer "p1" "GPT OSS 120B")));
                  Player.set_position 34 (newPlayer "p2" "Deepseek V3.2") ]
                g))))
    Sample.start.

(** [brownBuilt] after a hotel replaced the houses of Mediterranean Avenue. *)
Definition brownHotel : Engine.t :=
  Engine.log "BUILD_HOTEL"
    (Engine.updBank 4 (-1)
       (Engine.setProperties
          (develop "p1" 1 0 1 (Engine.properties brownBuilt))
          (Engine.updPlayer 0 (Player.set_money 1130) brownBuilt))).

(** The dice of a turn in which a double is followed by a plain roll. *)
Definition doubleThenPlain (n : nat) : Z * Z :=
  nth n [(3, 3); (1, 3); (1, 2)] (1, 2).

(** [p1] starts its turn in jail with two jail turns behind it, and then
    answers the first request with a roll. *)
Definition thirdJailTurn : Engine.t :=
  Engine.updPlayer 0
    (fun p => Player.set_jailTurns 2
                (Player.set_inJail true (Player.set_position 10 p)))
    Sample.start.

Definition rollOnce (n : nat) (g : GameState.t) : list ToolCall :=
  [roll_dice; end_turn].

End Play.

(** The claim that the third jail turn ends once the fine is settled: the
    turn is the jail handling followed by the hand-over to the next player. *)
Definition jailTurnEndsEarly (tiles : list Tile.t) (dice : nat -> Z * Z)
  (takeTurn : nat -> GameState.t -> list ToolCall) (fuel : nat)
  (e : Engine.t) : Prop :=
  playTurn tiles dice takeTurn fuel e
  = (let i := GameState.currentPlayerIndex (Engine.gameState e) in
     e ← handleJail tiles dice fuel i (beginTurn e);
     nextPlayer e).

(** ** Vocabulary of the further properties *)

(** The solvent players, in turn order. *)
Definition solvent (e : Engine.t) : list Player.t :=
  filter (fun p => Player.bankrupt p = false) (Engine.players e).

(** The engine with the turn handed to the player of index [j]. *)
Definition handedTo (j : nat) (e : Engine.t) : Engine.t :=
  Engine.set_gameState
    (GameState.set_currentPlayerIndex j (Engine.gameState e)) e.

(** The player [k] seats after the current one, round the table. *)
Definition seat (e : Engine.t) (k : nat) : nat :=
  ((GameState.currentPlayerIndex (Engine.gameState e) + k)
   mod length (Engine.players e))%nat.

Definition bankruptAt (e : Engine.t) (j : nat) : Prop :=
  exists p, Engine.players e !! j = Some p /\ Player.bankrupt p = true.

Definition solventAt (e : Engine.t) (j : nat) : Prop :=
  exists p, Engine.players e !! j = Some p /\ Player.bankrupt p = false.

(** The cash in the hands of the players. *)
Definition cash (e : Engine.t) : Z := sumZ (Player.money <$> Engine.players e).

(** No player is overdrawn. *)
Definition covered (e : Engine.t) : Prop :=
  Forall (fun p => 0 <= Player.money p) (Engine.players e).

(** Prices and house costs of the property table are not negative. *)
Definition fairPrices (e : Engine.t) : Prop :=
  Forall (fun p => 0 <= Property.cost p
                   /\ 0 <= getHouseCost (Property.tile p))
    (Engine.properties e).

(** Every property carries between 0 and 4 houses and at most one hotel, and
    none carries both. *)
Definition wellBuilt (e : Engine.t) : Prop :=
  Forall (fun p => 0 <= Property.houses p <= 4
                   /\ 0 <= Property.hotels p <= 1
                   /\ (0 < Property.hotels p -> Property.houses p = 0))
    (Engine.properties e).



(** One draw from a deck: the top card goes to the back. *)
Inductive drawn {A : Type} : list A -> list A -> Prop :=
| drawn_top (card : A) (rest : list A) : drawn (card :: rest) (rest ++ [card]).

(** How a bankruptcy changes the property table: everything the debtor owns
    passes to the creditor as it stands, or goes back to the bank, cleared. *)
Inductive handover : list Property.t -> list Property.t -> Prop :=
| handover_creditor (debtor creditor : string) (ps : list Property.t) :
    handover ps (forOwned debtor (Property.set_owner (Some creditor)) ps)
| handover_bank (debtor : string) (ps : list Property.t) :
    handover ps (forOwned debtor surrender ps).

(** What a roll, with the landing it leads to, and the jail handling leave
    in place: the players and their order, the agents and the number of
    decisions asked of each, whose turn it is, the turn counter, the verdict,
    the bank's stock; the decks only turn, and the property table changes by
    bankruptcies only. *)
Record settles (e e' : Engine.t) : Prop := {
  settles_ids :
    Player.id <$> Engine.players e' = Player.id <$> Engine.players e;
  settles_names :
    Player.name <$> Engine.players e' = Player.name <$> Engine.players e;
  settles_agents : length (Engine.agents e') = length (Engine.agents e);
  settles_asked :
    Agent.turnInteractionCount <$> Engine.agents e'
    = Agent.turnInteractionCount <$> Engine.agents e;
  settles_interactions : Engine.interactions e' = Engine.interactions e;
  settles_index :
    GameState.currentPlayerIndex (Engine.gameState e')
    = GameState.currentPlayerIndex (Engine.gameState e);
  settles_turn :
    GameState.turn (Engine.gameState e') = GameState.turn (Engine.gameState e);
  settles_gameOver :
    GameState.gameOver (Engine.gameState e')
    = GameState.gameOver (Engine.gameState e);
  settles_winner :
    GameState.winner (Engine.gameState e')
    = GameState.winner (Engine.gameState e);
  settles_houses :
    GameState.houses (Engine.gameState e')
    = GameState.houses (Engine.gameState e);
  settles_hotels :
    GameState.hotels (Engine.gameState e')
    = GameState.hotels (Engine.gameState e);
  settles_chance :
    rtc drawn (GameState.chanceCards (Engine.gameState e))
      (GameState.chanceCards (Engine.gameState e'));
  settles_chest :
    rtc drawn (GameState.communityChestCards (Engine.gameState e))
      (GameState.communityChestCards (Engine.gameState e'));
  settles_table : rtc handover (Engine.properties e) (Engine.properties e');
}.

(** What every command and every turn leave in place: the players with their
    ids and names, in order, the number of agents, the tiles of the property
    table; the decks only turn. *)
Record sameCast (e e' : Engine.t) : Prop := {
  cast_ids : Player.id <$> Engine.players e' = Player.id <$> Engine.players e;
  cast_names :
    Player.name <$> Engine.players e' = Player.name <$> Engine.players e;
  cast_agents : length (Engine.agents e') = length (Engine.agents e);
  cast_tiles :
    Property.tile <$> Engine.properties e'
    = Property.tile <$> Engine.properties e;
  cast_chance :
    rtc drawn (GameState.chanceCards (Engine.gameState e))
      (GameState.chanceCards (Engine.gameState e'));
  cast_chest :
    rtc drawn (GameState.communityChestCards (Engine.gameState e))
      (GameState.communityChestCards (Engine.gameState e'));
}.

(** What every command leaves in place besides: the player to move, the turn
    counter, the verdict, and the number of decisions asked so far, of each
    agent in this turn and in all. *)
Record sameTurn (e e' : Engine.t) : Prop := {
  turn_index :
    GameState.currentPlayerIndex (Engine.gameState e')
    = GameState.currentPlayerIndex (Engine.gameState e);
  turn_turn :
    GameState.turn (Engine.gameState e') = GameState.turn (Engine.gameState e);
  turn_gameOver :
    GameState.gameOver (Engine.gameState e')
    = GameState.gameOver (Engine.gameState e);
  turn_winner :
    GameState.winner (Engine.gameState e')
    = GameState.winner (Engine.gameState e);
  turn_asked :
    Agent.turnInteractionCount <$> Engine.agents e'
    = Agent.turnInteractionCount <$> Engine.agents e;
  turn_interactions : Engine.interactions e' = Engine.interactions e;
}.

(** The bookkeeping of a turn: it touches neither the players, nor the
    property table, nor the bank, nor the decks, nor the player to move, nor
    the verdict. *)
Record books (e e' : Engine.t) : Prop := {
  books_players : Engine.players e' = Engine.players e;
  books_properties : Engine.properties e' = Engine.properties e;
  books_houses :
    GameState.houses (Engine.gameState e')
    = GameState.houses (Engine.gameState e);
  books_hotels :
    GameState.hotels (Engine.gameState e')
    = GameState.hotels (Engine.gameState e);
  books_chance :
    GameState.chanceCards (Engine.gameState e')
    = GameState.chanceCards (Engine.gameState e);
  books_chest :
    GameState.communityChestCards (Engine.gameState e')
    = GameState.communityChestCards (Engine.gameState e);
  books_agents : length (Engine.agents e') = length (Engine.agents e);
  books_index :
    GameState.currentPlayerIndex (Engine.gameState e')
    = GameState.currentPlayerIndex (Engine.gameState e);
  books_gameOver :
    GameState.gameOver (Engine.gameState e')
    = GameState.gameOver (Engine.gameState e);
  books_winner :
    GameState.winner (Engine.gameState e')
    = GameState.winner (Engine.gameState e);
}.

Definition steady (e e' : Engine.t) : Prop := sameCast e e' /\ sameTurn e e'.

(** The houses and the hotels that stand on the board. *)
Definition housesOnBoard (e : Engine.t) : Z :=
  sumZ (Property.houses <$> Engine.properties e).
Definition hotelsOnBoard (e : Engine.t) : Z :=
  sumZ (Property.hotels <$> Engine.properties e).

(** All the houses and all the hotels of the game: the bank's stock and the
    buildings on the board. *)
Definition allHouses (e : Engine.t) : Z :=
  GameState.houses (Engine.gameState e) + housesOnBoard e.
Definition allHotels (e : Engine.t) : Z :=
  GameState.hotels (Engine.gameState e) + hotelsOnBoard e.



Definition brownAlmostBuilt : Engine.t :=
  Engine.setProperties
    (Play.develop "p1" 3 3 0 (Engine.properties Play.brownBuilt))
    Play.brownBuilt.

Definition brownRebuilt : Engine.t :=
  Engine.log "BUILD_HOUSE"
    (Engine.updBank (-1) 0
       (Engine.updProperty 1
          (fun p => Property.set_houses (Property.houses p + 1) p)
          (Engine.updPlayer 0 (Player.add_money (-50)) brownAlmostBuilt))).

(** A run that does not end in a [TypeError] and whose outcome, if it comes
    back, satisfies [Q]. *)
Definition safe {A : Type} (m : res A) (Q : A -> Prop) : Prop :=
  match m with
  | Ok a => Q a
  | Raise TypeError => False
  | Raise Diverges => True
  end.

(** The positions of a board of 40 tiles. *)
Definition onBoard (pos : Z) : Prop := 0 <= pos < 40.

(** A board of 40 tiles whose locations are positions of the board; dice that
    show no negative total; a card that sends to a position of the board, or
    back by at most 40 steps. *)
Definition regularBoard (tiles : list Tile.t) : Prop :=
  length tiles = 40%nat /\ Forall (fun t => onBoard (Tile.location t)) tiles.

Definition regularDice (dice : nat -> Z * Z) : Prop :=
  forall n, 0 <= (dice n).1 + (dice n).2.

Definition regularCard (c : Card.t) : Prop :=
  (forall n, Card.moveSpaces (Card.attrs c) = Some n -> -40 <= n)
  /\ (forall loc, Card.location (Card.attrs c) = Some loc -> onBoard loc).

(** A player who stands on the board and holds deeds of the board. *)
Definition regularPlayer (p : Player.t) : Prop :=
  onBoard (Player.position p) /\ Forall onBoard (Player.properties p).

(** An engine ready to play with [n] players: as many agents, the player to
    move among them, regular players, a property table of the board, and two
    decks of regular cards, neither of them empty. *)
Record ready (n : nat) (e : Engine.t) : Prop := {
  ready_players : length (Engine.players e) = n;
  ready_agents : length (Engine.agents e) = n;
  ready_index :
    (GameState.currentPlayerIndex (Engine.gameState e) < n)%nat;
  ready_regular : Forall regularPlayer (Engine.players e);
  ready_table :
    Forall (fun p => onBoard (Property.location p)) (Engine.properties e);
  ready_chance :
    GameState.chanceCards (Engine.gameState e) <> []
    /\ Forall regularCard (GameState.chanceCards (Engine.gameState e));
  ready_chest :
    GameState.communityChestCards (Engine.gameState e) <> []
    /\ Forall regularCard (GameState.communityChestCards (Engine.gameState e));
}.

(** What a command leaves behind: a state that is ready again, whatever the
    result it reports. *)
Definition readyAfter (n : nat) (er : Engine.t * Result.t) : Prop :=
  ready n er.1.

(** Agents that never send the argument string [null] with a command that
    reads its arguments. *)
Definition neverNull (takeTurn : nat -> GameState.t -> list ToolCall) : Prop :=
  forall k g, null_arguments ∉ takeTurn k g.




(** ** Proof tools *)

Ltac invert H := inversion H; subst; clear H.

(** One step through the body of a handler whose outcome is known. *)
Ltac step_handler :=
  match goal with
  | H : Ok _ = Ok _ |- _ => invert H
  | H : Raise _ = Ok _ |- _ => discriminate H
  | H : Result.success Result.ok = false |- _ => discriminate H
  | H : context [match ?x with _ => _ end] |- _ => destruct x eqn:?
  end.

(** Case analysis on the test that heads the hypothesis [H]. *)
Ltac case_if H :=
  match type of H with
  | (if ?c then _ else _) = _ => destruct c
  end.

Create HintDb engine.

Lemma bind_Ok {A B} (a : A) (f : A -> res B) : (Ok a ≫= f) = f a.
Proof. reflexivity. Qed.

Lemma bind_Ok_inv {A B} (m : res A) (f : A -> res B) b :
  (m ≫= f) = Ok b -> exists a, m = Ok a /\ f a = Ok b.
Proof. destruct m as [a|x]; [eauto|discriminate]. Qed.

(** The first step of a sequence that came back. *)
Ltac bind_inv H :=
  let a := fresh "a" in
  let Ha := fresh "H" a in
  apply bind_Ok_inv in H as (a & Ha & H).

Lemma truthyColor_color tile c :
  Tile.truthyColor tile = Some c -> Tile.color (Tile.attrs tile) = Some c.
Proof.
  unfold Tile.truthyColor.
  destruct (Tile.color (Tile.attrs tile)) as [[|]|]; congruence.
Qed.

Lemma foldl_min_le l : forall a,
  foldl Z.min a l <= a /\ forall x, x ∈ l -> foldl Z.min a l <= x.
Proof.
  induction l as [|b l IH]; intros a; simpl.
  - split; [lia|]. intros x Hx. inversion Hx.
  - destruct (IH (Z.min a b)) as [H1 H2]. split; [lia|].
    intros x Hx. apply elem_of_cons in Hx as [->|Hx]; [lia|auto].
Qed.

Lemma foldl_max_ge l : forall a,
  a <= foldl Z.max a l /\ forall x, x ∈ l -> x <= foldl Z.max a l.
Proof.
  induction l as [|b l IH]; intros a; simpl.
  - split; [lia|]. intros x Hx. inversion Hx.
  - destruct (IH (Z.max a b)) as [H1 H2]. split; [lia|].
    intros x Hx. apply elem_of_cons in Hx as [->|Hx]; [lia|auto].
Qed.

Lemma minimum_le l m x : minimum l = Some m -> x ∈ l -> m <= x.
Proof.
  destruct l as [|a l]; [discriminate|]. simpl. intros [= <-] Hx.
  destruct (foldl_min_le l a) as [H1 H2].
  apply elem_of_cons in Hx as [->|Hx]; auto.
Qed.

Lemma maximum_ge l m x : maximum l = Some m -> x ∈ l -> x <= m.
Proof.
  destruct l as [|a l]; [discriminate|]. simpl. intros [= <-] Hx.
  destruct (foldl_max_ge l a) as [H1 H2].
  apply elem_of_cons in Hx as [->|Hx]; auto.
Qed.

(** The first match of a search is also the first match among the elements
    that pass a filter it passes. *)
Lemma list_find_filter {A} (P Q : A -> Prop) `{forall x, Decision (P x)}
  `{forall x, Decision (Q x)} (l : list A) k x :
  list_find P l = Some (k, x) -> Q x ->
  exists k', list_find P (filter Q l) = Some (k', x).
Proof.
  revert k. induction l as [|a l IH]; intros k; [discriminate|].
  simpl. destruct (decide (P a)) as [Pa|nPa].
  - intros [= <- <-] Qx. rewrite filter_cons_True by done.
    simpl. rewrite decide_True by done. eauto.
  - destruct (list_find P l) as [[k0 x0]|] eqn:E; [|discriminate].
    simpl. intros [= <- <-] Qx. destruct (IH k0 eq_refl Qx) as [k' Hk'].
    destruct (decide (Q a)).
    + rewrite filter_cons_True by done. simpl.
      rewrite decide_False by done. rewrite Hk'. simpl. eauto.
    + rewrite filter_cons_False by done. eauto.
Qed.

Lemma list_find_same_location (l : list Property.t) loc k property :
  list_find (fun p => Some (Property.location p) = loc) l = Some (k, property) ->
  list_find (fun p => Property.location p
                      = Tile.location (Property.tile property)) l
  = Some (k, property).
Proof.
  rewrite !list_find_Some. intros (Hk & Hloc & Hfirst).
  split_and!; [done|done|]. intros j y Hj Hlt Hy.
  apply (Hfirst j y Hj Hlt). rewrite <- Hloc. unfold Property.location in *.
  by rewrite Hy.
Qed.

Lemma findProperty_lookup e loc k property :
  Engine.findProperty e loc = Some (k, property) ->
  Engine.properties e !! k = Some property.
Proof. unfold Engine.findProperty. rewrite list_find_Some. tauto. Qed.

Lemma ownedBy_true pid p : ownedBy pid p = true -> Property.owner p = Some pid.
Proof. unfold ownedBy. intros H. by apply bool_decide_eq_true in H. Qed.

Lemma ownedBy_owner pid p : Property.owner p = Some pid -> ownedBy pid p = true.
Proof. intros H. unfold ownedBy. by apply bool_decide_eq_true. Qed.

Lemma elem_of_alter {A} (f : A -> A) k (l : list A) y x :
  l !! k = Some y -> x ∈ alter f k l -> x = f y \/ x ∈ l.
Proof.
  intros Hk [j Hj]%list_elem_of_lookup.
  destruct (decide (k = j)) as [->|Hne].
  - rewrite list_lookup_alter_eq, Hk in Hj. simpl in Hj. left. congruence.
  - rewrite list_lookup_alter_ne in Hj by done. right.
    apply list_elem_of_lookup. eauto.
Qed.

Lemma alter_insert {A} (f : A -> A) i (l : list A) x :
  l !! i = Some x -> alter f i l = <[i := f x]> l.
Proof.
  revert i. induction l as [|a l IH]; intros [|i] H; try discriminate.
  - by invert H.
  - csimpl. f_equal. by apply IH.
Qed.


Lemma player_lookup e i p :
  Engine.players e !! i = Some p -> Engine.player e i = Ok p.
Proof. intros Hp. unfold Engine.player. by rewrite Hp. Qed.

Lemma players_updPlayer e i f :
  Engine.players (Engine.updPlayer i f e) = alter f i (Engine.players e).
Proof. reflexivity. Qed.

Lemma lookup_updPlayer_ne e i j f :
  i <> j ->
  Engine.players (Engine.updPlayer i f e) !! j = Engine.players e !! j.
Proof. intros Hne. by rewrite players_updPlayer, list_lookup_alter_ne. Qed.

Lemma lookup_updPlayer_eq e i f :
  Engine.players (Engine.updPlayer i f e) !! i = f <$> Engine.players e !! i.
Proof. by rewrite players_updPlayer, list_lookup_alter_eq. Qed.

Lemma players_setProperties ps e :
  Engine.players (Engine.setProperties ps e) = Engine.players e.
Proof. reflexivity. Qed.

Lemma fmap_alter_kept {A B} (g : A -> B) (f : A -> A) (l : list A) i :
  (forall x, l !! i = Some x -> g (f x) = g x) ->
  g <$> alter f i l = g <$> l.
Proof.
  intros Hf. apply list_eq. intros j. rewrite !list_lookup_fmap.
  destruct (decide (i = j)) as [<-|Hij].
  - rewrite list_lookup_alter_eq. destruct (l !! i) as [x|] eqn:Hx; [|done].
    simpl. by rewrite Hf.
  - by rewrite list_lookup_alter_ne.
Qed.

Lemma forOwned_lookup pid f ps k p :
  ps !! k = Some p ->
  forOwned pid f ps !! k = Some (if ownedBy pid p then f p else p).
Proof. intros Hk. unfold forOwned. by rewrite list_lookup_fmap, Hk. Qed.

Lemma forOwned_length pid f ps : length (forOwned pid f ps) = length ps.
Proof. unfold forOwned. by rewrite length_fmap. Qed.

Lemma add_money_add_money a b p :
  Player.add_money b (Player.add_money a p) = Player.add_money (a + b) p.
Proof. unfold Player.add_money. simpl. by rewrite Z.add_assoc. Qed.

(** ** C1: failures of the transaction resolver *)

(** C1.  For each of the nine commands of the transaction resolver
    (buy_property, build_house, build_hotel, mortgage_property,
    unmortgage_property, sell_house, sell_hotel, pay_jail_fine,
    use_jail_card): when the handler returns a result with [success = false],
    the state after the call is the state before it: players, properties,
    bank inventory, decks and turn data, and also the event log, the agents'
    counters and the dice drawn. *)
Theorem failure_leaves_state_unchanged tiles dice fuel call i e e' r :
  isResolverCommand call = true ->
  executeToolCall tiles dice fuel call i e = Ok (e', r) ->
  Result.success r = false ->
  e' = e.
Proof.
  intros Hcmd Hrun Hfail.
  destruct call; try discriminate Hcmd; clear Hcmd;
    cbv [executeToolCall handleBuyProperty handleBuildHouse handleBuildHotel
         handleMortgageProperty handleUnmortgageProperty handleSellHouse
         handleSellHotel handlePayJailFine handleUseJailCard
         mbind res_bind] in Hrun;
    repeat step_handler; reflexivity.
Qed.

(** Building on a property of the bank fails with "Not owner" and changes
    nothing. *)
Lemma failure_leaves_state_unchanged_witness :
  isResolverCommand (build_house (Some 1)) = true
  /\ executeToolCall Sample.tiles Play.dice 0 (build_house (Some 1)) 0
       Sample.start
     = Ok (Sample.start, Result.failure NotOwner)
  /\ Sample.start = Sample.start.
Proof.
  split; [reflexivity|]. split; [vm_compute; reflexivity|].
  apply (failure_leaves_state_unchanged Sample.tiles Play.dice 0
           (build_house (Some 1)) 0 Sample.start Sample.start
           (Result.failure NotOwner)); vm_compute; reflexivity.
Defined.

(** ** C2: even building *)

Lemma sameOwnedGroup_sym p q : sameOwnedGroup p q -> sameOwnedGroup q p.
Proof.
  intros (Hc & Hcq & Ho & Hoq). unfold sameOwnedGroup.
  rewrite <- Hcq, <- Hoq. tauto.
Qed.

Lemma sameOwnedGroup_view p p' q q' :
  Property.tile p' = Property.tile p -> Property.owner p' = Property.owner p ->
  Property.tile q' = Property.tile q -> Property.owner q' = Property.owner q ->
  sameOwnedGroup p' q' -> sameOwnedGroup p q.
Proof.
  unfold sameOwnedGroup. intros -> -> -> ->. tauto.
Qed.

Lemma sameOwnedGroup_color p q c :
  sameOwnedGroup p q -> Tile.truthyColor (Property.tile p) = Some c ->
  Property.color q = Some c.
Proof.
  intros (_ & Hc & _) Hp. apply truthyColor_color. by rewrite <- Hc.
Qed.

Lemma evenHouses_Forall e :
  Forall (fun p => Forall (fun q => sameOwnedGroup p q ->
                              Property.houses p - Property.houses q <= 1)
                     (Engine.properties e)) (Engine.properties e)
  <-> evenHouses e.
Proof.
  unfold evenHouses. rewrite Forall_forall. setoid_rewrite Forall_forall.
  split; intros H p; [intros q Hp|intros Hp q]; by apply H.
Qed.

Lemma evenHouses_off_hotels e : evenHouses e -> evenHousesOffHotels e.
Proof. intros H p q Hp Hq Hsame _ _. by apply H. Qed.

(** In the owned group, the searched property is the one the handler holds. *)
Lemma ownedGroup_current e loc k property pid c :
  Engine.findProperty e loc = Some (k, property) ->
  Property.owner property = Some pid ->
  Tile.truthyColor (Property.tile property) = Some c ->
  exists k',
    list_find (fun p => Property.location p
                        = Tile.location (Property.tile property))
      (ownedGroup e pid c) = Some (k', property).
Proof.
  intros Hfind Hown Hc. unfold ownedGroup.
  apply list_find_same_location in Hfind.
  eapply (list_find_filter _ _ _ _ _ Hfind). split; [|done].
  by apply truthyColor_color.
Qed.

Lemma sameOwnedGroup_ownedGroup e property q pid c :
  q ∈ Engine.properties e ->
  Property.owner property = Some pid ->
  Tile.truthyColor (Property.tile property) = Some c ->
  sameOwnedGroup property q ->
  q ∈ ownedGroup e pid c.
Proof.
  intros Hq Hown Hc (_ & Hcq & _ & Hoq).
  unfold ownedGroup. apply list_elem_of_filter. split; [|done]. split.
  - apply truthyColor_color. by rewrite <- Hcq.
  - by rewrite <- Hoq.
Qed.

(** [canBuildEvenly]: the property holds the fewest houses of its group. *)
Lemma canBuildEvenly_least e loc k property pid :
  Engine.findProperty e loc = Some (k, property) ->
  Property.owner property = Some pid ->
  canBuildEvenly e pid (Property.tile property) = true ->
  forall q, q ∈ Engine.properties e -> sameOwnedGroup property q ->
    Property.houses property <= Property.houses q.
Proof.
  intros Hfind Hown Hcan q Hq Hsame.
  unfold canBuildEvenly in Hcan.
  destruct (Tile.truthyColor (Property.tile property)) as [c|] eqn:Hc;
    [|discriminate].
  destruct (ownedGroup_current e loc k property pid c Hfind Hown Hc)
    as [k' Hk'].
  rewrite Hk' in Hcan. apply bool_decide_eq_true in Hcan.
  eapply minimum_le; [symmetry; exact Hcan|].
  apply list_elem_of_fmap_2.
  by eapply sameOwnedGroup_ownedGroup.
Qed.

(** [canSellEvenly]: the property holds the most houses of its group. *)
Lemma canSellEvenly_greatest e loc k property pid :
  Engine.findProperty e loc = Some (k, property) ->
  Property.owner property = Some pid ->
  canSellEvenly e pid (Property.tile property) = true ->
  forall q, q ∈ Engine.properties e -> sameOwnedGroup property q ->
    Property.houses q <= Property.houses property.
Proof.
  intros Hfind Hown Hcan q Hq Hsame.
  unfold canSellEvenly in Hcan.
  destruct (Tile.truthyColor (Property.tile property)) as [c|] eqn:Hc;
    [|discriminate].
  destruct (ownedGroup_current e loc k property pid c Hfind Hown Hc)
    as [k' Hk'].
  rewrite Hk' in Hcan. apply bool_decide_eq_true in Hcan.
  eapply maximum_ge; [symmetry; exact Hcan|].
  apply list_elem_of_fmap_2.
  by eapply sameOwnedGroup_ownedGroup.
Qed.

Lemma hasMonopoly_group e pid tile :
  hasMonopoly e pid tile = true ->
  exists c, Tile.truthyColor tile = Some c
            /\ forall q, q ∈ Engine.properties e -> Property.color q = Some c ->
                 Property.owner q = Some pid.
Proof.
  unfold hasMonopoly. destruct (Tile.truthyColor tile) as [c|]; [|discriminate].
  intros Hall. exists c. split; [done|]. intros q Hq Hc.
  rewrite forallb_forall in Hall. apply ownedBy_true, Hall.
  apply list_elem_of_In, list_elem_of_filter. done.
Qed.

(** Changing the buildings of one property keeps the houses even when the
    changed property stays within one house of its group. *)
Lemma evenHousesOffHotels_alter e e' k property f :
  Engine.properties e !! k = Some property ->
  Engine.properties e' = alter f k (Engine.properties e) ->
  Property.tile (f property) = Property.tile property ->
  Property.owner (f property) = Property.owner property ->
  (forall q, q ∈ Engine.properties e -> sameOwnedGroup property q ->
     Property.hotels (f property) <= 0 -> Property.hotels q <= 0 ->
     Property.houses (f property) - Property.houses q <= 1
     /\ Property.houses q - Property.houses (f property) <= 1) ->
  evenHousesOffHotels e -> evenHousesOffHotels e'.
Proof.
  intros Hk Hprops Htile Howner Hnear Heven p q Hp Hq Hsame Hhp Hhq.
  rewrite Hprops in Hp, Hq.
  destruct (elem_of_alter f k _ _ p Hk Hp) as [->|Hp'];
    destruct (elem_of_alter f k _ _ q Hk Hq) as [->|Hq'].
  - lia.
  - apply (Hnear q); auto.
    eapply (sameOwnedGroup_view _ _ _ _ Htile Howner); eauto.
  - apply (Hnear p); auto. apply sameOwnedGroup_sym.
    eapply (sameOwnedGroup_view p p property (f property)); eauto.
  - by apply Heven.
Qed.

Lemma not_built p : ~ built p -> Property.houses p = 0 /\ Property.hotels p = 0.
Proof. unfold built. lia. Qed.

(** An unbuilt property next to a property of another hand: both are
    unbuilt. *)
Lemma builtInMonopoly_other_owner ps p q :
  builtInMonopoly ps -> p ∈ ps -> q ∈ ps ->
  Tile.truthyColor (Property.tile p) = Tile.truthyColor (Property.tile q) ->
  is_Some (Tile.truthyColor (Property.tile p)) ->
  Property.owner p <> Property.owner q ->
  ~ built p.
Proof.
  intros Hmono Hp Hq Hcolor [c Hc] Hne Hbuilt.
  destruct (Hmono p Hp Hbuilt) as (c' & o & Hc' & Ho & Hall).
  rewrite Hc in Hc'. invert Hc'.
  apply Hne. rewrite Ho. symmetry. apply Hall; [done|].
  apply truthyColor_color. by rewrite <- Hcolor.
Qed.

(** A change of the buildings of one property that keeps its tile and owner:
    the monopoly of built properties is kept when the property was built, or
    stands in a monopoly. *)
Lemma builtInMonopoly_alter ps k property f :
  ps !! k = Some property ->
  Property.tile (f property) = Property.tile property ->
  Property.owner (f property) = Property.owner property ->
  (built (f property) ->
   built property
   \/ exists c o, Tile.truthyColor (Property.tile property) = Some c
                  /\ Property.owner property = Some o
                  /\ forall q, q ∈ ps -> Property.color q = Some c ->
                       Property.owner q = Some o) ->
  builtInMonopoly ps -> builtInMonopoly (alter f k ps).
Proof.
  intros Hk Htile Howner Hbuilt Hmono p Hp Hb.
  assert (Hin : property ∈ ps) by (by eapply list_elem_of_lookup_2).
  assert (Hgroup : exists c o,
            Tile.truthyColor (Property.tile p) = Some c
            /\ Property.owner p = Some o
            /\ forall q, q ∈ ps -> Property.color q = Some c ->
                 Property.owner q = Some o).
  { destruct (elem_of_alter _ _ _ _ _ Hk Hp) as [->|Hp'].
    - rewrite Htile, Howner.
      destruct (Hbuilt Hb) as [Hb'|Hm]; [by apply Hmono|exact Hm].
    - by apply Hmono. }
  destruct Hgroup as (c & o & Hc & Ho & Hall).
  exists c, o. split_and!; [done|done|].
  intros q Hq Hcq.
  destruct (elem_of_alter _ _ _ _ _ Hk Hq) as [->|Hq']; [|by apply Hall].
  rewrite Howner. apply Hall; [done|].
  unfold Property.color in *. by rewrite <- Htile.
Qed.

(** A change of owners by a map that keeps tiles and buildings. *)
Lemma soundProperties_owners (g : Property.t -> Property.t) ps :
  (forall p, Property.tile (g p) = Property.tile p
             /\ Property.houses (g p) = Property.houses p
             /\ Property.hotels (g p) = Property.hotels p) ->
  (* the owner is kept or, in one hand at a time, replaced *)
  (forall p q, p ∈ ps -> q ∈ ps -> Property.owner p = Property.owner q ->
     Property.owner (g p) = Property.owner (g q)) ->
  (forall p, is_Some (Property.owner p) -> is_Some (Property.owner (g p))) ->
  soundProperties ps -> soundProperties (g <$> ps).
Proof.
  intros Hkeep Hhand Howned [Heven Hmono]. split.
  - intros p' q' [p [-> Hp]]%list_elem_of_fmap [q [-> Hq]]%list_elem_of_fmap
      (Hc & Hcq & Ho & Hoq) Hhp Hhq.
    destruct (Hkeep p) as (Htp & Hhousesp & Hhotelsp).
    destruct (Hkeep q) as (Htq & Hhousesq & Hhotelsq).
    rewrite Htp in Hc, Hcq. rewrite Htq in Hcq.
    rewrite Hhousesp, Hhousesq. rewrite Hhotelsp in Hhp. rewrite Hhotelsq in Hhq.
    destruct (decide (Property.owner p = Property.owner q)) as [Hsame|Hdiff].
    + destruct (decide (built p)) as [Hb|Hb].
      * apply Heven; try done. split_and!; try done.
        destruct (Hmono p Hp Hb) as (_ & o & _ & -> & _). done.
      * destruct (decide (built q)) as [Hbq|Hbq].
        -- apply Heven; try done. split_and!; try done.
           destruct (Hmono q Hq Hbq) as (_ & o & _ & Hoq' & _).
           rewrite Hsame, Hoq'. done.
        -- apply not_built in Hb, Hbq. lia.
    + assert (Hb : ~ built p)
        by (eapply (builtInMonopoly_other_owner ps p q); eauto).
      assert (Hbq : ~ built q).
      { eapply (builtInMonopoly_other_owner ps q p); eauto.
        by rewrite <- Hcq. }
      apply not_built in Hb, Hbq. lia.
  - intros p' [p [-> Hp]]%list_elem_of_fmap Hbuilt.
    destruct (Hkeep p) as (Htp & Hhousesp & Hhotelsp).
    assert (Hb : built p) by (unfold built in *; lia).
    destruct (Hmono p Hp Hb) as (c & o & Hc & Ho & Hall).
    destruct (Howned p) as [o' Ho']; [by rewrite Ho|].
    exists c, o'. rewrite Htp. split_and!; [done|done|].
    intros q' [q [-> Hq]]%list_elem_of_fmap Hcq.
    destruct (Hkeep q) as (Htq & _ & _).
    unfold Property.color in Hcq. rewrite Htq in Hcq.
    rewrite <- Ho'. apply Hhand; [done|done|].
    rewrite Ho. by apply Hall.
Qed.

Lemma soundProperties_creditor did cid ps :
  soundProperties ps ->
  soundProperties (forOwned did (Property.set_owner (Some cid)) ps).
Proof.
  apply soundProperties_owners.
  - intros p. by destruct (ownedBy did p).
  - intros p q _ _ Hpq. unfold ownedBy. rewrite Hpq.
    destruct (bool_decide _); [reflexivity|exact Hpq].
  - intros p Hp. by destruct (ownedBy did p).
Qed.

(** The properties of a bankrupt player go back to the bank. *)
Lemma soundProperties_surrender did ps :
  soundProperties ps -> soundProperties (forOwned did surrender ps).
Proof.
  intros [Heven Hmono].
  assert (Hkept : forall p', p' ∈ forOwned did surrender ps ->
            is_Some (Property.owner p') \/ built p' ->
            p' ∈ ps /\ Property.owner p' <> Some did).
  { intros p' [p [-> Hp]]%list_elem_of_fmap Hp'.
    destruct (ownedBy did p) eqn:Hown.
    - destruct Hp' as [[o Ho]|[Hh|Hh]]; simpl in *; done.
    - split; [done|]. unfold ownedBy in Hown.
      by apply bool_decide_eq_false in Hown. }
  split.
  - intros p q Hp Hq Hsame Hhp Hhq.
    destruct (Hkept p Hp) as [Hp' _]; [left; apply Hsame|].
    destruct (Hkept q Hq) as [Hq' _].
    { left. destruct Hsame as (_ & _ & Ho & <-). exact Ho. }
    by apply Heven.
  - intros p Hp Hb.
    destruct (Hkept p Hp) as [Hp' Hnot]; [by right|].
    destruct (Hmono p Hp' Hb) as (c & o & Hc & Ho & Hall).
    exists c, o. split_and!; [done|done|].
    intros q' [q [-> Hq]]%list_elem_of_fmap Hcq.
    destruct (ownedBy did q) eqn:Hown.
    + apply ownedBy_true in Hown. simpl in Hcq.
      specialize (Hall q Hq Hcq). congruence.
    + by apply Hall.
Qed.

(** An unowned property finds an owner. *)
Lemma soundProperties_acquire ps k property o :
  ps !! k = Some property ->
  Property.owner property = None ->
  soundProperties ps ->
  soundProperties (alter (Property.set_owner (Some o)) k ps).
Proof.
  intros Hk Hfree [Heven Hmono].
  assert (Hin : property ∈ ps) by (by eapply list_elem_of_lookup_2).
  assert (Hunbuilt : ~ built property).
  { intros Hb. destruct (Hmono property Hin Hb) as (_ & o' & _ & Ho' & _).
    congruence. }
  assert (Hgroup : forall q, q ∈ ps ->
            Tile.truthyColor (Property.tile q)
            = Tile.truthyColor (Property.tile property) ->
            is_Some (Tile.truthyColor (Property.tile q)) ->
            is_Some (Property.owner q) -> ~ built q).
  { intros q Hq Hc Hsome [oq Hoq].
    eapply (builtInMonopoly_other_owner ps q property); eauto. congruence. }
  apply not_built in Hunbuilt as [Hh0 Hl0].
  split.
  - intros p q Hp Hq Hsame Hhp Hhq.
    destruct (elem_of_alter _ _ _ _ _ Hk Hp) as [->|Hp'];
      destruct (elem_of_alter _ _ _ _ _ Hk Hq) as [->|Hq'].
    + lia.
    + destruct Hsame as (Hc & Hcq & Ho & Hoq). simpl in *.
      assert (Hq0 : ~ built q).
      { apply Hgroup; [done|by symmetry|by rewrite <- Hcq|by rewrite <- Hoq]. }
      apply not_built in Hq0. lia.
    + destruct Hsame as (Hc & Hcq & Ho & Hoq). simpl in *.
      assert (Hp0 : ~ built p) by (apply Hgroup; done).
      apply not_built in Hp0. lia.
    + by apply Heven.
  - intros p Hp Hb.
    destruct (elem_of_alter _ _ _ _ _ Hk Hp) as [->|Hp'].
    { unfold built in Hb. simpl in Hb. lia. }
    destruct (Hmono p Hp' Hb) as (c & o' & Hc & Ho' & Hall).
    exists c, o'. split_and!; [done|done|].
    intros q Hq Hcq.
    destruct (elem_of_alter _ _ _ _ _ Hk Hq) as [->|Hq']; [|by apply Hall].
    specialize (Hall property Hin Hcq). congruence.
Qed.

(** Evenness alone: build_house, build_hotel and sell_house keep the houses
    even off hotels, as do the resolver commands that touch no building. *)
Lemma resolver_keeps_even tiles dice fuel call i e e' r :
  keepsOwners call = true ->
  executeToolCall tiles dice fuel call i e = Ok (e', r) ->
  evenHousesOffHotels e -> evenHousesOffHotels e'.
Proof.
  intros Hcmd Hrun Heven.
  destruct call; try discriminate Hcmd; clear Hcmd;
    cbv [executeToolCall handleBuildHouse handleBuildHotel
         handleMortgageProperty handleUnmortgageProperty handleSellHouse
         handlePayJailFine handleUseJailCard mbind res_bind] in Hrun.
  all: repeat step_handler; try assumption.
  all: repeat match goal with
    | H : negb _ = false |- _ => apply negb_false_iff in H
    | H : ownedBy _ _ = true |- _ => apply ownedBy_true in H
    end.
  all: match goal with
    | H : Engine.findProperty _ _ = Some (?k, ?property) |- _ =>
        pose proof (findProperty_lookup _ _ _ _ H) as Hk;
        pose proof (list_elem_of_lookup_2 _ _ _ Hk) as Hin;
        eapply (evenHousesOffHotels_alter e _ _ _ _ Hk);
          [reflexivity|done|done| |done];
        intros q Hq Hsame Hh Hhq; simpl in Hh |- *
    | _ => idtac
    end.
  - (* build_house: the property was at the minimum of its group *)
    match goal with
    | Hfind : Engine.findProperty _ _ = Some _,
      Hown : Property.owner _ = Some _,
      Hcan : canBuildEvenly _ _ _ = true |- _ =>
        pose proof (canBuildEvenly_least _ _ _ _ _ Hfind Hown Hcan q Hq Hsame)
    end.
    pose proof (Heven q _ Hq Hin (sameOwnedGroup_sym _ _ Hsame) Hhq Hh). lia.
  - (* build_hotel: the property now carries a hotel *)
    lia.
  - (* mortgage_property *)
    split; apply Heven; auto using sameOwnedGroup_sym.
  - (* unmortgage_property *)
    split; apply Heven; auto using sameOwnedGroup_sym.
  - (* sell_house: the property was at the maximum of its group *)
    match goal with
    | Hfind : Engine.findProperty _ _ = Some _,
      Hown : Property.owner _ = Some _,
      Hcan : canSellEvenly _ _ _ = true |- _ =>
        pose proof (canSellEvenly_greatest _ _ _ _ _ Hfind Hown Hcan q Hq Hsame)
    end.
    pose proof (Heven _ q Hin Hq Hsame Hh Hhq). lia.
Qed.

(** The seven resolver commands that change no owner keep buildings on
    monopolies. *)
Lemma resolver_keeps_monopoly tiles dice fuel call i e e' r :
  keepsOwners call = true ->
  executeToolCall tiles dice fuel call i e = Ok (e', r) ->
  builtInMonopoly (Engine.properties e) ->
  builtInMonopoly (Engine.properties e').
Proof.
  intros Hcmd Hrun Hmono.
  destruct call; try discriminate Hcmd; clear Hcmd;
    cbv [executeToolCall handleBuildHouse handleBuildHotel
         handleMortgageProperty handleUnmortgageProperty handleSellHouse
         handlePayJailFine handleUseJailCard mbind res_bind] in Hrun.
  all: repeat step_handler; try assumption.
  all: repeat match goal with
    | H : negb _ = false |- _ => apply negb_false_iff in H
    | H : ownedBy _ _ = true |- _ => apply ownedBy_true in H
    end.
  all: match goal with
    | H : Engine.findProperty _ _ = Some (?k, ?property) |- _ =>
        pose proof (findProperty_lookup _ _ _ _ H) as Hk;
        eapply (builtInMonopoly_alter _ _ _ _ Hk); [done|done| |done];
        unfold built; simpl; intros Hb
    end.
  - (* build_house: the builder holds the whole group *)
    right.
    match goal with
    | Hm : hasMonopoly _ _ _ = true |- _ =>
        apply hasMonopoly_group in Hm as (c & Hc & Hall)
    end.
    eauto.
  - (* build_hotel *) left. lia.
  - (* mortgage_property *) by left.
  - (* unmortgage_property *) by left.
  - (* sell_house *) left. lia.
Qed.

(** *** The rest of the engine

    Outside the resolver the property table changes only when a bankruptcy
    is settled. *)

Lemma handleBankruptcy_sound i creditor e e' :
  handleBankruptcy i creditor e = Ok e' -> soundBuildings e -> soundBuildings e'.
Proof.
  unfold handleBankruptcy, soundBuildings. intros H Hs.
  bind_inv H. bind_inv H. invert H.
  destruct creditor as [c|].
  - bind_inv Ha0. bind_inv Ha0. bind_inv Ha0. invert Ha0.
    by apply soundProperties_creditor.
  - invert Ha0. by apply soundProperties_surrender.
Qed.

#[local] Hint Resolve handleBankruptcy_sound : engine.

Lemma settle_sound action i o rent e e' :
  settle action i o rent e = Ok e' -> soundBuildings e -> soundBuildings e'.
Proof.
  unfold settle. intros H Hs. bind_inv H.
  destruct (rent <=? Player.money a); [by invert H|eauto with engine].
Qed.

#[local] Hint Resolve settle_sound : engine.

Lemma payBank_sound action i tax e e' :
  payBank action i tax e = Ok e' -> soundBuildings e -> soundBuildings e'.
Proof.
  unfold payBank. intros H Hs. bind_inv H.
  destruct (tax <=? Player.money a); [by invert H|eauto with engine].
Qed.

#[local] Hint Resolve payBank_sound : engine.

Lemma payRent_sound i property e e' :
  payRent i property e = Ok e' -> soundBuildings e -> soundBuildings e'.
Proof.
  unfold payRent. intros H Hs.
  destruct (Property.mortgaged property); [by invert H|].
  destruct (Engine.findPlayer e _) as [[o owner]|]; [|by invert H].
  destruct (Player.bankrupt owner); [by invert H|eauto with engine].
Qed.

#[local] Hint Resolve payRent_sound : engine.

Lemma handlePropertyLanding_sound i tile e e' :
  handlePropertyLanding i tile e = Ok e' -> soundBuildings e -> soundBuildings e'.
Proof.
  unfold handlePropertyLanding. intros H Hs.
  destruct (Engine.findProperty e _) as [[k property]|]; [|by invert H].
  bind_inv H. destruct (Property.owner property); [|by invert H].
  destruct (bool_decide _); [by invert H|eauto with engine].
Qed.

#[local] Hint Resolve handlePropertyLanding_sound : engine.

Lemma handleIncomeTax_sound i e e' :
  handleIncomeTax i e = Ok e' -> soundBuildings e -> soundBuildings e'.
Proof. unfold handleIncomeTax. intros H Hs. bind_inv H. eauto with engine. Qed.

Lemma handleLuxuryTax_sound i e e' :
  handleLuxuryTax i e = Ok e' -> soundBuildings e -> soundBuildings e'.
Proof. unfold handleLuxuryTax. eauto with engine. Qed.

#[local] Hint Resolve handleIncomeTax_sound handleLuxuryTax_sound : engine.

(** Transfers of money among players leave the property table alone. *)
Lemma foldl_properties {A} (f : Engine.t -> A -> Engine.t) l :
  (forall e a, Engine.properties (f e a) = Engine.properties e) ->
  forall e, Engine.properties (foldl f e l) = Engine.properties e.
Proof.
  intros Hf. induction l as [|a l IH]; intros e; [reflexivity|].
  simpl. by rewrite IH, Hf.
Qed.

Lemma collectFromPlayers_sound i perPlayer e e' :
  collectFromPlayers i perPlayer e = Ok e' -> soundBuildings e -> soundBuildings e'.
Proof.
  unfold collectFromPlayers, soundBuildings. intros H Hs. bind_inv H. invert H.
  rewrite foldl_properties; [done|].
  intros e0 j. unfold collectFrom. by destruct (Engine.players e0 !! j).
Qed.

Lemma payToPlayers_sound i perPlayer e e' :
  payToPlayers i perPlayer e = Ok e' -> soundBuildings e -> soundBuildings e'.
Proof.
  unfold payToPlayers. intros H Hs. bind_inv H.
  destruct (_ <=? _); [|eauto with engine]. invert H.
  unfold soundBuildings. rewrite foldl_properties; done.
Qed.

Lemma repairs_sound i attrs e e' :
  repairs i attrs e = Ok e' -> soundBuildings e -> soundBuildings e'.
Proof.
  unfold repairs. intros H Hs. bind_inv H.
  destruct (_ <=? _); [by invert H|eauto with engine].
Qed.

#[local] Hint Resolve collectFromPlayers_sound payToPlayers_sound
  repairs_sound : engine.

Section Landing.

Variable tiles : list Tile.t.
Variable dice : nat -> Z * Z.
Variable landing : nat -> Engine.t -> res Engine.t.
Hypothesis landing_sound :
  forall i e e', landing i e = Ok e' -> soundBuildings e -> soundBuildings e'.

Lemma cardMoveToNearest_sound i target attrs e e' :
  cardMoveToNearest tiles dice landing i target attrs e = Ok e' ->
  soundBuildings e -> soundBuildings e'.
Proof.
  unfold cardMoveToNearest. intros H Hs.
  bind_inv H. bind_inv H. bind_inv H.
  match type of H with
  | context [landing i ?e1] =>
      assert (Hs1 : soundBuildings e1) by (by destruct (_ <? _))
  end.
  destruct (Engine.findProperty _ _) as [[k property]|]; [|eauto].
  destruct (truthyOwner _); [|eauto].
  destruct (bool_decide _); [eauto|].
  destruct (Engine.findPlayer _ _) as [[o owner]|]; [|by invert H].
  destruct (Player.bankrupt owner); [by invert H|].
  bind_inv H.
  assert (Hs2 : soundBuildings a2).
  { destruct (truthyZ (Card.rentMultiplier attrs));
      [eauto with engine|by invert Ha2]. }
  destruct (truthyZ (Card.diceMultiplier attrs)); [|by invert H].
  eapply settle_sound; [exact H|exact Hs2].
Qed.

Lemma executeCardEffect_sound i card e e' :
  executeCardEffect tiles dice landing i card e = Ok e' ->
  soundBuildings e -> soundBuildings e'.
Proof.
  unfold executeCardEffect. intros H Hs. bind_inv H.
  destruct (Card.moveSpaces _); [bind_inv H; eauto|].
  destruct (Card.moveToNearest _); [by eapply cardMoveToNearest_sound|].
  bind_inv H.
  assert (Hs0 : soundBuildings a0).
  { destruct (Card.location _); [|by invert Ha0].
    bind_inv Ha0. eapply landing_sound; [exact Ha0|].
    by destruct (_ && _). }
  clear Ha0. bind_inv H. bind_inv H.
  match type of Ha1 with
  | context [collectFromPlayers i _ ?e1] =>
      assert (Hs1 : soundBuildings e1)
        by (destruct (Card.amount _), (Card.jailFreeCard _), (bool_decide _);
            exact Hs0)
  end.
  assert (Hs2 : soundBuildings a1) by (case_if Ha1; [eauto with engine|by invert Ha1]).
  assert (Hs3 : soundBuildings a2) by (case_if Ha2; [eauto with engine|by invert Ha2]).
  case_if H; [eauto with engine|by invert H].
Qed.

Lemma drawChanceCard_sound i e e' :
  drawChanceCard tiles dice landing i e = Ok e' -> soundBuildings e -> soundBuildings e'.
Proof.
  unfold drawChanceCard. intros H Hs.
  destruct (GameState.chanceCards _); [discriminate|].
  by eapply executeCardEffect_sound.
Qed.

Lemma drawCommunityChestCard_sound i e e' :
  drawCommunityChestCard tiles dice landing i e = Ok e' -> soundBuildings e -> soundBuildings e'.
Proof.
  unfold drawCommunityChestCard. intros H Hs.
  destruct (GameState.communityChestCards _); [discriminate|].
  by eapply executeCardEffect_sound.
Qed.

End Landing.

Lemma handleLanding_sound tiles dice fuel : forall i e e',
  handleLanding tiles dice fuel i e = Ok e' -> soundBuildings e -> soundBuildings e'.
Proof.
  induction fuel as [|fuel IH]; intros i e e' H Hs; [discriminate|].
  simpl in H. bind_inv H. bind_inv H.
  destruct (Tile.type a0); try (by invert H); eauto with engine.
  - by eapply drawChanceCard_sound.
  - by eapply drawCommunityChestCard_sound.
Qed.

#[local] Hint Resolve handleLanding_sound : engine.

Lemma startAuction_sound k property e :
  Engine.properties e !! k = Some property ->
  Property.owner property = None ->
  soundBuildings e -> soundBuildings (startAuction k property e).
Proof.
  intros Hk Hfree Hs. unfold startAuction.
  destruct (auctionLoop _ _) as [bestBid [w|]]; [|exact Hs].
  destruct (0 <? bestBid); [|exact Hs].
  destruct (Engine.players _ !! w) as [winner|]; [|exact Hs].
  exact (soundProperties_acquire _ _ _ (Player.id winner) Hk Hfree Hs).
Qed.

Lemma handleBuyProperty_sound tiles i confirm e e' r :
  handleBuyProperty tiles i confirm e = Ok (e', r) -> soundBuildings e -> soundBuildings e'.
Proof.
  unfold handleBuyProperty. intros H Hs. bind_inv H.
  destruct (tileAt tiles _); [|by destruct (Engine.properties e); invert H].
  destruct (Engine.findProperty e _) as [[k property]|] eqn:Hfind;
    [|by invert H].
  apply findProperty_lookup in Hfind.
  destruct (Property.owner property) eqn:Hown; [by invert H|].
  destruct confirm; cbn [negb] in H.
  - case_if H; invert H; [done|].
    exact (soundProperties_acquire _ _ _ (Player.id a) Hfind Hown Hs).
  - invert H. by apply startAuction_sound.
Qed.

Lemma recordRoll_properties roll e :
  Engine.properties (recordRoll roll e) = Engine.properties e.
Proof. unfold recordRoll. by destruct (Roll.doubles roll). Qed.

Lemma move_sound tiles i roll e e' :
  move tiles i roll e = Ok e' -> soundBuildings e -> soundBuildings e'.
Proof.
  unfold move. intros H Hs. bind_inv H. bind_inv H. invert H.
  by destruct (advance _ _).2.
Qed.

Lemma landAfterRoll_sound tiles dice fuel i e e' r :
  landAfterRoll tiles dice fuel i e = Ok (e', r) -> soundBuildings e -> soundBuildings e'.
Proof.
  unfold landAfterRoll. intros H Hs.
  apply bind_Ok_inv in H as (e1 & Hland & H). bind_inv H. bind_inv H.
  invert H. eauto with engine.
Qed.

Lemma handleRollDice_sound tiles dice fuel i e e' r :
  handleRollDice tiles dice fuel i e = Ok (e', r) -> soundBuildings e -> soundBuildings e'.
Proof.
  unfold handleRollDice, rollDice. intros H Hs. bind_inv H.
  destruct (negb _); [by bind_inv H; invert H|].
  match type of H with
  | context [recordRoll ?roll ?e0] =>
      assert (Hs1 : soundBuildings (recordRoll roll e0))
        by (unfold soundBuildings; by rewrite recordRoll_properties)
  end.
  case_if H; [by invert H|].
  unfold moveAndLand in H. apply bind_Ok_inv in H as (e1 & Hmove & H).
  eapply landAfterRoll_sound; [exact H|]. by eapply move_sound.
Qed.

Lemma handleJail_sound tiles dice fuel i e e' :
  handleJail tiles dice fuel i e = Ok e' -> soundBuildings e -> soundBuildings e'.
Proof.
  unfold handleJail, rollDice. intros H Hs. bind_inv H.
  case_if H; [case_if H; [by invert H|eauto with engine]|].
  case_if H; [|by invert H]. bind_inv H. eauto with engine.
Qed.

Lemma executeToolCall_sound tiles dice fuel call i e e' r :
  leavesHotelsAlone call = true ->
  executeToolCall tiles dice fuel call i e = Ok (e', r) ->
  soundBuildings e -> soundBuildings e'.
Proof.
  intros Hcall H Hs.
  destruct (keepsOwners call) eqn:Hkeeps.
  { destruct Hs as [Heven Hmono]. split.
    - exact (resolver_keeps_even _ _ _ _ _ _ _ _ Hkeeps H Heven).
    - exact (resolver_keeps_monopoly _ _ _ _ _ _ _ _ Hkeeps H Hmono). }
  destruct call; try discriminate Hcall; try discriminate Hkeeps;
    unfold executeToolCall in H; bind_inv H; try discriminate H.
  - by eapply handleRollDice_sound.
  - by eapply handleBuyProperty_sound.
  - invert H. exact Hs.
  - invert H. exact Hs.
  - invert H. exact Hs.
  - invert H. exact Hs.
  - unfold handleGetGameState in H. bind_inv H. bind_inv H. invert H. exact Hs.
  - unfold handleGetPropertyInfo in H.
    destruct (Engine.findProperty _ _); invert H; exact Hs.
  - invert H. exact Hs.
  - invert H. exact Hs.
Qed.

Lemma runToolCalls_sound tiles dice fuel i calls : forall e e' ended,
  Forall (fun call => leavesHotelsAlone call = true) calls ->
  runToolCalls tiles dice fuel i calls e = Ok (e', ended) ->
  soundBuildings e -> soundBuildings e'.
Proof.
  induction calls as [|call calls IH]; intros e e' ended Hcalls H Hs.
  - by invert H.
  - apply Forall_cons in Hcalls as [Hcall Hcalls]. simpl in H.
    bind_inv H. destruct a as [e1 result]. bind_inv H.
    assert (Hs1 : soundBuildings e1) by (by eapply executeToolCall_sound).
    case_if H; [by invert H|eauto].
Qed.

Section Turns.

Variable tiles : list Tile.t.
Variable dice : nat -> Z * Z.
Variable takeTurn : nat -> GameState.t -> list ToolCall.
Hypothesis takeTurn_no_hotel_sale :
  forall n g, Forall (fun call => leavesHotelsAlone call = true) (takeTurn n g).

Lemma decisionLoop_sound n fuel i : forall empties e e',
  decisionLoop tiles dice takeTurn n fuel i empties e = Ok e' ->
  soundBuildings e -> soundBuildings e'.
Proof.
  induction n as [|n IH]; intros empties e e' H Hs; simpl in H;
    apply bind_Ok_inv in H as (player & _ & H).
  - case_if H; [by invert H|discriminate].
  - case_if H; [by invert H|].
    unfold requestDecision in H.
    apply bind_Ok_inv in H as ([[e1 ended] empties1] & Hround & H).
    apply bind_Ok_inv in H as (agent & _ & H).
    assert (Hs1 : soundBuildings e1).
    { pose proof (takeTurn_no_hotel_sale (Engine.interactions e)
                    (Engine.gameState e)) as Hcalls.
      destruct (takeTurn _ _) as [|call calls]; [invert Hround; exact Hs|].
      apply bind_Ok_inv in Hround as ([e2 ended2] & Hrun & Hround).
      invert Hround.
      eapply runToolCalls_sound; [exact Hcalls|exact Hrun|exact Hs]. }
    case_if H; [by invert H|eauto].
Qed.

Lemma nextPlayerLoop_properties n : forall e e',
  nextPlayerLoop n e = Ok e' -> Engine.properties e' = Engine.properties e.
Proof.
  induction n as [|n IH]; intros e e' H; [discriminate|]. simpl in H.
  destruct (length _); [discriminate|]. bind_inv H.
  case_if H; [by rewrite (IH _ _ H)|by invert H].
Qed.

Lemma nextPlayer_sound e e' : nextPlayer e = Ok e' -> soundBuildings e -> soundBuildings e'.
Proof.
  unfold nextPlayer, soundBuildings. intros H Hs.
  by rewrite (nextPlayerLoop_properties _ _ _ H).
Qed.

Lemma playTurn_sound fuel e e' :
  playTurn tiles dice takeTurn fuel e = Ok e' -> soundBuildings e -> soundBuildings e'.
Proof.
  unfold playTurn. intros H Hs. bind_inv H. bind_inv H.
  assert (Hs0 : soundBuildings (beginTurn e)) by exact Hs.
  case_if H.
  - bind_inv H. bind_inv H.
    assert (Hs1 : soundBuildings a1) by (by eapply handleJail_sound).
    case_if H; [by eapply nextPlayer_sound|].
    bind_inv H. eapply nextPlayer_sound; [exact H|].
    by eapply decisionLoop_sound.
  - bind_inv H. eapply nextPlayer_sound; [exact H|].
    by eapply decisionLoop_sound.
Qed.

Lemma runTurns_sound n maxTurns fuel : forall e e',
  runTurns tiles dice takeTurn n maxTurns fuel e = Ok e' ->
  soundBuildings e -> soundBuildings e'.
Proof.
  induction n as [|n IH]; intros e e' H Hs; simpl in H.
  - case_if H; [by invert H|discriminate].
  - case_if H; [by invert H|]. bind_inv H.
    assert (Hs1 : soundBuildings a) by (by eapply playTurn_sound).
    assert (Hs2 : soundBuildings (checkWinCondition a).1).
    { unfold checkWinCondition. by destruct (filter _ _) as [|? [|? ?]]. }
    destruct (checkWinCondition a) as [e2 won]. case_if H; [by invert H|eauto].
Qed.

End Turns.

Lemma newGame_sound tiles players chance communityChest :
  soundBuildings (newGame tiles players chance communityChest).
Proof.
  unfold soundBuildings, newGame. simpl. split.
  - intros p q [t [-> _]]%list_elem_of_fmap _ (_ & _ & [o Ho] & _).
    discriminate Ho.
  - intros p [t [-> _]]%list_elem_of_fmap [Hb|Hb]; simpl in Hb; lia.
Qed.

Lemma playedWithoutHotelSale (n : nat) (g : GameState.t) :
  Forall (fun call => leavesHotelsAlone call = true) (Play.takeTurn n g).
Proof.
  unfold Play.takeTurn.
  do 10 (destruct n as [|n]; [repeat constructor|]).
  destruct n; repeat constructor.
Qed.

(** What the engine does keep.  Say that the buildings are sound when, among
    the properties that carry no hotel, any two properties of one colour group
    owned by one player differ by at most one house, and buildings stand only
    on properties whose whole colour group is in their owner's hand.  Every
    command except sell_hotel keeps the buildings sound: build_house adds a
    house only at the minimum of the group, sell_house takes one only at its
    maximum, and build_hotel takes the property, whose house count becomes 0,
    out of the comparison.  So a game in which no agent ever answers
    sell_hotel ends its turns with even houses off hotels. *)
Theorem houses_stay_even_off_hotels tiles dice :
  (forall fuel call i e e' r,
     leavesHotelsAlone call = true ->
     executeToolCall tiles dice fuel call i e = Ok (e', r) ->
     soundBuildings e -> soundBuildings e')
  /\ (forall takeTurn players chance communityChest n maxTurns fuel e,
        (forall k g, Forall (fun call => leavesHotelsAlone call = true)
                       (takeTurn k g)) ->
        runTurns tiles dice takeTurn n maxTurns fuel
          (newGame tiles players chance communityChest) = Ok e ->
        evenHousesOffHotels e).
Proof.
  split.
  - intros fuel call i e e' r. apply executeToolCall_sound.
  - intros takeTurn players chance communityChest n maxTurns fuel e Hcalls Hrun.
    eapply proj1, (runTurns_sound tiles dice takeTurn Hcalls); [exact Hrun|].
    apply newGame_sound.
Qed.

Lemma brownBuilt_even : evenHouses Play.brownBuilt.
Proof.
  apply evenHouses_Forall. apply (bool_decide_unpack _). vm_compute. exact I.
Qed.

(** The ten scripted turns of the sample game end in the game state of
    [Play.brownBuilt]. *)
Lemma brownBuilt_reached :
  exists e, runTurns Sample.tiles Play.dice Play.takeTurn 10 10 30 Sample.start
            = Ok e
            /\ Engine.gameState e = Engine.gameState Play.brownBuilt.
Proof. eexists. split; vm_compute; reflexivity. Qed.

(** The state that the ten scripted turns reach has sound buildings. *)
Lemma brownBuilt_sound : soundBuildings Play.brownBuilt.
Proof.
  destruct brownBuilt_reached as (e & Hrun & Hg).
  unfold soundBuildings, Engine.properties. rewrite <- Hg.
  eapply (runTurns_sound Sample.tiles Play.dice Play.takeTurn
            playedWithoutHotelSale); [exact Hrun|].
  apply newGame_sound.
Qed.

(** The ten scripted turns, in which eight houses are built, end with even
    houses off hotels; and in the state they reach, build_hotel on
    Mediterranean Avenue keeps the buildings sound. *)
Lemma houses_stay_even_off_hotels_witness :
  (exists e,
     runTurns Sample.tiles Play.dice Play.takeTurn 10 10 30 Sample.start = Ok e
     /\ evenHousesOffHotels e)
  /\ executeToolCall Sample.tiles Play.dice 0 (build_hotel (Some 1)) 0
       Play.brownBuilt
     = Ok (Play.brownHotel, Result.ok)
  /\ soundBuildings Play.brownHotel.
Proof.
  split.
  - eexists. split; [vm_compute; reflexivity|].
    eapply (proj2 (houses_stay_even_off_hotels Sample.tiles Play.dice)
              Play.takeTurn Sample.players Sample.chance Sample.communityChest
              10%nat 10 30%nat).
    + exact playedWithoutHotelSale.
    + vm_compute. reflexivity.
  - split; [vm_compute; reflexivity|].
    eapply (proj1 (houses_stay_even_off_hotels Sample.tiles Play.dice) 0%nat
              (build_hotel (Some 1)) 0%nat Play.brownBuilt Play.brownHotel
              Result.ok eq_refl); [|exact brownBuilt_sound].
    vm_compute. reflexivity.
Defined.

(** C2, on the code.  The ten scripted turns of the sample game leave [p1]
    with four houses on each of the two Brown properties.  From there
    build_hotel on Mediterranean Avenue, sell_house on Baltic Avenue four
    times, and sell_hotel on Mediterranean Avenue are all accepted:
    [canSellEvenly] counts the property under the hotel as 0 houses, and
    neither hotel handler looks at the rest of the group.  No hotel is left on
    the board, and the two Brown properties, in one hand, carry 4 houses and
    none. *)
Theorem hotel_trip_leaves_uneven_houses :
  exists e0 e1 e2 e3 e4 e5 e6 k l p q,
    runTurns Sample.tiles Play.dice Play.takeTurn 10 10 30 Sample.start
    = Ok e0
    /\ evenHouses e0
    /\ executeToolCall Sample.tiles Play.dice 0 (build_hotel (Some 1)) 0 e0
       = Ok (e1, Result.ok)
    /\ executeToolCall Sample.tiles Play.dice 0 (sell_house (Some 3)) 0 e1
       = Ok (e2, Result.ok)
    /\ executeToolCall Sample.tiles Play.dice 0 (sell_house (Some 3)) 0 e2
       = Ok (e3, Result.ok)
    /\ executeToolCall Sample.tiles Play.dice 0 (sell_house (Some 3)) 0 e3
       = Ok (e4, Result.ok)
    /\ executeToolCall Sample.tiles Play.dice 0 (sell_house (Some 3)) 0 e4
       = Ok (e5, Result.ok)
    /\ executeToolCall Sample.tiles Play.dice 0 (sell_hotel (Some 1)) 0 e5
       = Ok (e6, Result.ok)
    /\ Forall (fun p => Property.hotels p = 0) (Engine.properties e6)
    /\ Engine.findProperty e6 (Some 1) = Some (k, p)
    /\ Engine.findProperty e6 (Some 3) = Some (l, q)
    /\ sameOwnedGroup p q
    /\ Property.houses p = 4
    /\ Property.houses q = 0
    /\ ~ evenHouses e6.
Proof.
  do 11 eexists.
  split; [vm_compute; reflexivity|].
  split.
  { apply evenHouses_Forall. apply (bool_decide_unpack _). vm_compute.
    exact I. }
  do 6 (split; [vm_compute; reflexivity|]).
  split; [apply (bool_decide_unpack _); vm_compute; exact I|].
  split; [vm_compute; reflexivity|].
  split; [vm_compute; reflexivity|].
  split; [apply (bool_decide_unpack _); vm_compute; exact I|].
  split; [reflexivity|]. split; [reflexivity|].
  rewrite <- evenHouses_Forall. intros H.
  apply (bool_decide_pack _) in H. vm_compute in H. exact H.
Qed.

(** ** C3: the roll gate *)

(** [handleRollDice] rejects a roll exactly when [canRollDice] says no. *)
Lemma roll_rejected tiles dice fuel i e agent player :
  getCurrentAgent e = Ok agent ->
  Engine.players e !! i = Some player ->
  Agent.canRollDice agent = false ->
  handleRollDice tiles dice fuel i e = Ok (e, Result.failure AlreadyRolled).
Proof.
  intros Ha Hp Hcan. unfold handleRollDice, Engine.player.
  rewrite Ha. simpl. rewrite Hcan, Hp. reflexivity.
Qed.

Lemma roll_accepted tiles dice fuel i e e' r agent :
  getCurrentAgent e = Ok agent ->
  Agent.canRollDice agent = true ->
  handleRollDice tiles dice fuel i e = Ok (e', r) ->
  Result.success r = true.
Proof.
  intros Ha Hcan. unfold handleRollDice. rewrite Ha. simpl. rewrite Hcan.
  simpl. unfold moveAndLand, landAfterRoll, mbind, res_bind.
  intros Hrun. repeat step_handler; reflexivity.
Qed.

(** The gate stays open once a double was thrown, whatever was thrown next. *)
Lemma canRollDice_after_double_then_plain a :
  Agent.canRollDice
    (Agent.markRollResult false
       (Agent.markRollResult true (Agent.resetForNewTurn a))) = true.
Proof. reflexivity. Qed.

(** C3, on the code.  In one turn of the sample game [p1] throws a double
    (3, 3), then a plain roll (1, 3): a third roll_dice is accepted, the dice
    (1, 2) are thrown and the token moves on to position 13. *)
Theorem third_roll_after_plain_roll_accepted :
  exists e1 e2 e3 p1,
    executeToolCall Sample.tiles Play.doubleThenPlain 30 roll_dice 0
      (beginTurn Sample.start) = Ok (e1, Result.ok)
    /\ executeToolCall Sample.tiles Play.doubleThenPlain 30 roll_dice 0 e1
       = Ok (e2, Result.ok)
    /\ Engine.currentDiceRoll e2 = Some (Roll.make (1, 3))
    /\ executeToolCall Sample.tiles Play.doubleThenPlain 30 roll_dice 0 e2
       = Ok (e3, Result.ok)
    /\ Engine.currentDiceRoll e3 = Some (Roll.make (1, 2))
    /\ Engine.players e3 !! 0%nat = Some p1
    /\ Player.position p1 = 13.
Proof.
  do 4 eexists.
  split; [vm_compute; reflexivity|].
  split; [vm_compute; reflexivity|].
  split; [vm_compute; reflexivity|].
  split; [vm_compute; reflexivity|].
  split; [vm_compute; reflexivity|].
  split; vm_compute; reflexivity.
Qed.

(** ** C4: movement *)

Lemma tileAt_board tiles pos :
  length tiles = 40%nat -> 0 <= pos < 40 -> is_Some (tileAt tiles pos).
Proof.
  intros Hlen Hpos. unfold tileAt.
  destruct (pos <? 0) eqn:E; [lia|].
  apply lookup_lt_is_Some. lia.
Qed.













(** ** C5: the third turn in jail *)

Lemma handleBankruptcy_bank e i debtor :
  Engine.players e !! i = Some debtor ->
  handleBankruptcy i None e
  = Ok (Engine.updPlayer i
          (fun p => Player.set_jailFreeCards 0
                      (Player.set_properties [] (Player.set_money 0 p)))
          (Engine.setProperties
             (forOwned (Player.id debtor) surrender (Engine.properties e))
             (Engine.updPlayer i (Player.set_bankrupt true)
                (Engine.log "BANKRUPTCY" e)))).
Proof.
  intros Hp. unfold handleBankruptcy.
  rewrite (player_lookup _ _ _ Hp). reflexivity.
Qed.

Lemma playTurn_in_jail tiles dice takeTurn fuel e agent player :
  Engine.players e !! GameState.currentPlayerIndex (Engine.gameState e)
  = Some player ->
  getCurrentAgent e = Ok agent ->
  Player.inJail player = true ->
  playTurn tiles dice takeTurn fuel e
  = (let i := GameState.currentPlayerIndex (Engine.gameState e) in
     e1 ← handleJail tiles dice fuel i (beginTurn e);
     player ← Engine.player e1 i;
     if Player.inJail player || Player.bankrupt player then nextPlayer e1
     else e2 ← decisionLoop tiles dice takeTurn fuel fuel i 0 e1;
          nextPlayer e2).
Proof.
  intros Hp Ha Hjail. unfold playTurn. cbv zeta.
  rewrite (player_lookup _ _ _ Hp), Ha. cbn [mbind res_bind].
  rewrite Hjail. reflexivity.
Qed.

(** The jail handling of a third turn in jail: no dice, the fine or the
    bankruptcy. *)
Lemma handleJail_third tiles dice fuel i e player :
  Engine.players e !! i = Some player ->
  3 <= Player.jailTurns player + 1 ->
  handleJail tiles dice fuel i e
  = let e1 := Engine.updPlayer i
                (fun p => Player.set_jailTurns (Player.jailTurns p + 1) p) e in
    if 50 <=? Player.money player then
      Ok (Engine.log "PAY_JAIL_FINE"
            (Engine.updPlayer i
               (fun p => leaveJail (Player.add_money (-50) p)) e1))
    else handleBankruptcy i None e1.
Proof.
  intros Hp Hthird. unfold handleJail.
  rewrite (player_lookup _ _ _ Hp). cbn [mbind res_bind].
  replace (3 <=? Player.jailTurns player + 1) with true by (symmetry; lia).
  reflexivity.
Qed.

(** C5, as amended.  When the player to move is in jail, solvent, and the jail
    turn that starts is the third or a later one, the jail handling throws no
    dice and asks for no decision.  With at least $50 the player pays exactly
    $50 and is released (inJail false, jailTurns 0), and the turn goes on
    with the decision loop before the hand-over to the next player.  With
    less than $50 the bankruptcy against the bank is settled (bankrupt,
    money 0; the in-jail flag stays set) and the turn is handed over at once,
    without a decision being requested. *)
Theorem third_jail_turn tiles dice takeTurn fuel e agent player :
  let i := GameState.currentPlayerIndex (Engine.gameState e) in
  Engine.players e !! i = Some player ->
  getCurrentAgent e = Ok agent ->
  Player.inJail player = true ->
  Player.bankrupt player = false ->
  3 <= Player.jailTurns player + 1 ->
  exists e1,
    handleJail tiles dice fuel i (beginTurn e) = Ok e1
    /\ Engine.rolls e1 = Engine.rolls e
    /\ Engine.interactions e1 = Engine.interactions e
    /\ (50 <= Player.money player ->
        Engine.players e1
        = <[i := leaveJail (Player.add_money (-50) player)]> (Engine.players e)
        /\ playTurn tiles dice takeTurn fuel e
           = (e2 ← decisionLoop tiles dice takeTurn fuel fuel i 0 e1;
              nextPlayer e2))
    /\ (Player.money player < 50 ->
        Engine.players e1
        = <[i := ruined (Player.set_jailTurns (Player.jailTurns player + 1)
                           player)]> (Engine.players e)
        /\ playTurn tiles dice takeTurn fuel e = nextPlayer e1).
Proof.
  intros i Hp Ha Hjail Hsolvent Hthird.
  assert (Hp' : Engine.players (beginTurn e) !! i = Some player) by exact Hp.
  rewrite (playTurn_in_jail _ _ _ _ _ _ _ Hp Ha Hjail). fold i. cbv zeta.
  pose proof (handleJail_third tiles dice fuel i _ _ Hp' Hthird) as Hj.
  cbv zeta in Hj.
  assert (Hlt : (i < length (Engine.players e))%nat)
    by (by eapply lookup_lt_Some).
  destruct (50 <=? Player.money player) eqn:Hmoney.
  - match type of Hj with _ = Ok ?x => set (e1 := x) in * end.
    assert (Hplayers :
      Engine.players e1
      = <[i := leaveJail (Player.add_money (-50) player)]> (Engine.players e)).
    { change (alter (fun p => leaveJail (Player.add_money (-50) p)) i
                (alter (fun p => Player.set_jailTurns
                                   (Player.jailTurns p + 1) p) i
                   (Engine.players e))
              = <[i := leaveJail (Player.add_money (-50) player)]>
                  (Engine.players e)).
      rewrite list_alter_alter_eq. by rewrite (alter_insert _ _ _ _ Hp). }
    exists e1. split; [exact Hj|]. split; [reflexivity|].
    split; [reflexivity|]. split; [|lia]. intros _.
    split; [exact Hplayers|].
    rewrite Hj, bind_Ok. erewrite (player_lookup e1 i).
    2:{ rewrite Hplayers. by apply list_lookup_insert_eq. }
    rewrite bind_Ok.
    cbn [Player.inJail Player.bankrupt leaveJail
         Player.add_money Player.set_jailTurns Player.set_inJail
         Player.set_money].
    rewrite Hsolvent. reflexivity.
  - erewrite handleBankruptcy_bank in Hj.
    2:{ rewrite players_updPlayer, list_lookup_alter_eq, Hp'. reflexivity. }
    match type of Hj with _ = Ok ?x => set (e1 := x) in * end.
    assert (Hplayers :
      Engine.players e1
      = <[i := ruined (Player.set_jailTurns (Player.jailTurns player + 1)
                         player)]> (Engine.players e)).
    { change (alter (fun p => Player.set_jailFreeCards 0
                        (Player.set_properties [] (Player.set_money 0 p))) i
                (alter (Player.set_bankrupt true) i
                   (alter (fun p => Player.set_jailTurns
                                      (Player.jailTurns p + 1) p) i
                      (Engine.players e)))
              = <[i := ruined (Player.set_jailTurns
                                 (Player.jailTurns player + 1) player)]>
                  (Engine.players e)).
      rewrite !list_alter_alter_eq. by rewrite (alter_insert _ _ _ _ Hp). }
    exists e1. split; [exact Hj|]. split; [reflexivity|].
    split; [reflexivity|]. split; [lia|]. intros _.
    split; [exact Hplayers|].
    rewrite Hj, bind_Ok. erewrite (player_lookup e1 i).
    2:{ rewrite Hplayers. by apply list_lookup_insert_eq. }
    rewrite bind_Ok.
    cbn [Player.inJail ruined Player.set_jailFreeCards Player.set_properties
         Player.set_money Player.set_bankrupt Player.set_jailTurns].
    rewrite Hjail. reflexivity.
Qed.

(** [p1], in jail for the third turn with $1500, pays $50 and plays on. *)
Lemma third_jail_turn_witness :
  let e := Play.thirdJailTurn in
  exists e1,
    handleJail Sample.tiles Play.dice 30 0 (beginTurn e) = Ok e1
    /\ Engine.rolls e1 = 0%nat
    /\ Engine.players e1
       = <[0%nat := leaveJail
                      (Player.set_money 1450
                         (Player.set_jailTurns 2
                            (Player.set_inJail true
                               (Player.set_position 10
                                  (newPlayer "p1" "GPT OSS 120B")))))]>
           (Engine.players e)
    /\ playTurn Sample.tiles Play.dice Play.rollOnce 30 e
       = (e2 ← decisionLoop Sample.tiles Play.dice Play.rollOnce 30 30 0 0 e1;
          nextPlayer e2).
Proof.
  intros e.
  destruct (third_jail_turn Sample.tiles Play.dice Play.rollOnce 30 e newAgent
              (Player.set_jailTurns 2
                 (Player.set_inJail true
                    (Player.set_position 10 (newPlayer "p1" "GPT OSS 120B")))))
    as (e1 & Hjail & Hrolls & _ & Hpaid & _).
  - reflexivity.
  - reflexivity.
  - reflexivity.
  - reflexivity.
  - simpl. lia.
  - destruct Hpaid as [Hplayers Hturn]; [simpl; lia|].
    exists e1. split; [exact Hjail|]. split; [exact Hrolls|].
    split; [exact Hplayers|exact Hturn].
Defined.

(** C5, as stated, fails: [p1] starts the turn in jail with two jail turns
    behind it and $1500.  The fine is paid, and then the decision provider is
    asked, the dice (1, 2) are thrown and the token moves from 10 to 13: the
    turn is not the jail handling followed by the hand-over. *)
Lemma fined_player_keeps_the_turn :
  (exists e' p1,
     playTurn Sample.tiles Play.dice Play.rollOnce 30 Play.thirdJailTurn
     = Ok e'
     /\ Engine.interactions e' = 1%nat
     /\ Engine.rolls e' = 1%nat
     /\ Engine.players e' !! 0%nat = Some p1
     /\ Player.position p1 = 13
     /\ Player.money p1 = 1450)
  /\ ~ jailTurnEndsEarly Sample.tiles Play.dice Play.rollOnce 30
         Play.thirdJailTurn.
Proof.
  split.
  - do 2 eexists.
    split; [vm_compute; reflexivity|].
    split; [reflexivity|]. split; [reflexivity|].
    split; [reflexivity|]. split; reflexivity.
  - unfold jailTurnEndsEarly. intros H. vm_compute in H. discriminate H.
Qed.

(** ** C6: the sale of a hotel *)

(** What the two hotel handlers do.  build_hotel charges one house-cost unit.
    sell_hotel, on a property that the acting player owns and that carries a
    hotel, credits the seller floor (5 * houseCost / 2), half of five
    house-cost units, sets the property's hotels to 0 and its houses to 4,
    returns the hotel to the bank's inventory and takes 4 houses out of the
    bank's house inventory, whatever that inventory holds. *)
Theorem hotel_sold_for_half_of_five_houses e i loc k property player :
  Engine.findProperty e loc = Some (k, property) ->
  Engine.players e !! i = Some player ->
  let houseCost := getHouseCost (Property.tile property) in
  (forall e' r,
     handleBuildHotel i loc e = Ok (e', r) -> Result.success r = true ->
     Engine.players e'
     = <[i := Player.add_money (- houseCost) player]> (Engine.players e))
  /\ (Property.owner property = Some (Player.id player) ->
      Property.hotels property <> 0 ->
      exists e',
        handleSellHotel i loc e = Ok (e', Result.ok)
        /\ Engine.players e'
           = <[i := Player.add_money (houseCost * 5 / 2) player]>
               (Engine.players e)
        /\ Engine.properties e'
           = <[k := Property.set_houses 4 (Property.set_hotels 0 property)]>
               (Engine.properties e)
        /\ GameState.hotels (Engine.gameState e')
           = GameState.hotels (Engine.gameState e) + 1
        /\ GameState.houses (Engine.gameState e')
           = GameState.houses (Engine.gameState e) - 4).
Proof.
  intros Hfind Hp houseCost. split.
  - intros e' r Hrun Hok. unfold handleBuildHotel in Hrun.
    rewrite Hfind, (player_lookup _ _ _ Hp), bind_Ok in Hrun.
    repeat step_handler; try discriminate Hok.
    change (alter (Player.add_money (- houseCost)) i (Engine.players e)
            = <[i := Player.add_money (- houseCost) player]> (Engine.players e)).
    by apply alter_insert.
  - intros Hown Hhotel. unfold handleSellHotel.
    rewrite Hfind, (player_lookup _ _ _ Hp), bind_Ok.
    rewrite (ownedBy_owner _ _ Hown). cbn [negb].
    replace (Property.hotels property =? 0) with false by (symmetry; lia).
    eexists. split; [reflexivity|]. split; [|split; [|split]].
    + change (alter (Player.add_money (houseCost * 5 / 2)) i (Engine.players e)
              = <[i := Player.add_money (houseCost * 5 / 2) player]>
                  (Engine.players e)).
      by apply alter_insert.
    + change (alter (fun p => Property.set_houses 4 (Property.set_hotels 0 p))
                k (Engine.properties e)
              = <[k := Property.set_houses 4 (Property.set_hotels 0 property)]>
                  (Engine.properties e)).
      apply (alter_insert
               (fun p => Property.set_houses 4 (Property.set_hotels 0 p))).
      by eapply findProperty_lookup.
    + reflexivity.
    + cbn. lia.
Qed.

(** The hotel of Mediterranean Avenue (house cost $50) is sold for $125. *)
Lemma hotel_sold_for_half_of_five_houses_witness :
  exists e' seller,
    handleSellHotel 0 (Some 1) Play.brownHotel = Ok (e', Result.ok)
    /\ Engine.players e' !! 0%nat = Some seller
    /\ Player.money seller = 1130 + 50 * 5 / 2
    /\ GameState.hotels (Engine.gameState e') = 12
    /\ GameState.houses (Engine.gameState e') = 24.
Proof.
  edestruct (hotel_sold_for_half_of_five_houses Play.brownHotel 0 (Some 1))
    as [_ Hsell].
  - vm_compute. reflexivity.
  - vm_compute. reflexivity.
  - destruct Hsell as (e' & Hrun & Hplayers & _ & Hhotels & Hhouses).
    + reflexivity.
    + discriminate.
    + exists e'. eexists. split; [exact Hrun|]. rewrite Hplayers.
      split; [reflexivity|]. split; [reflexivity|].
      split; [exact Hhotels|exact Hhouses].
Defined.

(** C6, on the code.  The ten scripted turns of the sample game leave [p1]
    with four houses on each Brown property; the house cost of Mediterranean
    Avenue is $50.  sell_house there pays $25, half of the $50 that build_house
    charges.  build_hotel charges $50 as well, but sell_hotel pays $125, half
    of five house costs and not half of the $50 charged: building a hotel and
    selling it leaves the player $75 richer, with the four houses back on the
    property. *)
Theorem sell_hotel_pays_more_than_half_the_charge :
  exists e0 e1 e2 e3 p0 p1 p2 p3 k property,
    runTurns Sample.tiles Play.dice Play.takeTurn 10 10 30 Sample.start
    = Ok e0
    /\ Engine.players e0 !! 0%nat = Some p0
    /\ Engine.findProperty e0 (Some 1) = Some (k, property)
    /\ getHouseCost (Property.tile property) = 50
    /\ executeToolCall Sample.tiles Play.dice 0 (build_hotel (Some 1)) 0 e0
       = Ok (e1, Result.ok)
    /\ Engine.players e1 !! 0%nat = Some p1
    /\ executeToolCall Sample.tiles Play.dice 0 (sell_hotel (Some 1)) 0 e1
       = Ok (e2, Result.ok)
    /\ Engine.players e2 !! 0%nat = Some p2
    /\ Engine.properties e2 = Engine.properties e0
    /\ Player.money p0 - Player.money p1 = 50
    /\ Player.money p2 - Player.money p1 = 125
    /\ Player.money p2 - Player.money p1
       <> (Player.money p0 - Player.money p1) / 2
    /\ Player.money p2 = Player.money p0 + 75
    /\ executeToolCall Sample.tiles Play.dice 0 (sell_house (Some 1)) 0 e0
       = Ok (e3, Result.ok)
    /\ Engine.players e3 !! 0%nat = Some p3
    /\ Player.money p3 - Player.money p0 = 50 / 2.
Proof.
  do 10 eexists.
  do 11 (split; [vm_compute; reflexivity|]).
  split; [vm_compute; discriminate|].
  do 3 (split; [vm_compute; reflexivity|]).
  vm_compute. reflexivity.
Qed.

(** ** C7 and C8: bankruptcy settlement *)

(** The settlement with a player as creditor, step by step. *)
Lemma handleBankruptcy_creditor e i c debtor creditor :
  Engine.players e !! i = Some debtor ->
  Engine.players e !! c = Some creditor ->
  i <> c ->
  handleBankruptcy i (Some c) e
  = Ok (Engine.updPlayer i
          (fun p => Player.set_jailFreeCards 0
                      (Player.set_properties [] (Player.set_money 0 p)))
          (Engine.updPlayer c
             (fun q => Player.set_jailFreeCards
                         (Player.jailFreeCards q
                          + Player.jailFreeCards debtor) q)
             (Engine.updPlayer c
                (fun q => Player.set_properties
                            (Player.properties q
                             ++ (Property.location
                                 <$> filter (fun p => Property.owner p
                                                      = Some (Player.id debtor))
                                       (Engine.properties e))) q)
                (Engine.setProperties
                   (forOwned (Player.id debtor)
                      (Property.set_owner (Some (Player.id creditor)))
                      (Engine.properties e))
                   (Engine.updPlayer c (Player.add_money (Player.money debtor))
                      (Engine.updPlayer i (Player.set_bankrupt true)
                         (Engine.log "BANKRUPTCY" e))))))).
Proof.
  intros Hi Hc Hne. unfold handleBankruptcy.
  rewrite (player_lookup _ _ _ Hi), bind_Ok.
  assert (Hc1 : Engine.players
                  (Engine.updPlayer i (Player.set_bankrupt true)
                     (Engine.log "BANKRUPTCY" e)) !! c = Some creditor).
  { rewrite players_updPlayer, list_lookup_alter_ne by done. exact Hc. }
  assert (Hi1 : Engine.players
                  (Engine.updPlayer i (Player.set_bankrupt true)
                     (Engine.log "BANKRUPTCY" e)) !! i
                = Some (Player.set_bankrupt true debtor)).
  { rewrite players_updPlayer, list_lookup_alter_eq.
    change (Engine.players (Engine.log "BANKRUPTCY" e)) with (Engine.players e).
    by rewrite Hi. }
  rewrite (player_lookup _ _ _ Hc1), bind_Ok.
  rewrite (player_lookup _ _ _ Hi1), bind_Ok.
  erewrite (player_lookup _ i).
  2:{ rewrite lookup_updPlayer_ne, players_setProperties,
        lookup_updPlayer_ne by done. exact Hi1. }
  reflexivity.
Qed.

(** C7.  Bankruptcy settlement with another player as creditor marks the
    debtor bankrupt and leaves it with money 0, no property and no jail token;
    the creditor receives the debtor's money, the locations of the properties
    the debtor owned, in table order, and the debtor's jail tokens; every
    property that the debtor owned is owned by the creditor, no property is
    owned by the debtor, and the other players are untouched. *)
Theorem bankruptcy_transfers_to_creditor e i c debtor creditor :
  Engine.players e !! i = Some debtor ->
  Engine.players e !! c = Some creditor ->
  Player.id debtor <> Player.id creditor ->
  let owned := filter (fun p => Property.owner p = Some (Player.id debtor))
                 (Engine.properties e) in
  exists e',
    handleBankruptcy i (Some c) e = Ok e'
    /\ Engine.players e' !! i = Some (ruined debtor)
    /\ Engine.players e' !! c
       = Some (Player.set_jailFreeCards
                 (Player.jailFreeCards creditor + Player.jailFreeCards debtor)
                 (Player.set_properties
                    (Player.properties creditor ++ (Property.location <$> owned))
                    (Player.add_money (Player.money debtor) creditor)))
    /\ (forall j, j <> i -> j <> c ->
          Engine.players e' !! j = Engine.players e !! j)
    /\ (forall k p, Engine.properties e !! k = Some p ->
          Engine.properties e' !! k
          = Some (if ownedBy (Player.id debtor) p
                  then Property.set_owner (Some (Player.id creditor)) p
                  else p))
    /\ (forall p, p ∈ Engine.properties e' ->
          Property.owner p <> Some (Player.id debtor)).
Proof.
  intros Hi Hc Hid owned.
  assert (Hne : i <> c) by (intros ->; rewrite Hi in Hc; congruence).
  rewrite (handleBankruptcy_creditor _ _ _ _ _ Hi Hc Hne).
  eexists. split; [reflexivity|].
  split; [|split; [|split; [|split]]].
  - rewrite lookup_updPlayer_eq, !lookup_updPlayer_ne, players_setProperties,
      lookup_updPlayer_ne, lookup_updPlayer_eq by done.
    change (Engine.players (Engine.log "BANKRUPTCY" e)) with (Engine.players e).
    rewrite Hi. reflexivity.
  - rewrite lookup_updPlayer_ne, !lookup_updPlayer_eq, players_setProperties,
      lookup_updPlayer_eq, lookup_updPlayer_ne by done.
    change (Engine.players (Engine.log "BANKRUPTCY" e)) with (Engine.players e).
    rewrite Hc. reflexivity.
  - intros j Hji Hjc.
    rewrite !lookup_updPlayer_ne, players_setProperties,
      !lookup_updPlayer_ne by done.
    reflexivity.
  - intros k p Hk.
    change (forOwned (Player.id debtor)
              (Property.set_owner (Some (Player.id creditor)))
              (Engine.properties e) !! k
            = Some (if ownedBy (Player.id debtor) p
                    then Property.set_owner (Some (Player.id creditor)) p
                    else p)).
    by apply forOwned_lookup.
  - intros p Hp.
    change (p ∈ forOwned (Player.id debtor)
                  (Property.set_owner (Some (Player.id creditor)))
                  (Engine.properties e)) in Hp.
    unfold forOwned in Hp. apply list_elem_of_fmap in Hp as (q & -> & _).
    destruct (ownedBy (Player.id debtor) q) eqn:Hq.
    + simpl. congruence.
    + unfold ownedBy in Hq. by apply bool_decide_eq_false in Hq.
Qed.

(** [p1] of the built-up sample game goes bankrupt towards [p2]. *)
Lemma bankruptcy_transfers_to_creditor_witness :
  exists e' debtor creditor,
    handleBankruptcy 0 (Some 1%nat) Play.brownBuilt = Ok e'
    /\ Engine.players e' !! 0%nat = Some debtor
    /\ Player.bankrupt debtor = true /\ Player.money debtor = 0
    /\ Player.properties debtor = [] /\ Player.jailFreeCards debtor = 0
    /\ Engine.players e' !! 1%nat = Some creditor
    /\ Player.money creditor = 1500 + 1180
    /\ Player.properties creditor = [1; 3].
Proof.
  edestruct (bankruptcy_transfers_to_creditor Play.brownBuilt 0 1)
    as (e' & Hrun & Hdebtor & Hcreditor & _).
  - reflexivity.
  - reflexivity.
  - discriminate.
  - exists e'. do 2 eexists. split; [exact Hrun|].
    split; [exact Hdebtor|]. do 4 (split; [reflexivity|]).
    split; [exact Hcreditor|]. split; reflexivity.
Defined.

(** C8.  Bankruptcy settlement with the bank as creditor resets every
    property the debtor owned to unowned, unmortgaged, with 0 houses and 0
    hotels, and leaves the other properties, the bank's house and hotel
    counters and the other players as they were. *)
Theorem bankruptcy_to_bank_clears_properties e i debtor :
  Engine.players e !! i = Some debtor ->
  exists e',
    handleBankruptcy i None e = Ok e'
    /\ length (Engine.properties e') = length (Engine.properties e)
    /\ (forall k p, Engine.properties e !! k = Some p ->
          Property.owner p = Some (Player.id debtor) ->
          Engine.properties e' !! k
          = Some {| Property.tile := Property.tile p;
                    Property.owner := None; Property.houses := 0;
                    Property.hotels := 0; Property.mortgaged := false |})
    /\ (forall k p, Engine.properties e !! k = Some p ->
          Property.owner p <> Some (Player.id debtor) ->
          Engine.properties e' !! k = Some p)
    /\ GameState.houses (Engine.gameState e')
       = GameState.houses (Engine.gameState e)
    /\ GameState.hotels (Engine.gameState e')
       = GameState.hotels (Engine.gameState e)
    /\ Engine.players e' !! i = Some (ruined debtor)
    /\ (forall j, j <> i -> Engine.players e' !! j = Engine.players e !! j).
Proof.
  intros Hi. rewrite (handleBankruptcy_bank _ _ _ Hi).
  eexists. split; [reflexivity|].
  split; [|split; [|split; [|split; [|split; [|split]]]]].
  - change (length (forOwned (Player.id debtor) surrender (Engine.properties e))
            = length (Engine.properties e)).
    apply forOwned_length.
  - intros k p Hk Hown.
    change (forOwned (Player.id debtor) surrender (Engine.properties e) !! k
            = Some {| Property.tile := Property.tile p;
                      Property.owner := None; Property.houses := 0;
                      Property.hotels := 0; Property.mortgaged := false |}).
    rewrite (forOwned_lookup _ _ _ _ _ Hk), (ownedBy_owner _ _ Hown).
    reflexivity.
  - intros k p Hk Hown.
    change (forOwned (Player.id debtor) surrender (Engine.properties e) !! k
            = Some p).
    rewrite (forOwned_lookup _ _ _ _ _ Hk).
    destruct (ownedBy (Player.id debtor) p) eqn:Hq; [|reflexivity].
    apply ownedBy_true in Hq. contradiction.
  - reflexivity.
  - reflexivity.
  - rewrite lookup_updPlayer_eq, players_setProperties, lookup_updPlayer_eq.
    change (Engine.players (Engine.log "BANKRUPTCY" e)) with (Engine.players e).
    rewrite Hi. reflexivity.
  - intros j Hj.
    rewrite lookup_updPlayer_ne, players_setProperties, lookup_updPlayer_ne
      by done.
    reflexivity.
Qed.

(** [p1] of the built-up sample game goes bankrupt towards the bank: the four
    houses of Mediterranean Avenue vanish and the bank still holds 24. *)
Lemma bankruptcy_to_bank_clears_properties_witness :
  exists e' mediterranean,
    handleBankruptcy 0 None Play.brownBuilt = Ok e'
    /\ Engine.properties e' !! 0%nat = Some mediterranean
    /\ Property.owner mediterranean = None
    /\ Property.houses mediterranean = 0
    /\ GameState.houses (Engine.gameState e') = 24.
Proof.
  edestruct (bankruptcy_to_bank_clears_properties Play.brownBuilt 0)
    as (e' & Hrun & _ & Hcleared & _ & Hhouses & _).
  - reflexivity.
  - exists e'. eexists. split; [exact Hrun|]. split.
    + apply Hcleared; reflexivity.
    + split; [reflexivity|]. split; [reflexivity|exact Hhouses].
Defined.

(** ** C9: the auction *)

Lemma indexed_elem {A} (l : list A) j x :
  (j, x) ∈ imap pair l <-> l !! j = Some x.
Proof.
  rewrite elem_of_lookup_imap. split.
  - intros (i & y & [= -> ->] & H). exact H.
  - intros H. eauto.
Qed.



(** Searching the indexed players that pass a filter is searching the
    players for the conjunction. *)
Lemma list_find_indexed {A} (P Q : A -> Prop) `{forall x, Decision (P x)}
  `{forall x, Decision (Q x)} (l : list A) : forall n,
  snd <$> list_find (fun jp => P jp.2)
            (filter (fun jp => Q jp.2) (imap (fun j x => ((n + j)%nat, x)) l))
  = prod_map (fun j => (n + j)%nat) id <$> list_find (fun x => Q x /\ P x) l.
Proof.
  induction l as [|a l IH]; intros n; [reflexivity|].
  rewrite imap_cons.
  rewrite (imap_ext _ (fun j x => ((S n + j)%nat, x)))
    by (intros; simpl; f_equal; lia).
  cbn [list_find]. destruct (decide (Q a)) as [Qa|nQa].
  - rewrite filter_cons_True by done. cbn [list_find].
    destruct (decide (P a)) as [Pa|nPa].
    + rewrite decide_True by done. rewrite decide_True by done.
      simpl. by rewrite Nat.add_0_r.
    + rewrite (decide_False (P:=P (n + 0, a)%nat.2)) by done.
      rewrite (decide_False (P:=Q a /\ P a)) by tauto.
      rewrite <- !option_fmap_compose. specialize (IH (S n)).
      destruct (list_find _ (filter _ _)) as [[k [j x]]|];
        destruct (list_find (fun x => Q x /\ P x) l) as [[j' x']|];
        simpl in *; try congruence.
      invert IH. f_equal. f_equal. lia.
  - rewrite filter_cons_False by done.
    rewrite (decide_False (P:=Q a /\ P a)) by tauto.
    rewrite <- !option_fmap_compose. specialize (IH (S n)).
    destruct (list_find _ (filter _ _)) as [[k [j x]]|];
      destruct (list_find (fun x => Q x /\ P x) l) as [[j' x']|];
      simpl in *; try congruence.
    invert IH. f_equal. f_equal. lia.
Qed.

(** Once a bid is held, the bidding loop keeps it. *)
Lemma auctionLoop_held bid w candidates :
  foldl (fun (best : Z * option nat) (jp : nat * Player.t) =>
           if (bid <? Player.money jp.2) && (best.1 <? bid)
           then (bid, Some jp.1) else best)
    (bid, Some w) candidates = (bid, Some w).
Proof.
  induction candidates as [|jp l IH]; [reflexivity|]. simpl.
  rewrite Z.ltb_irrefl, andb_false_r. exact IH.
Qed.

(** The bidding loop gives the lot to the first candidate whose cash exceeds
    the bid, provided the bid is above zero. *)
Lemma auctionLoop_first bid candidates :
  auctionLoop bid candidates
  = match list_find (fun jp : nat * Player.t => bid < Player.money jp.2)
            candidates with
    | Some (_, jp) => if 0 <? bid then (bid, Some jp.1) else (0, None)
    | None => (0, None)
    end.
Proof.
  unfold auctionLoop. induction candidates as [|jp l IH]; [reflexivity|].
  cbn [foldl list_find fst snd].
  destruct (decide (bid < Player.money jp.2)) as [Hw|Hw].
  - replace (bid <? Player.money jp.2) with true by (symmetry; lia).
    destruct (0 <? bid) eqn:Hbid; cbn [andb].
    + apply auctionLoop_held.
    + rewrite IH. destruct (list_find _ l) as [[? ?]|]; reflexivity.
  - replace (bid <? Player.money jp.2) with false by (symmetry; lia).
    cbn [andb]. rewrite IH.
    destruct (list_find _ l) as [[? ?]|]; reflexivity.
Qed.

Lemma auction_candidates bid (ps : list Player.t) :
  snd <$> list_find (fun jp : nat * Player.t => bid < Player.money jp.2)
            (filter (fun jp => Player.bankrupt jp.2 = false) (imap pair ps))
  = list_find (willing bid) ps.
Proof.
  pose proof (list_find_indexed (fun p => bid < Player.money p)
                (fun p => Player.bankrupt p = false) ps 0) as H.
  rewrite (imap_ext _ pair) in H by done.
  rewrite H. unfold willing.
  destruct (list_find _ ps) as [[j p]|]; reflexivity.
Qed.

(** C9.  buy_property with [confirm = false] on an unowned ownable tile
    succeeds and runs the auction.  The bid is floor (0.8 * price) for every
    candidate; a candidate is willing when it is not bankrupt and holds more
    cash than the bid.  When the bid is above zero, the first willing player
    in turn order pays exactly the bid, becomes the owner and records the
    location; when no one is willing, or the bid is zero, players and
    properties stay as they were and the property remains unowned. *)
Theorem declined_purchase_is_auctioned tiles e i player tile k property :
  Engine.players e !! i = Some player ->
  tileAt tiles (Player.position player) = Some tile ->
  Engine.findProperty e (Some (Tile.location tile)) = Some (k, property) ->
  Property.owner property = None ->
  let bid := Property.cost property * 8 / 10 in
  exists e',
    handleBuyProperty tiles i false e = Ok (e', Result.ok)
    /\ match list_find (willing bid) (Engine.players e) with
       | Some (w, winner) =>
           if decide (0 < bid) then
             Engine.players e'
             = <[w := Player.push_property (Property.location property)
                        (Player.add_money (- bid) winner)]> (Engine.players e)
             /\ Engine.properties e'
                = <[k := Property.set_owner (Some (Player.id winner)) property]>
                    (Engine.properties e)
           else Engine.players e' = Engine.players e
                /\ Engine.properties e' = Engine.properties e
       | None => Engine.players e' = Engine.players e
                 /\ Engine.properties e' = Engine.properties e
       end.
Proof.
  intros Hp Htile Hfind Hown bid.
  unfold handleBuyProperty.
  rewrite (player_lookup _ _ _ Hp), bind_Ok, Htile, Hfind, Hown.
  cbn [negb]. eexists. split; [reflexivity|].
  unfold startAuction. rewrite auctionLoop_first.
  change (Engine.players (Engine.log "AUCTION_START" e)) with (Engine.players e).
  fold bid. unfold maxBid. fold bid.
  pose proof (auction_candidates bid (Engine.players e)) as Hcand.
  destruct (list_find (willing bid) (Engine.players e)) as [[w winner]|] eqn:Hw.
  - destruct (list_find _ (filter _ _)) as [[x [w' winner']]|];
      [|discriminate Hcand].
    invert Hcand. cbn [fst snd].
    apply list_find_Some in Hw as (Hlookup & _ & _).
    destruct (decide (0 < bid)) as [Hbid|Hbid].
    + assert (Hb : (0 <? bid) = true) by lia.
      rewrite Hb. cbv beta iota. rewrite Hb, Hlookup. split.
      * change (alter (Player.push_property (Property.location property)) w
                  (alter (Player.add_money (- bid)) w (Engine.players e))
                = <[w := Player.push_property (Property.location property)
                           (Player.add_money (- bid) winner)]>
                    (Engine.players e)).
        rewrite list_alter_alter_eq. by rewrite (alter_insert _ _ _ _ Hlookup).
      * change (alter (Property.set_owner (Some (Player.id winner))) k
                  (Engine.properties e)
                = <[k := Property.set_owner (Some (Player.id winner)) property]>
                    (Engine.properties e)).
        by rewrite (alter_insert _ _ _ _ (findProperty_lookup _ _ _ _ Hfind)).
    + assert (Hb : (0 <? bid) = false) by lia.
      rewrite Hb. split; reflexivity.
  - destruct (list_find _ (filter _ _)) as [[x [w' winner']]|];
      [discriminate Hcand|]. split; reflexivity.
Qed.

(** [p1] stands on Baltic Avenue (price $60) and declines: the bid is $48 and
    [p1], first in turn order with more cash than that, wins the auction. *)
Lemma declined_purchase_is_auctioned_witness :
  let e := Engine.updPlayer 0 (Player.set_position 3) Sample.start in
  exists e' winner baltic,
    handleBuyProperty Sample.tiles 0 false e = Ok (e', Result.ok)
    /\ Engine.players e' !! 0%nat = Some winner
    /\ Player.money winner = 1500 - 48
    /\ Player.properties winner = [3]
    /\ Engine.properties e' !! 1%nat = Some baltic
    /\ Property.owner baltic = Some "p1".
Proof.
  intros e.
  edestruct (declined_purchase_is_auctioned Sample.tiles e 0)
    as (e' & Hrun & Hauction).
  - reflexivity.
  - reflexivity.
  - vm_compute. reflexivity.
  - reflexivity.
  - destruct Hauction as [Hplayers Hproperties].
    exists e'. do 2 eexists. split; [exact Hrun|].
    rewrite Hplayers, Hproperties.
    split; [reflexivity|]. split; [reflexivity|]. split; [reflexivity|].
    split; reflexivity.
Defined.

(** ** C10: collecting from all players *)





(** * Further properties of the engine *)

(** Case analysis on the test that heads [H], keeping its outcome. *)
Ltac case_test H :=
  match type of H with
  | (if ?c then _ else _) = _ => destruct c eqn:?
  end.

(** ** Setting up: [shuffle] and [generatePlayers] *)

Lemma moved_to_front {A} (l : list A) j x y :
  l !! j = Some y -> y :: <[j := x]> l ≡ₚ x :: l.
Proof.
  revert j. induction l as [|h l IH]; intros [|j] Hj; try done.
  - injection Hj as ->. apply Permutation_swap.
  - simpl. rewrite (Permutation_swap h y), (IH _ Hj). apply Permutation_swap.
Qed.

Lemma exchange_Permutation {A} (a a' : list A) i j :
  exchange i j a = Some a' -> a' ≡ₚ a.
Proof.
  unfold exchange. intros H.
  destruct (a !! i) as [x|] eqn:Hi; [|done].
  destruct (a !! j) as [y|] eqn:Hj; [|done].
  injection H as <-. revert i j Hi Hj.
  induction a as [|h a IH]; intros [|i] [|j] Hi Hj; try done; simpl in *.
  - by injection Hi as ->; injection Hj as ->.
  - injection Hi as ->. by apply moved_to_front.
  - injection Hj as ->. by apply moved_to_front.
  - by rewrite IH.
Qed.

Lemma exchange_length {A} (a a' : list A) i j :
  exchange i j a = Some a' -> length a' = length a.
Proof. intros H. by rewrite (exchange_Permutation _ _ _ _ H). Qed.

Lemma shuffleFrom_Permutation {A} draw i : forall a : list A,
  (forall k, draw k <= k)%nat -> (i < length a \/ i = 0)%nat ->
  exists a', shuffleFrom draw i a = Some a' /\ a' ≡ₚ a.
Proof.
  induction i as [|i IH]; intros a Hdraw Hi; [by exists a|].
  destruct Hi as [Hi|?]; [|done]. simpl.
  destruct (lookup_lt_is_Some_2 a (S i) Hi) as [x Hx].
  destruct (lookup_lt_is_Some_2 a (draw (S i))) as [y Hy];
    [specialize (Hdraw (S i)); lia|].
  destruct (exchange (S i) (draw (S i)) a) as [a1|] eqn:Hex; last first.
  { unfold exchange in Hex. by rewrite Hx, Hy in Hex. }
  destruct (IH a1 Hdraw) as (a' & Hrun & Hperm).
  { rewrite (exchange_length _ _ _ _ Hex). lia. }
  exists a'. split; [exact Hrun|].
  by rewrite Hperm, (exchange_Permutation _ _ _ _ Hex).
Qed.

(** [shuffle] returns a permutation of its argument: with draws in range, as
    [Math.floor (Math.random () * (i + 1))] are, no element is lost and none
    is duplicated. *)
Theorem shuffle_permutes {A} (draw : nat -> nat) (arr : list A) :
  (forall i, draw i <= i)%nat ->
  exists a, shuffle draw arr = Some a /\ a ≡ₚ arr.
Proof.
  intros Hdraw. apply shuffleFrom_Permutation; [exact Hdraw|].
  destruct arr; simpl; lia.
Qed.

Lemma shuffle_permutes_witness :
  exists a, shuffle (fun i => i / 2)%nat [1; 2; 3; 4; 5] = Some a
            /\ a ≡ₚ [1; 2; 3; 4; 5].
Proof.
  apply (shuffle_permutes (fun i => i / 2)%nat).
  intros i. apply Nat.Div0.div_le_upper_bound. lia.
Defined.

(** [generatePlayers] keeps the names in order and hands out pairwise
    distinct ids. *)
Theorem generatePlayers_ids_distinct (names : list string) :
  Player.name <$> generatePlayers names = names
  /\ NoDup (Player.id <$> generatePlayers names).
Proof.
  unfold generatePlayers. split.
  - apply list_eq. intros i.
    rewrite list_lookup_fmap, list_lookup_imap.
    by destruct (names !! i).
  - apply NoDup_alt. intros i j id.
    rewrite !list_lookup_fmap, !list_lookup_imap.
    destruct (names !! i), (names !! j); try done. simpl.
    intros [= <-] [= H]. apply (inj (String.app _)), (inj pretty) in H. lia.
Qed.

(** ** The verdict by net worth *)

Lemma richest_spec e :
  match (richest e).2 with
  | Some best =>
      exists k,
        solvent e !! k = Some best
        /\ (richest e).1 = calculateNetWorth e best
        /\ 0 < calculateNetWorth e best
        /\ (forall p, p ∈ solvent e ->
              calculateNetWorth e p <= calculateNetWorth e best)
        /\ (forall k' p, (k' < k)%nat -> solvent e !! k' = Some p ->
              calculateNetWorth e p < calculateNetWorth e best)
  | None =>
      (richest e).1 = 0
      /\ forall p, p ∈ solvent e -> calculateNetWorth e p <= 0
  end.
Proof.
  unfold richest. fold (solvent e).
  induction (solvent e) as [|x l IH] using rev_ind; simpl.
  - split; [done|]. by intros p Hp%elem_of_nil.
  - rewrite foldl_app. simpl.
    set (r := foldl _ _ l) in *.
    destruct (r.1 <? calculateNetWorth e x) eqn:Hlt; simpl.
    + apply Z.ltb_lt in Hlt. exists (length l). split_and!.
      * by rewrite lookup_app_r, Nat.sub_diag.
      * done.
      * destruct r.2 as [best|]; [destruct IH as (k & _ & ? & ? & _)|]; lia.
      * intros p [Hp| ->%list_elem_of_singleton]%elem_of_app; [|lia].
        destruct r.2 as [best|].
        -- destruct IH as (k & _ & Hw & _ & Hmax & _).
           specialize (Hmax p Hp). lia.
        -- destruct IH as [Hw Hmax]. specialize (Hmax p Hp). lia.
      * intros k' p Hk' Hp. rewrite lookup_app_l in Hp by done.
        apply list_elem_of_lookup_2 in Hp.
        destruct r.2 as [best|].
        -- destruct IH as (k & _ & Hw & _ & Hmax & _).
           specialize (Hmax p Hp). lia.
        -- destruct IH as [Hw Hmax]. specialize (Hmax p Hp). lia.
    + apply Z.ltb_ge in Hlt. destruct r.2 as [best|].
      * destruct IH as (k & Hk & Hw & Hpos & Hmax & Hfirst).
        exists k. split_and!; try done.
        -- by apply lookup_app_l_Some.
        -- intros p [Hp| ->%list_elem_of_singleton]%elem_of_app;
             [by apply Hmax|lia].
        -- intros k' p Hk' Hp. apply (Hfirst k' p Hk').
           apply lookup_lt_Some in Hk.
           by rewrite lookup_app_l in Hp by lia.
      * destruct IH as [Hw Hmax]. split; [done|].
        intros p [Hp| ->%list_elem_of_singleton]%elem_of_app;
          [by apply Hmax|lia].
Qed.

(** [determineWinnerByNetWorth] names the first solvent player whose net
    worth is positive and the largest among the solvent players, and closes
    the game; when no solvent player has a positive net worth it changes
    nothing, and the game stays open without a winner. *)
Theorem winner_by_net_worth e :
  (exists k best,
     solvent e !! k = Some best
     /\ 0 < calculateNetWorth e best
     /\ (forall p, p ∈ solvent e ->
           calculateNetWorth e p <= calculateNetWorth e best)
     /\ (forall k' p, (k' < k)%nat -> solvent e !! k' = Some p ->
           calculateNetWorth e p < calculateNetWorth e best)
     /\ Engine.gameState (determineWinnerByNetWorth e)
        = GameState.set_winner (Some (Player.name best))
            (GameState.set_gameOver true (Engine.gameState e)))
  \/ ((forall p, p ∈ solvent e -> calculateNetWorth e p <= 0)
      /\ determineWinnerByNetWorth e = e).
Proof.
  pose proof (richest_spec e) as H. unfold determineWinnerByNetWorth.
  destruct (richest e).2 as [best|].
  - left. destruct H as (k & Hk & _ & Hpos & Hmax & Hfirst).
    by exists k, best.
  - right. by destruct H.
Qed.

(** ** Handing the turn over *)

Lemma handedTo_handedTo j j' e : handedTo j (handedTo j' e) = handedTo j e.
Proof. reflexivity. Qed.

Lemma seat_handedTo e k k' :
  seat (handedTo (seat e k) e) k' = seat e (k + k').
Proof.
  unfold seat, handedTo. simpl. unfold Engine.players. simpl.
  by rewrite Nat.Div0.add_mod_idemp_l, Nat.add_assoc.
Qed.

Lemma seat_in_range e k :
  Engine.players e <> [] -> is_Some (Engine.players e !! seat e k).
Proof.
  intros Hne. apply lookup_lt_is_Some_2. unfold seat.
  apply Nat.mod_upper_bound. by destruct (Engine.players e).
Qed.

Lemma nextPlayerLoop_step fuel e :
  Engine.players e <> [] ->
  nextPlayerLoop (S fuel) e
  = (current ← Engine.player e (seat e 1);
     if Player.bankrupt current
        && negb (GameState.gameOver (Engine.gameState e))
     then nextPlayerLoop fuel (handedTo (seat e 1) e)
     else Ok (handedTo (seat e 1) e)).
Proof.
  intros Hne. cbn [nextPlayerLoop]. unfold seat, Engine.players in *.
  destruct (GameState.players (Engine.gameState e)) as [|p ps] eqn:Hps; [done|].
  reflexivity.
Qed.

Lemma nextPlayerLoop_first_solvent fuel : forall e k,
  (1 <= k <= fuel)%nat ->
  Engine.players e <> [] ->
  GameState.gameOver (Engine.gameState e) = false ->
  solventAt e (seat e k) ->
  exists k0,
    (1 <= k0 <= k)%nat
    /\ nextPlayerLoop fuel e = Ok (handedTo (seat e k0) e)
    /\ solventAt e (seat e k0)
    /\ forall k', (1 <= k' < k0)%nat -> bankruptAt e (seat e k').
Proof.
  induction fuel as [|fuel IH]; intros e k Hk Hne Hopen Hsolvent; [lia|].
  rewrite nextPlayerLoop_step by done.
  destruct (seat_in_range e 1 Hne) as [current Hcurrent].
  unfold Engine.player. rewrite Hcurrent, Hopen. cbn [defined].
  rewrite bind_Ok.
  destruct (Player.bankrupt current) eqn:Hb; cbn [andb negb].
  - destruct (decide (k = 1%nat)) as [->|Hk1].
    { destruct Hsolvent as (p & Hp & Hpb). congruence. }
    destruct (IH (handedTo (seat e 1) e) (k - 1)%nat)
      as (k0 & Hk0 & Hrun & Hs & Hskip); [lia|done|done| |].
    { rewrite seat_handedTo. by replace (1 + (k - 1))%nat with k by lia. }
    rewrite seat_handedTo in Hrun, Hs.
    exists (1 + k0)%nat. split_and!; [lia|lia|by rewrite Hrun|done|].
    intros k' Hk'. destruct (decide (k' = 1%nat)) as [->|Hk'1].
    + by exists current.
    + specialize (Hskip (k' - 1)%nat). rewrite seat_handedTo in Hskip.
      replace (1 + (k' - 1))%nat with k' in Hskip by lia. apply Hskip. lia.
  - exists 1%nat. split_and!; [lia|lia|done|by exists current|lia].
Qed.

(** [nextPlayer] hands the turn to the first solvent player after the current
    one, round the table, and changes nothing else; the players in between
    are bankrupt. *)
Theorem nextPlayer_first_solvent e :
  GameState.gameOver (Engine.gameState e) = false ->
  (GameState.currentPlayerIndex (Engine.gameState e)
   < length (Engine.players e))%nat ->
  solvent e <> [] ->
  exists k,
    (1 <= k <= length (Engine.players e))%nat
    /\ nextPlayer e = Ok (handedTo (seat e k) e)
    /\ solventAt e (seat e k)
    /\ forall k', (1 <= k' < k)%nat -> bankruptAt e (seat e k').
Proof.
  intros Hopen Hcur Hsome. unfold nextPlayer.
  set (cur := GameState.currentPlayerIndex (Engine.gameState e)) in *.
  set (len := length (Engine.players e)) in *.
  destruct (solvent e) as [|p l] eqn:Hsolv; [done|].
  assert (Hp : p ∈ solvent e) by (rewrite Hsolv; left).
  apply list_elem_of_filter in Hp as [Hpb [j Hj]%list_elem_of_lookup_1].
  pose proof (lookup_lt_Some _ _ _ Hj) as Hjlt. fold len in Hjlt.
  set (k := if decide (cur < j)%nat then (j - cur)%nat
            else (j + len - cur)%nat).
  assert (Hseat : seat e k = j).
  { unfold seat, k. fold cur len. destruct (decide (cur < j)%nat).
    - replace (cur + (j - cur))%nat with j by lia. by apply Nat.mod_small.
    - replace (cur + (j + len - cur))%nat with (j + 1 * len)%nat by lia.
      rewrite Nat.Div0.mod_add. by apply Nat.mod_small. }
  destruct (nextPlayerLoop_first_solvent (S len) e k) as (k0 & Hk0 & Hrun & Hs & Hskip).
  - unfold k. destruct (decide _); lia.
  - intros Hnil. by rewrite Hnil in Hj.
  - exact Hopen.
  - rewrite Hseat. by exists p.
  - exists k0. split_and!; try done; [lia|].
    unfold k in Hk0. destruct (decide _); lia.
Qed.

Lemma nextPlayerLoop_all_bankrupt fuel : forall e,
  Engine.players e <> [] ->
  GameState.gameOver (Engine.gameState e) = false ->
  Forall (fun p => Player.bankrupt p = true) (Engine.players e) ->
  nextPlayerLoop fuel e = Raise Diverges.
Proof.
  induction fuel as [|fuel IH]; intros e Hne Hopen Hall; [reflexivity|].
  rewrite nextPlayerLoop_step by done.
  destruct (seat_in_range e 1 Hne) as [current Hcurrent].
  unfold Engine.player. rewrite Hcurrent, Hopen. cbn [defined].
  rewrite bind_Ok.
  rewrite (proj1 (Forall_forall _ _) Hall current)
    by (by eapply list_elem_of_lookup_2).
  cbn [andb negb]. by apply IH.
Qed.

(** When every player is bankrupt and the game is not closed, the loop of
    [nextPlayer] never ends. *)
Theorem nextPlayer_all_bankrupt e :
  Engine.players e <> [] ->
  GameState.gameOver (Engine.gameState e) = false ->
  Forall (fun p => Player.bankrupt p = true) (Engine.players e) ->
  nextPlayer e = Raise Diverges.
Proof. apply nextPlayerLoop_all_bankrupt. Qed.

(** ** Rent *)

Lemma sumZ_alter {A} (g : A -> Z) (f : A -> A) (l : list A) i x :
  l !! i = Some x ->
  sumZ (g <$> alter f i l) = sumZ (g <$> l) + (g (f x) - g x).
Proof.
  unfold sumZ. revert i.
  induction l as [|y l IH]; intros [|i] Hi; try done; csimpl in *.
  - injection Hi as ->. lia.
  - rewrite (IH _ Hi). lia.
Qed.

Lemma cash_updPlayer e i f p :
  Engine.players e !! i = Some p ->
  cash (Engine.updPlayer i f e)
  = cash e + (Player.money (f p) - Player.money p).
Proof.
  intros Hp. unfold cash. rewrite players_updPlayer. by apply sumZ_alter.
Qed.

Lemma cash_updPlayer_same e i f :
  (forall p, Player.money (f p) = Player.money p) ->
  cash (Engine.updPlayer i f e) = cash e.
Proof.
  intros Hf. unfold cash. rewrite players_updPlayer.
  rewrite (list_fmap_alter _ f id) by (apply Forall_forall; intros p _; apply Hf).
  by rewrite list_alter_id.
Qed.

Lemma settle_cash action i o rent e e' :
  i <> o -> is_Some (Engine.players e !! o) ->
  settle action i o rent e = Ok e' -> cash e' = cash e.
Proof.
  intros Hio [owner Ho] H. unfold settle in H.
  apply bind_Ok_inv in H as (player & Hplayer & H).
  unfold Engine.player in Hplayer.
  destruct (Engine.players e !! i) as [p|] eqn:Hi; [|discriminate].
  injection Hplayer as ->.
  destruct (rent <=? Player.money player).
  - injection H as <-.
    change (cash (Engine.updPlayer o (Player.add_money rent)
                    (Engine.updPlayer i (Player.add_money (- rent)) e))
            = cash e).
    rewrite (cash_updPlayer _ _ _ owner)
      by (by rewrite lookup_updPlayer_ne).
    rewrite (cash_updPlayer _ _ _ player Hi). simpl. lia.
  - rewrite (handleBankruptcy_creditor _ _ _ _ _ Hi Ho Hio) in H.
    injection H as <-.
    erewrite cash_updPlayer; last first.
    { rewrite !lookup_updPlayer_ne by done. rewrite players_setProperties.
      rewrite lookup_updPlayer_ne by done. rewrite lookup_updPlayer_eq.
      change (Engine.players (Engine.log "BANKRUPTCY" e)) with (Engine.players e).
      by rewrite Hi. }
    rewrite !cash_updPlayer_same by done.
    change (cash (Engine.updPlayer o (Player.add_money (Player.money player))
                    (Engine.updPlayer i (Player.set_bankrupt true)
                       (Engine.log "BANKRUPTCY" e)))
            + (0 - Player.money player) = cash e).
    rewrite (cash_updPlayer _ _ _ owner); last first.
    { rewrite lookup_updPlayer_ne by done. exact Ho. }
    rewrite cash_updPlayer_same by done. simpl.
    change (cash (Engine.log "BANKRUPTCY" e)) with (cash e). lia.
Qed.

(** Rent moves money between players and neither makes nor destroys any:
    landing on a property leaves the players' total cash as it was, whether
    the rent is paid or the tenant goes bankrupt to the owner. *)
Theorem rent_conserves_cash i tile e e' :
  handlePropertyLanding i tile e = Ok e' -> cash e' = cash e.
Proof.
  unfold handlePropertyLanding. intros H.
  destruct (Engine.findProperty e _) as [[k property]|]; [|by injection H as <-].
  apply bind_Ok_inv in H as (player & Hplayer & H).
  destruct (Property.owner property) as [ownerId|] eqn:Hown;
    [|by injection H as <-].
  destruct (bool_decide (ownerId = Player.id player)) eqn:Hself;
    [by injection H as <-|].
  apply bool_decide_eq_false in Hself.
  unfold payRent in H.
  destruct (Property.mortgaged property); [by injection H as <-|].
  destruct (Engine.findPlayer e _) as [[o owner]|] eqn:Hfind;
    [|by injection H as <-].
  destruct (Player.bankrupt owner); [by injection H as <-|].
  unfold Engine.findPlayer in Hfind.
  apply list_find_Some in Hfind as (Ho & Hid & _).
  eapply settle_cash; [|by eexists|exact H].
  intros ->. unfold Engine.player in Hplayer. rewrite Ho in Hplayer.
  injection Hplayer as ->. congruence.
Qed.

(** ** The resolver and the players' cash *)

(** What an auction does: nothing but its announcement, or the sale to a
    solvent player who holds more than the bid. *)
Lemma startAuction_outcome k property e :
  startAuction k property e = Engine.log "AUCTION_START" e
  \/ exists w winner,
       Engine.players e !! w = Some winner
       /\ Player.bankrupt winner = false
       /\ 0 < maxBid property < Player.money winner
       /\ startAuction k property e
          = Engine.log "AUCTION_WON"
              (Engine.updPlayer w
                 (Player.push_property (Property.location property))
                 (Engine.updProperty k
                    (Property.set_owner (Some (Player.id winner)))
                    (Engine.updPlayer w (Player.add_money (- maxBid property))
                       (Engine.log "AUCTION_START" e)))).
Proof.
  unfold startAuction. rewrite auctionLoop_first.
  change (Engine.players (Engine.log "AUCTION_START" e)) with (Engine.players e).
  destruct (list_find _ _) as [[x [w winner]]|] eqn:Hfind; [|by left].
  apply list_find_Some in Hfind as (Hx & Hmore & _). cbn [fst snd] in *.
  apply list_elem_of_lookup_2, list_elem_of_filter in Hx as [Hsolvent Hx].
  apply indexed_elem in Hx. cbn [snd] in *.
  destruct (0 <? maxBid property) eqn:Hbid; [|by left].
  rewrite Hbid, Hx. right. exists w, winner. split_and!; try done; lia.
Qed.

Lemma covered_updPlayer e i f :
  (forall p, Engine.players e !! i = Some p -> 0 <= Player.money p ->
     0 <= Player.money (f p)) ->
  covered e -> covered (Engine.updPlayer i f e).
Proof.
  intros Hf Hc. unfold covered. rewrite players_updPlayer.
  apply Forall_alter; [exact Hc|]. intros p Hp. apply Hf. exact Hp.
Qed.

Lemma priced e loc k property :
  fairPrices e -> Engine.findProperty e loc = Some (k, property) ->
  0 <= Property.cost property /\ 0 <= getHouseCost (Property.tile property).
Proof.
  intros Hfair Hfind%findProperty_lookup%list_elem_of_lookup_2.
  exact (proj1 (Forall_forall _ _) Hfair _ Hfind).
Qed.

Lemma handleBuyProperty_covered tiles i confirm e e' r :
  handleBuyProperty tiles i confirm e = Ok (e', r) -> covered e -> covered e'.
Proof.
  unfold handleBuyProperty. intros H Hc.
  apply bind_Ok_inv in H as (player & Hplayer & H).
  unfold Engine.player in Hplayer.
  destruct (Engine.players e !! i) as [p|] eqn:Hi; [|discriminate].
  injection Hplayer as ->.
  destruct (tileAt tiles _); [|by destruct (Engine.properties e); invert H].
  destruct (Engine.findProperty e _) as [[k property]|]; [|by invert H].
  destruct (Property.owner property); [by invert H|].
  destruct confirm; cbn [negb] in H.
  - destruct (Player.money player <? _) eqn:Hm; invert H; [done|].
    apply covered_updPlayer; [done|].
    apply covered_updPlayer; [|done].
    intros p Hp _. rewrite Hi in Hp. injection Hp as <-. simpl. lia.
  - invert H.
    destruct (startAuction_outcome k property e) as [->|(w & winner & Hw & _ & Hbid & ->)];
      [done|].
    apply covered_updPlayer; [done|].
    apply covered_updPlayer; [|done].
    intros p Hp _. change (Engine.players e !! w = Some p) in Hp.
    rewrite Hw in Hp. injection Hp as <-. simpl. lia.
Qed.

(** No command but roll_dice overdraws a player: when the prices of the
    board are not negative and no player is in the red, none is afterwards. *)
Theorem commands_never_overdraw tiles dice fuel call i e e' r :
  call <> roll_dice ->
  fairPrices e ->
  executeToolCall tiles dice fuel call i e = Ok (e', r) ->
  covered e -> covered e'.
Proof.
  intros Hcall Hfair H Hc. unfold executeToolCall in H.
  apply bind_Ok_inv in H as (player & Hplayer & H).
  unfold Engine.player in Hplayer.
  destruct (Engine.players e !! i) as [p|] eqn:Hi; [|discriminate].
  injection Hplayer as ->.
  destruct call; try done; try (by invert H).
  - by eapply handleBuyProperty_covered.
  - unfold handleBuildHouse in H.
    destruct (Engine.findProperty e _) as [[k property]|]; [|by invert H].
    rewrite (player_lookup _ _ _ Hi), bind_Ok in H.
    repeat case_test H; invert H; try done.
    apply covered_updPlayer; [|done].
    intros p Hp _. rewrite Hi in Hp. injection Hp as <-. simpl. lia.
  - unfold handleBuildHotel in H.
    destruct (Engine.findProperty e _) as [[k property]|]; [|by invert H].
    rewrite (player_lookup _ _ _ Hi), bind_Ok in H.
    repeat case_test H; invert H; try done.
    apply covered_updPlayer; [|done].
    intros p Hp _. rewrite Hi in Hp. injection Hp as <-. simpl. lia.
  - unfold handleMortgageProperty in H.
    destruct (Engine.findProperty e _) as [[k property]|] eqn:Hfind;
      [|by invert H].
    rewrite (player_lookup _ _ _ Hi), bind_Ok in H.
    destruct (priced _ _ _ _ Hfair Hfind) as [Hcost _].
    repeat case_test H; invert H; try done.
    apply covered_updPlayer; [|done].
    intros p Hp Hm. simpl. pose proof (Z.div_pos _ 2 Hcost). lia.
  - unfold handleUnmortgageProperty in H.
    destruct (Engine.findProperty e _) as [[k property]|]; [|by invert H].
    rewrite (player_lookup _ _ _ Hi), bind_Ok in H.
    repeat case_test H; invert H; try done.
    apply covered_updPlayer; [|done].
    intros p Hp _. rewrite Hi in Hp. injection Hp as <-. simpl. lia.
  - unfold handleSellHouse in H.
    destruct (Engine.findProperty e _) as [[k property]|] eqn:Hfind;
      [|by invert H].
    rewrite (player_lookup _ _ _ Hi), bind_Ok in H.
    destruct (priced _ _ _ _ Hfair Hfind) as [_ Hcost].
    repeat case_test H; invert H; try done.
    apply covered_updPlayer; [|done].
    intros p Hp Hm. simpl. pose proof (Z.div_pos _ 2 Hcost). lia.
  - unfold handleSellHotel in H.
    destruct (Engine.findProperty e _) as [[k property]|] eqn:Hfind;
      [|by invert H].
    rewrite (player_lookup _ _ _ Hi), bind_Ok in H.
    destruct (priced _ _ _ _ Hfair Hfind) as [_ Hcost].
    repeat case_test H; invert H; try done.
    apply covered_updPlayer; [|done].
    intros p Hp Hm. simpl.
    assert (0 <= getHouseCost (Property.tile property) * 5 / 2)
      by (apply Z.div_pos; lia).
    lia.
  - unfold handlePayJailFine in H.
    rewrite (player_lookup _ _ _ Hi), bind_Ok in H.
    repeat case_test H; invert H; try done.
    apply covered_updPlayer; [|done].
    intros p Hp _. rewrite Hi in Hp. injection Hp as <-. simpl. lia.
  - unfold handleUseJailCard in H.
    rewrite (player_lookup _ _ _ Hi), bind_Ok in H.
    repeat case_test H; invert H; try done.
    by apply covered_updPlayer.
  - unfold handleGetGameState in H.
    apply bind_Ok_inv in H as (? & _ & H).
    apply bind_Ok_inv in H as (? & _ & H). by invert H.
  - unfold handleGetPropertyInfo in H.
    by destruct (Engine.findProperty _ _); invert H.
Qed.

(** ** Round trips of the resolver *)

Lemma list_find_alter {A} (P : A -> Prop) `{forall x, Decision (P x)}
  (f : A -> A) (l : list A) k x :
  (forall y, P (f y) <-> P y) ->
  list_find P l = Some (k, x) ->
  list_find P (alter f k l) = Some (k, f x).
Proof.
  intros Hf (Hk & Hx & Hbefore)%list_find_Some.
  apply list_find_Some. split_and!.
  - by rewrite list_lookup_alter_eq, Hk.
  - by apply Hf.
  - intros j y Hj Hjk. rewrite list_lookup_alter_ne in Hj by lia.
    by eapply Hbefore.
Qed.

Lemma findProperty_updProperty e loc k property f :
  (forall p, Property.tile (f p) = Property.tile p) ->
  Engine.findProperty e loc = Some (k, property) ->
  Engine.findProperty (Engine.updProperty k f e) loc = Some (k, f property).
Proof.
  intros Hf Hfind. unfold Engine.findProperty in *.
  change (Engine.properties (Engine.updProperty k f e))
    with (alter f k (Engine.properties e)).
  apply list_find_alter; [|exact Hfind].
  intros p. unfold Property.location. by rewrite Hf.
Qed.

Lemma alter_restore {A} (f : A -> A) (l : list A) k x :
  l !! k = Some x -> f x = x -> alter f k l = l.
Proof.
  intros Hk Hf. rewrite (alter_insert _ _ _ _ Hk), Hf.
  by apply list_insert_id.
Qed.

(** A hotel that has just been built can be sold at once, and the round trip
    pays: the property table and the bank's stock are as before, and the
    builder holds [floor (5c / 2) - c] more than before, where [c] is the
    house cost of the property. *)
Theorem hotel_round_trip tiles dice fuel i loc e e1 r k property player :
  Engine.players e !! i = Some player ->
  Engine.findProperty e loc = Some (k, property) ->
  Property.hotels property = 0 ->
  executeToolCall tiles dice fuel (build_hotel loc) i e = Ok (e1, r) ->
  Result.success r = true ->
  let c := getHouseCost (Property.tile property) in
  exists e2,
    executeToolCall tiles dice fuel (sell_hotel loc) i e1 = Ok (e2, Result.ok)
    /\ Engine.properties e2 = Engine.properties e
    /\ GameState.houses (Engine.gameState e2)
       = GameState.houses (Engine.gameState e)
    /\ GameState.hotels (Engine.gameState e2)
       = GameState.hotels (Engine.gameState e)
    /\ Engine.players e2
       = <[i := Player.add_money (c * 5 / 2 - c) player]> (Engine.players e).
Proof.
  intros Hi Hfind Hnone H Hok. cbv zeta.
  pose proof (findProperty_lookup _ _ _ _ Hfind) as Hk.
  unfold executeToolCall, handleBuildHotel in H.
  rewrite (player_lookup _ _ _ Hi), bind_Ok, Hfind, bind_Ok in H.
  repeat case_test H; invert H; try discriminate Hok.
  set (c := getHouseCost (Property.tile property)) in *.
  set (built := fun p => Property.set_hotels 1 (Property.set_houses 0 p)).
  set (e1 := Engine.updProperty k built
               (Engine.updPlayer i (Player.add_money (- c)) e)).
  assert (Hi1 : Engine.players e1 !! i = Some (Player.add_money (- c) player)).
  { unfold e1. change (Engine.players (Engine.updProperty k built ?e0))
      with (Engine.players e0). by rewrite lookup_updPlayer_eq, Hi. }
  assert (Hfind1 : Engine.findProperty e1 loc = Some (k, built property)).
  { by apply findProperty_updProperty. }
  unfold executeToolCall, handleSellHotel.
  change (Engine.player (Engine.log "BUILD_HOTEL" (Engine.updBank 4 (-1) e1)) i)
    with (Engine.player e1 i).
  change (Engine.findProperty
            (Engine.log "BUILD_HOTEL" (Engine.updBank 4 (-1) e1)) loc)
    with (Engine.findProperty e1 loc).
  rewrite (player_lookup _ _ _ Hi1), !bind_Ok, Hfind1.
  match goal with H : negb (ownedBy _ _) = false |- _ => rename H into Hown end.
  apply negb_false_iff in Hown.
  assert (Hown1 : ownedBy (Player.id (Player.add_money (- c) player))
                    (built property) = true) by exact Hown.
  rewrite bind_Ok, Hown1.
  cbn [negb Property.hotels built Property.set_hotels Z.eqb].
  eexists. split; [reflexivity|]. split_and!.
  - change (alter (fun p => Property.set_houses 4 (Property.set_hotels 0 p)) k
              (alter built k (Engine.properties e)) = Engine.properties e).
    rewrite list_alter_alter_eq. apply (alter_restore _ _ _ _ Hk).
    assert (Hrestore : forall p, Property.houses p = 4 ->
              Property.hotels p = 0 ->
              Property.set_houses 4
                (Property.set_hotels 0 (built p)) = p)
      by (intros []; simpl; intros -> ->; reflexivity).
    apply Hrestore; lia.
  - simpl. lia.
  - simpl. lia.
  - change (alter (Player.add_money (getHouseCost (Property.tile (built property))
                                     * 5 / 2)) i
              (alter (Player.add_money (- c)) i (Engine.players e))
            = <[i:=Player.add_money (c * 5 / 2 - c) player]> (Engine.players e)).
    rewrite list_alter_alter_eq, (alter_insert _ _ _ _ Hi). simpl.
    rewrite add_money_add_money. do 2 f_equal. fold c. lia.
Qed.


Lemma foldl_max_in l : forall a,
  foldl Z.max a l = a \/ foldl Z.max a l ∈ l.
Proof.
  induction l as [|b l IH]; intros a; simpl; [by left|].
  destruct (IH (Z.max a b)) as [->|Hin].
  - destruct (Z.max_spec a b) as [[_ ->]|[_ ->]]; [right; left|by left].
  - right. by right.
Qed.

Lemma maximum_Some l m :
  m ∈ l -> (forall x, x ∈ l -> x <= m) -> maximum l = Some m.
Proof.
  intros Hm Hmax. destruct l as [|a l]; [by apply elem_of_nil in Hm|].
  simpl. f_equal. apply Z.le_antisymm.
  - apply Hmax. destruct (foldl_max_in l a) as [->|Hin]; [left|by right].
  - by apply (maximum_ge (a :: l)).
Qed.

(** Under the building invariants a house that has just been built can be
    sold back at once: the sale is accepted, the property table and the
    bank's stock are as before, and the builder has lost
    [c - floor (c / 2)], where [c] is the house cost. *)
Theorem house_round_trip tiles dice fuel i loc e e1 r k property player :
  wellBuilt e -> evenHousesOffHotels e ->
  Engine.players e !! i = Some player ->
  Engine.findProperty e loc = Some (k, property) ->
  executeToolCall tiles dice fuel (build_house loc) i e = Ok (e1, r) ->
  Result.success r = true ->
  let c := getHouseCost (Property.tile property) in
  exists e2,
    executeToolCall tiles dice fuel (sell_house loc) i e1 = Ok (e2, Result.ok)
    /\ Engine.properties e2 = Engine.properties e
    /\ GameState.houses (Engine.gameState e2)
       = GameState.houses (Engine.gameState e)
    /\ GameState.hotels (Engine.gameState e2)
       = GameState.hotels (Engine.gameState e)
    /\ Engine.players e2
       = <[i := Player.add_money (c / 2 - c) player]> (Engine.players e).
Proof.
  intros Hbounds Heven Hi Hfind H Hok. cbv zeta.
  pose proof (findProperty_lookup _ _ _ _ Hfind) as Hk.
  pose proof (list_elem_of_lookup_2 _ _ _ Hk) as Hin.
  unfold executeToolCall, handleBuildHouse in H.
  rewrite (player_lookup _ _ _ Hi), bind_Ok, Hfind, bind_Ok in H.
  repeat case_test H; invert H; try discriminate Hok.
  repeat match goal with
    | H : negb _ = false |- _ => apply negb_false_iff in H
    end.
  match goal with H : ownedBy _ _ = true |- _ =>
    pose proof (ownedBy_true _ _ H) as Hown; rename H into Howned end.
  match goal with H : canBuildEvenly _ _ _ = true |- _ => rename H into Hcan end.
  set (c := getHouseCost (Property.tile property)) in *.
  set (more := fun p => Property.set_houses (Property.houses p + 1) p).
  set (e1 := Engine.updProperty k more
               (Engine.updPlayer i (Player.add_money (- c)) e)).
  assert (Hi1 : Engine.players e1 !! i = Some (Player.add_money (- c) player)).
  { unfold e1. change (Engine.players (Engine.updProperty k ?f ?e0))
      with (Engine.players e0). by rewrite lookup_updPlayer_eq, Hi. }
  assert (Hfind1 : Engine.findProperty e1 loc = Some (k, more property)).
  { by apply findProperty_updProperty. }
  destruct (proj1 (Forall_forall _ _) Hbounds _ Hin) as (Hh & _ & _).
  assert (Hsell : canSellEvenly e1 (Player.id player)
                    (Property.tile property) = true).
  { unfold canSellEvenly.
    destruct (Tile.truthyColor (Property.tile property)) as [colour|] eqn:Hc;
      [|by unfold canBuildEvenly in Hcan; rewrite Hc in Hcan].
    destruct (ownedGroup_current e1 loc k (more property) (Player.id player)
                colour Hfind1 Hown Hc) as [k' Hk'].
    change (Tile.location (Property.tile (more property)))
      with (Tile.location (Property.tile property)) in Hk'.
    rewrite Hk'. apply bool_decide_eq_true. symmetry.
    apply list_find_Some in Hk' as (Hk' & _ & _).
    apply maximum_Some.
    { apply list_elem_of_fmap. exists (more property).
      split; [done|]. by eapply list_elem_of_lookup_2. }
    intros x (q & -> & Hq)%list_elem_of_fmap.
    apply list_elem_of_filter in Hq as [[Hqc Hqo] Hq].
    change (Engine.properties e1) with (alter more k (Engine.properties e)) in Hq.
    destruct (elem_of_alter _ _ _ _ _ Hk Hq) as [->|Hq']; [done|].
    destruct (proj1 (Forall_forall _ _) Hbounds _ Hq') as (Hqh & Hql & Hqhotel).
    destruct (decide (0 < Property.hotels q)) as [Hhotel|Hhotel].
    { rewrite (Hqhotel Hhotel). simpl. lia. }
    assert (Hsame : sameOwnedGroup q property).
    { pose proof (truthyColor_color _ _ Hc) as Hpc.
      unfold sameOwnedGroup, Tile.truthyColor in *.
      unfold Property.color in Hqc. rewrite Hqc, Hqo, Hown.
      rewrite Hpc in Hc |- *. by destruct colour. }
    pose proof (Heven q property Hq' Hin Hsame). simpl. lia. }
  unfold executeToolCall, handleSellHouse.
  change (Engine.player (Engine.log "BUILD_HOUSE" (Engine.updBank (-1) 0 e1)) i)
    with (Engine.player e1 i).
  change (Engine.findProperty
            (Engine.log "BUILD_HOUSE" (Engine.updBank (-1) 0 e1)) loc)
    with (Engine.findProperty e1 loc).
  rewrite (player_lookup _ _ _ Hi1), !bind_Ok, Hfind1, bind_Ok.
  assert (Hown1 : ownedBy (Player.id (Player.add_money (- c) player))
                    (more property) = true) by exact Howned.
  rewrite Hown1.
  assert (Hsome : (Property.houses (more property) =? 0) = false)
    by (simpl; lia).
  rewrite Hsome.
  change (canSellEvenly (Engine.log "BUILD_HOUSE" (Engine.updBank (-1) 0 e1))
            (Player.id (Player.add_money (- c) player))
            (Property.tile (more property)))
    with (canSellEvenly e1 (Player.id player) (Property.tile property)).
  rewrite Hsell. cbn [negb].
  eexists. split; [reflexivity|]. split_and!.
  - change (alter (fun p => Property.set_houses (Property.houses p - 1) p) k
              (alter more k (Engine.properties e)) = Engine.properties e).
    rewrite list_alter_alter_eq. apply (alter_restore _ _ _ _ Hk).
    unfold more. generalize property.
    intros []; unfold Property.set_houses; simpl. f_equal. lia.
  - simpl. lia.
  - simpl. lia.
  - change (alter (Player.add_money
                     (getHouseCost (Property.tile (more property)) / 2)) i
              (alter (Player.add_money (- c)) i (Engine.players e))
            = <[i:=Player.add_money (c / 2 - c) player]> (Engine.players e)).
    rewrite list_alter_alter_eq, (alter_insert _ _ _ _ Hi). simpl.
    rewrite add_money_add_money. do 2 f_equal. fold c. lia.
Qed.

(** ** The cards that advance to the nearest railroad or utility *)



(** ** What a roll leaves in place *)

#[local] Instance settles_preorder : PreOrder settles.
Proof.
  split.
  - intros e. by split.
  - intros e1 e2 e3 [] []. split; try congruence; by etrans.
Qed.

(** The steps of the engine that [settles] allows, each after a run that it
    allows. *)
Lemma settles_log e e1 action :
  settles e e1 -> settles e (Engine.log action e1).
Proof. intros H. etrans; [exact H|]. by split. Qed.

Lemma settles_updPlayer e e1 i f :
  (forall p, Engine.players e1 !! i = Some p ->
     Player.id (f p) = Player.id p /\ Player.name (f p) = Player.name p) ->
  settles e e1 -> settles e (Engine.updPlayer i f e1).
Proof.
  intros Hf H. etrans; [exact H|]. split; try done.
  - rewrite players_updPlayer. apply fmap_alter_kept. intros p Hp.
    by destruct (Hf p Hp).
  - rewrite players_updPlayer. apply fmap_alter_kept. intros p Hp.
    by destruct (Hf p Hp).
Qed.

Lemma settles_set_rolls e e1 n :
  settles e e1 -> settles e (Engine.set_rolls n e1).
Proof. intros H. etrans; [exact H|]. by split. Qed.

Lemma settles_set_lastCardDrawn e e1 c :
  settles e e1 -> settles e (Engine.set_lastCardDrawn c e1).
Proof. intros H. etrans; [exact H|]. by split. Qed.

Lemma settles_handover e e1 ps :
  handover (Engine.properties e1) ps ->
  settles e e1 -> settles e (Engine.setProperties ps e1).
Proof.
  intros Hps H. etrans; [exact H|]. split; try done.
  by apply rtc_once.
Qed.

(** The closing moves of a proof that a run settles. *)
Ltac settled :=
  repeat first
    [ assumption
    | reflexivity
    | apply settles_log
    | apply settles_set_rolls
    | apply settles_set_lastCardDrawn
    | apply settles_updPlayer; [by intros [] | ] ].

Lemma handleBankruptcy_settles i creditor e e' :
  handleBankruptcy i creditor e = Ok e' -> settles e e'.
Proof.
  unfold handleBankruptcy. intros H.
  bind_inv H. bind_inv H. invert H.
  destruct creditor as [c|].
  - bind_inv Ha0. bind_inv Ha0. bind_inv Ha0. invert Ha0.
    settled. apply settles_handover; [constructor|]. settled.
  - invert Ha0. settled. apply settles_handover; [constructor|]. settled.
Qed.

Lemma settle_settles action i o rent e e' :
  settle action i o rent e = Ok e' -> settles e e'.
Proof.
  unfold settle. intros H. bind_inv H.
  destruct (rent <=? Player.money a);
    [invert H; settled|by eapply handleBankruptcy_settles].
Qed.

Lemma payBank_settles action i tax e e' :
  payBank action i tax e = Ok e' -> settles e e'.
Proof.
  unfold payBank. intros H. bind_inv H.
  destruct (tax <=? Player.money a);
    [invert H; settled|by eapply handleBankruptcy_settles].
Qed.

Lemma payRent_settles i property e e' :
  payRent i property e = Ok e' -> settles e e'.
Proof.
  unfold payRent. intros H.
  destruct (Property.mortgaged property); [by invert H|].
  destruct (Engine.findPlayer e _) as [[o owner]|]; [|by invert H].
  destruct (Player.bankrupt owner); [by invert H|].
  by eapply settle_settles.
Qed.

Lemma handlePropertyLanding_settles i tile e e' :
  handlePropertyLanding i tile e = Ok e' -> settles e e'.
Proof.
  unfold handlePropertyLanding. intros H.
  destruct (Engine.findProperty e _) as [[k property]|]; [|by invert H].
  bind_inv H. destruct (Property.owner property); [|by invert H].
  destruct (bool_decide _); [by invert H|by eapply payRent_settles].
Qed.

Lemma handleIncomeTax_settles i e e' :
  handleIncomeTax i e = Ok e' -> settles e e'.
Proof.
  unfold handleIncomeTax. intros H. bind_inv H. by eapply payBank_settles.
Qed.

Lemma handleLuxuryTax_settles i e e' :
  handleLuxuryTax i e = Ok e' -> settles e e'.
Proof. apply payBank_settles. Qed.

Lemma foldl_settles {A} (f : Engine.t -> A -> Engine.t) l :
  (forall e a, settles e (f e a)) -> forall e, settles e (foldl f e l).
Proof.
  intros Hf. induction l as [|a l IH]; intros e; [reflexivity|].
  simpl. etrans; [apply Hf|apply IH].
Qed.

Lemma collectFromPlayers_settles i perPlayer e e' :
  collectFromPlayers i perPlayer e = Ok e' -> settles e e'.
Proof.
  unfold collectFromPlayers. intros H. bind_inv H. invert H.
  apply foldl_settles. intros e0 j. unfold collectFrom.
  destruct (Engine.players e0 !! j); settled.
Qed.

Lemma payToPlayers_settles i perPlayer e e' :
  payToPlayers i perPlayer e = Ok e' -> settles e e'.
Proof.
  unfold payToPlayers. intros H. bind_inv H.
  destruct (_ <=? _); [|by eapply handleBankruptcy_settles]. invert H.
  apply foldl_settles. intros e0 j. settled.
Qed.

Lemma repairs_settles i attrs e e' :
  repairs i attrs e = Ok e' -> settles e e'.
Proof.
  unfold repairs. intros H. bind_inv H.
  destruct (_ <=? _); [invert H; settled|by eapply handleBankruptcy_settles].
Qed.

Lemma sendToJail_settles e e1 i : settles e e1 -> settles e (sendToJail i e1).
Proof. intros H. unfold sendToJail. settled. Qed.

Lemma settles_draw_chance e e1 card rest :
  GameState.chanceCards (Engine.gameState e1) = card :: rest ->
  settles e e1 ->
  settles e (Engine.set_gameState
               (GameState.set_chanceCards (rest ++ [card])
                  (Engine.gameState e1)) e1).
Proof.
  intros Hdeck H. etrans; [exact H|]. split; try done. simpl.
  rewrite Hdeck. apply rtc_once. constructor.
Qed.

Lemma settles_draw_chest e e1 card rest :
  GameState.communityChestCards (Engine.gameState e1) = card :: rest ->
  settles e e1 ->
  settles e (Engine.set_gameState
               (GameState.set_communityChestCards (rest ++ [card])
                  (Engine.gameState e1)) e1).
Proof.
  intros Hdeck H. etrans; [exact H|]. split; try done. simpl.
  rewrite Hdeck. apply rtc_once. constructor.
Qed.

Section LandingSettles.

Variable tiles : list Tile.t.
Variable dice : nat -> Z * Z.
Variable landing : nat -> Engine.t -> res Engine.t.
Hypothesis landing_settles : forall i e e', landing i e = Ok e' -> settles e e'.

Lemma cardMoveToNearest_settles i target attrs e e' :
  cardMoveToNearest tiles dice landing i target attrs e = Ok e' ->
  settles e e'.
Proof.
  unfold cardMoveToNearest. intros H.
  bind_inv H. bind_inv H. bind_inv H.
  match type of H with
  | context [landing i ?e1] =>
      assert (Hs1 : settles e e1) by (destruct (_ <? _); settled);
      assert (Hvisit : forall e2, landing i e1 = Ok e2 -> settles e e2)
        by (intros e2 He2; etrans;
            [exact Hs1|exact (landing_settles _ _ _ He2)])
  end.
  destruct (Engine.findProperty _ _) as [[k property]|]; [|eauto].
  destruct (truthyOwner _); [|eauto].
  destruct (bool_decide _); [eauto|].
  destruct (Engine.findPlayer _ _) as [[o owner]|]; [|by invert H].
  destruct (Player.bankrupt owner); [by invert H|].
  bind_inv H.
  assert (Hs2 : settles e a2).
  { destruct (truthyZ (Card.rentMultiplier attrs)); [|by invert Ha2].
    etrans; [exact Hs1|by eapply settle_settles]. }
  destruct (truthyZ (Card.diceMultiplier attrs)); [|by invert H].
  etrans; [|by eapply settle_settles]. settled.
Qed.

Lemma executeCardEffect_settles i card e e' :
  executeCardEffect tiles dice landing i card e = Ok e' -> settles e e'.
Proof.
  unfold executeCardEffect. intros H. bind_inv H.
  destruct (Card.moveSpaces _).
  { bind_inv H. etrans; [|exact (landing_settles _ _ _ H)]. settled. }
  destruct (Card.moveToNearest _); [by eapply cardMoveToNearest_settles|].
  bind_inv H.
  assert (Hs0 : settles e a0).
  { destruct (Card.location _); [|by invert Ha0].
    bind_inv Ha0. etrans; [|exact (landing_settles _ _ _ Ha0)].
    destruct (_ && _); settled. }
  clear Ha0. bind_inv H. bind_inv H.
  match type of Ha1 with
  | context [collectFromPlayers i _ ?e1] =>
      assert (Hs1 : settles e e1)
        by (destruct (Card.amount _), (Card.jailFreeCard _), (bool_decide _);
            try apply sendToJail_settles; settled)
  end.
  assert (Hs2 : settles e a1).
  { case_if Ha1; [|by invert Ha1].
    etrans; [exact Hs1|by eapply collectFromPlayers_settles]. }
  assert (Hs3 : settles e a2).
  { case_if Ha2; [|by invert Ha2].
    etrans; [exact Hs2|by eapply payToPlayers_settles]. }
  case_if H; [|by invert H].
  etrans; [exact Hs3|by eapply repairs_settles].
Qed.

Lemma drawChanceCard_settles i e e' :
  drawChanceCard tiles dice landing i e = Ok e' -> settles e e'.
Proof.
  unfold drawChanceCard. intros H.
  destruct (GameState.chanceCards _) as [|card rest] eqn:Hdeck; [discriminate|].
  etrans; [|by eapply executeCardEffect_settles].
  settled. by apply settles_draw_chance.
Qed.

Lemma drawCommunityChestCard_settles i e e' :
  drawCommunityChestCard tiles dice landing i e = Ok e' -> settles e e'.
Proof.
  unfold drawCommunityChestCard. intros H.
  destruct (GameState.communityChestCards _) as [|card rest] eqn:Hdeck;
    [discriminate|].
  etrans; [|by eapply executeCardEffect_settles].
  settled. by apply settles_draw_chest.
Qed.

End LandingSettles.

Lemma handleLanding_settles tiles dice fuel : forall i e e',
  handleLanding tiles dice fuel i e = Ok e' -> settles e e'.
Proof.
  induction fuel as [|fuel IH]; intros i e e' H; [discriminate|].
  simpl in H. bind_inv H. bind_inv H.
  assert (Hlog : settles e (Engine.log "LAND_ON_TILE" e)) by settled.
  destruct (Tile.type a0); try (invert H; settled; fail);
    (etrans; [exact Hlog|]).
  - by eapply handlePropertyLanding_settles.
  - by eapply handlePropertyLanding_settles.
  - by eapply handlePropertyLanding_settles.
  - by eapply drawChanceCard_settles.
  - by eapply drawCommunityChestCard_settles.
  - by eapply handleIncomeTax_settles.
  - by eapply handleLuxuryTax_settles.
Qed.

Lemma recordRoll_settles e e1 roll :
  settles e e1 -> settles e (recordRoll roll e1).
Proof.
  intros H. etrans; [exact H|]. unfold recordRoll.
  destruct (Roll.doubles roll); split; try done; simpl;
    (by rewrite length_alter) || (by apply fmap_alter_kept).
Qed.

Lemma id_advance total p :
  Player.id (advance total p).1 = Player.id p
  /\ Player.name (advance total p).1 = Player.name p.
Proof. unfold advance. by destruct (_ || _). Qed.

Lemma move_settles tiles i roll e e' :
  move tiles i roll e = Ok e' -> settles e e'.
Proof.
  unfold move. intros H. bind_inv H. bind_inv H. invert H.
  unfold Engine.player in Ha.
  destruct (Engine.players e !! i) as [p|] eqn:Hp; [|discriminate].
  injection Ha as ->.
  destruct (advance _ _).2 eqn:Hmoved; settled.
  all: apply settles_updPlayer; [|reflexivity].
  all: intros p Hp'; rewrite Hp in Hp'; injection Hp' as <-;
    apply id_advance.
Qed.

Lemma handleRollDice_settles tiles dice fuel i e e' r :
  handleRollDice tiles dice fuel i e = Ok (e', r) -> settles e e'.
Proof.
  unfold handleRollDice, rollDice. intros H. bind_inv H.
  destruct (negb _); [by bind_inv H; invert H|].
  match type of H with
  | context [recordRoll ?roll ?e0] =>
      assert (Hs1 : settles e (recordRoll roll e0))
        by (apply recordRoll_settles; settled)
  end.
  case_if H; [invert H; by apply sendToJail_settles|].
  unfold moveAndLand in H. apply bind_Ok_inv in H as (e1 & Hmove & H).
  unfold landAfterRoll in H.
  apply bind_Ok_inv in H as (e2 & Hland & H). bind_inv H. bind_inv H.
  invert H.
  etrans; [exact Hs1|]. etrans; [by eapply move_settles|].
  by eapply handleLanding_settles.
Qed.

Lemma handleJail_settles tiles dice fuel i e e' :
  handleJail tiles dice fuel i e = Ok e' -> settles e e'.
Proof.
  unfold handleJail, rollDice. intros H. bind_inv H.
  case_if H.
  - case_if H; [invert H; settled|].
    etrans; [|by eapply handleBankruptcy_settles]. settled.
  - case_if H; [|invert H; settled]. bind_inv H.
    etrans; [|by eapply handleLanding_settles]. settled.
Qed.

(** A roll of the dice, with everything the landing sets off (rent, taxes,
    cards, jail, bankruptcy), and the jail handling that opens a turn leave
    in place the players with their ids and names, the agents, the player to
    move, the turn counter, the verdict and the bank's stock of houses and
    hotels; each deck is turned card by card, and the property table changes
    only as bankruptcies hand properties over. *)
Theorem roll_settles tiles dice fuel i e :
  (forall e' r,
     executeToolCall tiles dice fuel roll_dice i e = Ok (e', r) ->
     settles e e')
  /\ (forall e', handleJail tiles dice fuel i e = Ok e' -> settles e e').
Proof.
  split.
  - intros e' r H. unfold executeToolCall in H. bind_inv H.
    by eapply handleRollDice_settles.
  - intros e'. apply handleJail_settles.
Qed.

(** ** Invariants of a game

    A property of the engine state that every command and the jail handling
    keep, and that does not depend on the bookkeeping of a turn, holds for
    the whole game. *)

Lemma nextPlayerLoop_handedTo n : forall e e',
  nextPlayerLoop n e = Ok e' ->
  exists j, (j < length (Engine.players e))%nat /\ e' = handedTo j e.
Proof.
  induction n as [|n IH]; intros e e' H; [discriminate|].
  destruct (decide (Engine.players e = [])) as [Hnil|Hne].
  { simpl in H. fold (Engine.players e) in H. by rewrite Hnil in H. }
  rewrite nextPlayerLoop_step in H by done. bind_inv H.
  assert (Hseat : (seat e 1 < length (Engine.players e))%nat).
  { apply lookup_lt_is_Some_1, seat_in_range, Hne. }
  case_if H.
  - destruct (IH _ _ H) as (j & Hj & ->). exists j. split; [exact Hj|].
    apply handedTo_handedTo.
  - invert H. by exists (seat e 1).
Qed.

Section Game.

Variable tiles : list Tile.t.
Variable dice : nat -> Z * Z.
Variable takeTurn : nat -> GameState.t -> list ToolCall.
Variable Inv : Engine.t -> Prop.

Hypothesis Inv_call : forall fuel call i e e' r,
  executeToolCall tiles dice fuel call i e = Ok (e', r) -> Inv e -> Inv e'.
Hypothesis Inv_jail : forall fuel i e e',
  handleJail tiles dice fuel i e = Ok e' -> Inv e -> Inv e'.
Hypothesis Inv_books : forall e e', books e e' -> Inv e -> Inv e'.
Hypothesis Inv_next : forall j e,
  (j < length (Engine.players e))%nat -> Inv e -> Inv (handedTo j e).
Hypothesis Inv_verdict : forall e, Inv e -> Inv (checkWinCondition e).1.

Lemma runToolCalls_keeps fuel i calls : forall e e' ended,
  runToolCalls tiles dice fuel i calls e = Ok (e', ended) -> Inv e -> Inv e'.
Proof.
  induction calls as [|call calls IH]; intros e e' ended H Hinv.
  - by invert H.
  - simpl in H. bind_inv H. destruct a as [e1 result]. bind_inv H.
    assert (Hinv1 : Inv e1) by eauto.
    case_if H; [by invert H|eauto].
Qed.

Lemma decisionLoop_keeps n fuel i : forall empties e e',
  decisionLoop tiles dice takeTurn n fuel i empties e = Ok e' ->
  Inv e -> Inv e'.
Proof.
  induction n as [|n IH]; intros empties e e' H Hinv; simpl in H;
    apply bind_Ok_inv in H as (player & _ & H).
  - case_if H; [by invert H|discriminate].
  - case_if H; [by invert H|].
    unfold requestDecision in H.
    apply bind_Ok_inv in H as ([[e1 ended] empties1] & Hround & H).
    apply bind_Ok_inv in H as (agent & _ & H).
    assert (Hinv1 : Inv e1).
    { match type of Hround with
      | context [runToolCalls _ _ _ _ _ ?e0] =>
          assert (Hinv0 : Inv e0)
            by (apply (Inv_books e); [|exact Hinv]; split; try done;
                simpl; by rewrite length_alter)
      end.
      destruct (takeTurn _ _) as [|call calls]; [invert Hround; exact Hinv0|].
      apply bind_Ok_inv in Hround as ([e2 ended2] & Hrun & Hround).
      invert Hround. by eapply runToolCalls_keeps. }
    case_if H; [by invert H|eauto].
Qed.

Lemma nextPlayer_keeps e e' : nextPlayer e = Ok e' -> Inv e -> Inv e'.
Proof.
  unfold nextPlayer. intros (j & Hj & ->)%nextPlayerLoop_handedTo Hinv.
  by apply Inv_next.
Qed.

Lemma beginTurn_books e : books e (beginTurn e).
Proof. split; try done. simpl. by rewrite length_alter. Qed.

Lemma playTurn_keeps fuel e e' :
  playTurn tiles dice takeTurn fuel e = Ok e' -> Inv e -> Inv e'.
Proof.
  unfold playTurn. intros H Hinv. bind_inv H. bind_inv H.
  assert (Hinv0 : Inv (beginTurn e))
    by (apply (Inv_books e); [apply beginTurn_books|exact Hinv]).
  case_if H.
  - bind_inv H. bind_inv H.
    assert (Hinv1 : Inv a1) by eauto.
    case_if H; [by eapply nextPlayer_keeps|].
    bind_inv H. eapply nextPlayer_keeps; [exact H|].
    by eapply decisionLoop_keeps.
  - bind_inv H. eapply nextPlayer_keeps; [exact H|].
    by eapply decisionLoop_keeps.
Qed.

Lemma runTurns_keeps n maxTurns fuel : forall e e',
  runTurns tiles dice takeTurn n maxTurns fuel e = Ok e' -> Inv e -> Inv e'.
Proof.
  induction n as [|n IH]; intros e e' H Hinv; simpl in H.
  - case_if H; [by invert H|discriminate].
  - case_if H; [by invert H|]. bind_inv H.
    assert (Hinv1 : Inv a) by (by eapply playTurn_keeps).
    assert (Hinv2 : Inv (checkWinCondition a).1) by (by apply Inv_verdict).
    destruct (checkWinCondition a) as [e2 won]. case_if H; [by invert H|eauto].
Qed.

End Game.

(** ** What no command changes *)

#[local] Instance sameCast_preorder : PreOrder sameCast.
Proof.
  split.
  - intros e. by split.
  - intros e1 e2 e3 [] []. split; try congruence; by etrans.
Qed.

#[local] Instance sameTurn_preorder : PreOrder sameTurn.
Proof.
  split.
  - intros e. by split.
  - intros e1 e2 e3 [] []. split; congruence.
Qed.

#[local] Instance steady_preorder : PreOrder steady.
Proof.
  split.
  - intros e. by split.
  - intros e1 e2 e3 [] []. split; by etrans.
Qed.

Lemma forOwned_tiles pid f ps :
  (forall p, Property.tile (f p) = Property.tile p) ->
  Property.tile <$> forOwned pid f ps = Property.tile <$> ps.
Proof.
  intros Hf. unfold forOwned. rewrite <- list_fmap_compose.
  apply list_fmap_ext. intros _ p _. simpl. by destruct (ownedBy pid p).
Qed.

Lemma handover_tiles ps ps' :
  rtc handover ps ps' -> Property.tile <$> ps' = Property.tile <$> ps.
Proof.
  induction 1 as [|ps ps1 ps2 Hstep _ IH]; [done|]. rewrite IH.
  destruct Hstep; by apply forOwned_tiles.
Qed.

Lemma settles_steady e e' : settles e e' -> steady e e'.
Proof.
  intros []. split; split; try done. by apply handover_tiles.
Qed.

Lemma steady_log e e1 action : steady e e1 -> steady e (Engine.log action e1).
Proof. intros H. etrans; [exact H|]. by split. Qed.

Lemma steady_updBank e e1 dHouses dHotels :
  steady e e1 -> steady e (Engine.updBank dHouses dHotels e1).
Proof. intros H. etrans; [exact H|]. by split. Qed.

Lemma steady_updPlayer e e1 i f :
  (forall p, Player.id (f p) = Player.id p /\ Player.name (f p) = Player.name p) ->
  steady e e1 -> steady e (Engine.updPlayer i f e1).
Proof.
  intros Hf H. etrans; [exact H|]. split; split; try done.
  all: rewrite players_updPlayer; apply fmap_alter_kept; intros p _;
    by destruct (Hf p).
Qed.

Lemma steady_updProperty e e1 k f :
  (forall p, Property.tile (f p) = Property.tile p) ->
  steady e e1 -> steady e (Engine.updProperty k f e1).
Proof.
  intros Hf H. etrans; [exact H|]. split; split; try done.
  change (Engine.properties (Engine.updProperty k f e1))
    with (alter f k (Engine.properties e1)).
  apply fmap_alter_kept. intros p _. apply Hf.
Qed.

Ltac steadied :=
  repeat first
    [ assumption
    | reflexivity
    | apply steady_log
    | apply steady_updBank
    | apply steady_updPlayer; [by intros [] | ]
    | apply steady_updProperty; [by intros [] | ] ].

Lemma handleBuyProperty_steady tiles i confirm e e' r :
  handleBuyProperty tiles i confirm e = Ok (e', r) -> steady e e'.
Proof.
  unfold handleBuyProperty. intros H. bind_inv H.
  destruct (tileAt tiles _); [|by destruct (Engine.properties e); invert H].
  destruct (Engine.findProperty e _) as [[k property]|]; [|by invert H].
  destruct (Property.owner property); [by invert H|].
  destruct confirm; cbn [negb] in H.
  - case_if H; invert H; steadied.
  - invert H.
    destruct (startAuction_outcome k property e)
      as [->|(w & winner & _ & _ & _ & ->)]; steadied.
Qed.

Lemma executeToolCall_steady tiles dice fuel call i e e' r :
  executeToolCall tiles dice fuel call i e = Ok (e', r) -> steady e e'.
Proof.
  intros H. unfold executeToolCall in H. bind_inv H.
  destruct call; try (invert H; steadied; fail).
  - by eapply settles_steady, handleRollDice_settles.
  - by eapply handleBuyProperty_steady.
  - unfold handleBuildHouse in H.
    destruct (Engine.findProperty e _) as [[k property]|]; [|by invert H].
    bind_inv H. repeat case_if H; invert H; steadied.
  - unfold handleBuildHotel in H.
    destruct (Engine.findProperty e _) as [[k property]|]; [|by invert H].
    bind_inv H. repeat case_if H; invert H; steadied.
  - unfold handleMortgageProperty in H.
    destruct (Engine.findProperty e _) as [[k property]|]; [|by invert H].
    bind_inv H. repeat case_if H; invert H; steadied.
  - unfold handleUnmortgageProperty in H.
    destruct (Engine.findProperty e _) as [[k property]|]; [|by invert H].
    bind_inv H. repeat case_if H; invert H; steadied.
  - unfold handleSellHouse in H.
    destruct (Engine.findProperty e _) as [[k property]|]; [|by invert H].
    bind_inv H. repeat case_if H; invert H; steadied.
  - unfold handleSellHotel in H.
    destruct (Engine.findProperty e _) as [[k property]|]; [|by invert H].
    bind_inv H. repeat case_if H; invert H; steadied.
  - unfold handlePayJailFine in H. bind_inv H.
    repeat case_if H; invert H; steadied.
  - unfold handleUseJailCard in H. bind_inv H.
    repeat case_if H; invert H; steadied.
  - unfold handleGetGameState in H. bind_inv H. bind_inv H. by invert H.
  - unfold handleGetPropertyInfo in H.
    by destruct (Engine.findProperty _ _); invert H.
Qed.

(** No command adds, removes, renames or reorders a player, changes the
    number of agents or the tile of a row of the property table, or takes a
    card out of a deck: the decks only turn, top card to the back.  Nor does
    a command change whose turn it is, the turn counter or the verdict. *)
Theorem commands_keep_the_cast tiles dice fuel call i e e' r :
  executeToolCall tiles dice fuel call i e = Ok (e', r) ->
  sameCast e e' /\ sameTurn e e'.
Proof. apply executeToolCall_steady. Qed.

Lemma sameCast_books e e' : books e e' -> sameCast e e'.
Proof. intros []. split; try congruence; by match goal with H : _ = _ |- rtc _ _ _ => rewrite H end. Qed.

Lemma runTurns_sameCast tiles dice takeTurn n maxTurns fuel e e' :
  runTurns tiles dice takeTurn n maxTurns fuel e = Ok e' -> sameCast e e'.
Proof.
  intros H.
  eapply (runTurns_keeps tiles dice takeTurn (sameCast e)); [..|exact H|done].
  - intros ? ? ? e1 e2 ? Hcall Hinv. etrans; [exact Hinv|].
    by eapply executeToolCall_steady.
  - intros ? ? e1 e2 Hjail Hinv. etrans; [exact Hinv|].
    by eapply settles_steady, handleJail_settles.
  - intros e1 e2 Hbooks Hinv. etrans; [exact Hinv|by apply sameCast_books].
  - intros j e1 _ Hinv. etrans; [exact Hinv|]. by split.
  - intros e1 Hinv. etrans; [exact Hinv|]. unfold checkWinCondition.
    by destruct (filter _ _) as [|? [|? ?]].
Qed.

Lemma rotate_drawn {A} (l : list A) k card rest :
  rotate k l = card :: rest -> (rest ++ [card])%list = rotate (S k) l.
Proof.
  unfold rotate. intros H.
  assert (Hlen : (0 < length l)%nat)
    by (destruct l; [by rewrite drop_nil, take_nil in H|simpl; lia]).
  set (m := (k `mod` length l)%nat) in *.
  assert (Hm : (m < length l)%nat) by (apply Nat.mod_upper_bound; lia).
  destruct (lookup_lt_is_Some_2 l m Hm) as [c Hc].
  rewrite (drop_S _ _ _ Hc) in H. injection H as <- <-.
  replace (S k `mod` length l)%nat with (S m `mod` length l)%nat
    by (unfold m; rewrite <- Nat.add_1_r, Nat.Div0.add_mod_idemp_l;
        by rewrite Nat.add_1_r).
  rewrite <- (assoc_L (++)), <- (take_S_r _ _ _ Hc).
  destruct (decide (S m = length l)) as [Hfull|Hless].
  - rewrite Hfull, Nat.Div0.mod_same, drop_all, firstn_all. by rewrite app_nil_r.
  - by rewrite Nat.mod_small by lia.
Qed.

Lemma drawn_rotate {A} (l l' : list A) :
  rtc drawn l l' -> exists k, l' = rotate k l.
Proof.
  revert l'. apply rtc_ind_r.
  - exists 0%nat. unfold rotate. rewrite Nat.Div0.mod_0_l. simpl.
    by rewrite app_nil_r.
  - intros l1 l2 _ [card rest] [k IH]. exists (S k). symmetry in IH.
    by apply rotate_drawn.
Qed.

(** The cast of a game is that of its start: at the end of the turns the
    players are those of the start, with their ids and names and in their
    order, there are as many agents, the rows of the property table carry the
    same tiles, and each deck is the deck of the start, turned. *)
Theorem game_keeps_the_cast tiles dice takeTurn n maxTurns fuel e e' :
  runTurns tiles dice takeTurn n maxTurns fuel e = Ok e' ->
  sameCast e e'
  /\ (exists k, GameState.chanceCards (Engine.gameState e')
                = rotate k (GameState.chanceCards (Engine.gameState e)))
  /\ (exists k, GameState.communityChestCards (Engine.gameState e')
                = rotate k (GameState.communityChestCards (Engine.gameState e))).
Proof.
  intros H%runTurns_sameCast. split; [exact H|]. destruct H.
  split; by apply drawn_rotate.
Qed.

(** ** Buildings and the bank's stock *)

Lemma wellBuilt_updProperty e k f :
  (forall p, Engine.properties e !! k = Some p ->
     0 <= Property.houses p <= 4 ->
     0 <= Property.hotels p <= 1 ->
     (0 < Property.hotels p -> Property.houses p = 0) ->
     0 <= Property.houses (f p) <= 4
     /\ 0 <= Property.hotels (f p) <= 1
     /\ (0 < Property.hotels (f p) -> Property.houses (f p) = 0)) ->
  wellBuilt e -> wellBuilt (Engine.updProperty k f e).
Proof.
  intros Hf Hw. unfold wellBuilt.
  change (Engine.properties (Engine.updProperty k f e))
    with (alter f k (Engine.properties e)).
  apply Forall_alter; [exact Hw|]. intros p Hp (? & ? & ?). by apply Hf.
Qed.

Lemma wellBuilt_handover ps ps' :
  rtc handover ps ps' ->
  Forall (fun p => 0 <= Property.houses p <= 4
                   /\ 0 <= Property.hotels p <= 1
                   /\ (0 < Property.hotels p -> Property.houses p = 0)) ps ->
  Forall (fun p => 0 <= Property.houses p <= 4
                   /\ 0 <= Property.hotels p <= 1
                   /\ (0 < Property.hotels p -> Property.houses p = 0)) ps'.
Proof.
  induction 1 as [|ps ps1 ps2 Hstep _ IH]; [done|]. intros Hw. apply IH.
  destruct Hstep; unfold forOwned; apply Forall_fmap;
    (eapply Forall_impl; [exact Hw|]);
    intros p Hp; simpl; destruct (ownedBy _ p); simpl; (done || lia).
Qed.

Lemma wellBuilt_properties e e' :
  Engine.properties e' = Engine.properties e -> wellBuilt e -> wellBuilt e'.
Proof. unfold wellBuilt. by intros ->. Qed.

Lemma handleBuyProperty_wellBuilt tiles i confirm e e' r :
  handleBuyProperty tiles i confirm e = Ok (e', r) ->
  wellBuilt e -> wellBuilt e'.
Proof.
  unfold handleBuyProperty. intros H Hw. bind_inv H.
  destruct (tileAt tiles _); [|by destruct (Engine.properties e); invert H].
  destruct (Engine.findProperty e _) as [[k property]|]; [|by invert H].
  destruct (Property.owner property); [by invert H|].
  destruct confirm; cbn [negb] in H.
  - case_if H; invert H; [done|].
    eapply wellBuilt_properties;
      [|apply (wellBuilt_updProperty e k
                 (Property.set_owner (Some (Player.id a))));
        [by intros|exact Hw]].
    reflexivity.
  - invert H.
    destruct (startAuction_outcome k property e)
      as [->|(w & winner & _ & _ & _ & ->)]; [done|].
    eapply wellBuilt_properties;
      [|apply (wellBuilt_updProperty e k
                 (Property.set_owner (Some (Player.id winner))));
        [by intros|exact Hw]].
    reflexivity.
Qed.

Lemma executeToolCall_wellBuilt tiles dice fuel call i e e' r :
  executeToolCall tiles dice fuel call i e = Ok (e', r) ->
  wellBuilt e -> wellBuilt e'.
Proof.
  intros H Hw. unfold executeToolCall in H. bind_inv H.
  destruct call; try (by invert H).
  - apply handleRollDice_settles in H as [].
    by eapply wellBuilt_handover.
  - by eapply handleBuyProperty_wellBuilt.
  - unfold handleBuildHouse in H.
    destruct (Engine.findProperty e _) as [[k property]|] eqn:Hfind;
      [|by invert H].
    apply findProperty_lookup in Hfind.
    bind_inv H. repeat case_test H; invert H; try done.
    eapply wellBuilt_properties;
      [|apply (wellBuilt_updProperty e k); [|exact Hw]]; [reflexivity|].
    intros p Hp. rewrite Hfind in Hp. injection Hp as <-. simpl. lia.
  - unfold handleBuildHotel in H.
    destruct (Engine.findProperty e _) as [[k property]|] eqn:Hfind;
      [|by invert H].
    bind_inv H. repeat case_test H; invert H; try done.
    eapply wellBuilt_properties;
      [|apply (wellBuilt_updProperty e k); [|exact Hw]]; [reflexivity|].
    intros p Hp. simpl. lia.
  - unfold handleMortgageProperty in H.
    destruct (Engine.findProperty e _) as [[k property]|] eqn:Hfind;
      [|by invert H].
    bind_inv H. repeat case_test H; invert H; try done.
    eapply wellBuilt_properties;
      [|apply (wellBuilt_updProperty e k); [|exact Hw]]; [reflexivity|].
    by intros.
  - unfold handleUnmortgageProperty in H.
    destruct (Engine.findProperty e _) as [[k property]|] eqn:Hfind;
      [|by invert H].
    bind_inv H. repeat case_test H; invert H; try done.
    eapply wellBuilt_properties;
      [|apply (wellBuilt_updProperty e k); [|exact Hw]]; [reflexivity|].
    by intros.
  - unfold handleSellHouse in H.
    destruct (Engine.findProperty e _) as [[k property]|] eqn:Hfind;
      [|by invert H].
    apply findProperty_lookup in Hfind.
    bind_inv H. repeat case_test H; invert H; try done.
    eapply wellBuilt_properties;
      [|apply (wellBuilt_updProperty e k); [|exact Hw]]; [reflexivity|].
    intros p Hp. rewrite Hfind in Hp. injection Hp as <-. simpl. lia.
  - unfold handleSellHotel in H.
    destruct (Engine.findProperty e _) as [[k property]|] eqn:Hfind;
      [|by invert H].
    bind_inv H. repeat case_test H; invert H; try done.
    eapply wellBuilt_properties;
      [|apply (wellBuilt_updProperty e k); [|exact Hw]]; [reflexivity|].
    intros p Hp. simpl. lia.
  - unfold handlePayJailFine in H. bind_inv H.
    repeat case_if H; by invert H.
  - unfold handleUseJailCard in H. bind_inv H.
    repeat case_if H; by invert H.
  - unfold handleGetGameState in H. bind_inv H. bind_inv H. by invert H.
  - unfold handleGetPropertyInfo in H.
    by destruct (Engine.findProperty _ _); invert H.
Qed.

Lemma newGame_wellBuilt tiles players chance communityChest :
  wellBuilt (newGame tiles players chance communityChest).
Proof.
  unfold wellBuilt, newGame. simpl. apply Forall_fmap, Forall_forall.
  intros t _. simpl. lia.
Qed.

Lemma runTurns_wellBuilt tiles dice takeTurn n maxTurns fuel e e' :
  runTurns tiles dice takeTurn n maxTurns fuel e = Ok e' ->
  wellBuilt e -> wellBuilt e'.
Proof.
  apply (runTurns_keeps tiles dice takeTurn wellBuilt).
  - intros ? ? ? ? ? ?. apply executeToolCall_wellBuilt.
  - intros ? ? e1 e2 [] %handleJail_settles Hw. by eapply wellBuilt_handover.
  - intros e1 e2 []. by apply wellBuilt_properties.
  - by intros.
  - intros e1 Hw. unfold checkWinCondition.
    by destruct (filter _ _) as [|? [|? ?]].
Qed.

(** Every property carries at most four houses and at most one hotel, never
    both and never a negative number of either: every command keeps it so,
    sell_hotel included, and so it is at the end of the turns of every
    game. *)
Theorem buildings_within_bounds tiles dice :
  (forall fuel call i e e' r,
     executeToolCall tiles dice fuel call i e = Ok (e', r) ->
     wellBuilt e -> wellBuilt e')
  /\ (forall takeTurn players chance communityChest n maxTurns fuel e,
        runTurns tiles dice takeTurn n maxTurns fuel
          (newGame tiles players chance communityChest) = Ok e ->
        wellBuilt e).
Proof.
  split.
  - intros fuel call i e e' r. apply executeToolCall_wellBuilt.
  - intros takeTurn players chance communityChest n maxTurns fuel e H.
    eapply runTurns_wellBuilt; [exact H|apply newGame_wellBuilt].
Qed.

Lemma allHouses_alter e e' k f p :
  Engine.properties e !! k = Some p ->
  Engine.properties e' = alter f k (Engine.properties e) ->
  allHouses e'
  = GameState.houses (Engine.gameState e') + housesOnBoard e
    + (Property.houses (f p) - Property.houses p).
Proof.
  intros Hk He'. unfold allHouses, housesOnBoard.
  rewrite He', (sumZ_alter _ _ _ _ _ Hk). lia.
Qed.

Lemma allHotels_alter e e' k f p :
  Engine.properties e !! k = Some p ->
  Engine.properties e' = alter f k (Engine.properties e) ->
  allHotels e'
  = GameState.hotels (Engine.gameState e') + hotelsOnBoard e
    + (Property.hotels (f p) - Property.hotels p).
Proof.
  intros Hk He'. unfold allHotels, hotelsOnBoard.
  rewrite He', (sumZ_alter _ _ _ _ _ Hk). lia.
Qed.

(** The closing move for a command that changes the row [k] of the table. *)
Ltac count_buildings Hk :=
  split;
  [ erewrite (allHouses_alter _ _ _ _ _ Hk) by reflexivity
  | erewrite (allHotels_alter _ _ _ _ _ Hk) by reflexivity ];
  unfold allHouses, allHotels; simpl; lia.

Lemma handleBuyProperty_buildings tiles i confirm e e' r :
  handleBuyProperty tiles i confirm e = Ok (e', r) ->
  allHouses e' = allHouses e /\ allHotels e' = allHotels e.
Proof.
  unfold handleBuyProperty. intros H. bind_inv H.
  destruct (tileAt tiles _); [|by destruct (Engine.properties e); invert H].
  destruct (Engine.findProperty e _) as [[k property]|] eqn:Hfind;
    [|by invert H].
  apply findProperty_lookup in Hfind.
  destruct (Property.owner property); [by invert H|].
  destruct confirm; cbn [negb] in H.
  - case_if H; invert H; [done|]. count_buildings Hfind.
  - invert H.
    destruct (startAuction_outcome k property e)
      as [->|(w & winner & _ & _ & _ & ->)]; [done|].
    count_buildings Hfind.
Qed.

Lemma commands_conserve_buildings_aux tiles dice fuel call i e e' r :
  call <> roll_dice ->
  wellBuilt e ->
  executeToolCall tiles dice fuel call i e = Ok (e', r) ->
  allHouses e' = allHouses e /\ allHotels e' = allHotels e.
Proof.
  intros Hcall Hw H. unfold executeToolCall in H. bind_inv H.
  destruct call; try done; try (by invert H).
  - by eapply handleBuyProperty_buildings.
  - unfold handleBuildHouse in H.
    destruct (Engine.findProperty e _) as [[k property]|] eqn:Hfind;
      [|by invert H].
    apply findProperty_lookup in Hfind.
    pose proof (proj1 (Forall_forall _ _) Hw _
                  (list_elem_of_lookup_2 _ _ _ Hfind)) as (? & ? & ?).
    bind_inv H. repeat case_test H; invert H; try done.
    repeat match goal with
      | H : negb _ = false |- _ => apply negb_false_iff in H
      end.
    count_buildings Hfind.
  - unfold handleBuildHotel in H.
    destruct (Engine.findProperty e _) as [[k property]|] eqn:Hfind;
      [|by invert H].
    apply findProperty_lookup in Hfind.
    pose proof (proj1 (Forall_forall _ _) Hw _
                  (list_elem_of_lookup_2 _ _ _ Hfind)) as (? & ? & ?).
    bind_inv H. repeat case_test H; invert H; try done.
    repeat match goal with
      | H : negb _ = false |- _ => apply negb_false_iff in H
      end.
    count_buildings Hfind.
  - unfold handleMortgageProperty in H.
    destruct (Engine.findProperty e _) as [[k property]|] eqn:Hfind;
      [|by invert H].
    apply findProperty_lookup in Hfind.
    pose proof (proj1 (Forall_forall _ _) Hw _
                  (list_elem_of_lookup_2 _ _ _ Hfind)) as (? & ? & ?).
    bind_inv H. repeat case_test H; invert H; try done.
    repeat match goal with
      | H : negb _ = false |- _ => apply negb_false_iff in H
      end.
    count_buildings Hfind.
  - unfold handleUnmortgageProperty in H.
    destruct (Engine.findProperty e _) as [[k property]|] eqn:Hfind;
      [|by invert H].
    apply findProperty_lookup in Hfind.
    pose proof (proj1 (Forall_forall _ _) Hw _
                  (list_elem_of_lookup_2 _ _ _ Hfind)) as (? & ? & ?).
    bind_inv H. repeat case_test H; invert H; try done.
    repeat match goal with
      | H : negb _ = false |- _ => apply negb_false_iff in H
      end.
    count_buildings Hfind.
  - unfold handleSellHouse in H.
    destruct (Engine.findProperty e _) as [[k property]|] eqn:Hfind;
      [|by invert H].
    apply findProperty_lookup in Hfind.
    pose proof (proj1 (Forall_forall _ _) Hw _
                  (list_elem_of_lookup_2 _ _ _ Hfind)) as (? & ? & ?).
    bind_inv H. repeat case_test H; invert H; try done.
    repeat match goal with
      | H : negb _ = false |- _ => apply negb_false_iff in H
      end.
    count_buildings Hfind.
  - unfold handleSellHotel in H.
    destruct (Engine.findProperty e _) as [[k property]|] eqn:Hfind;
      [|by invert H].
    apply findProperty_lookup in Hfind.
    pose proof (proj1 (Forall_forall _ _) Hw _
                  (list_elem_of_lookup_2 _ _ _ Hfind)) as (? & ? & ?).
    bind_inv H. repeat case_test H; invert H; try done.
    repeat match goal with
      | H : negb _ = false |- _ => apply negb_false_iff in H
      end.
    count_buildings Hfind.
  - unfold handlePayJailFine in H. bind_inv H.
    repeat case_if H; by invert H.
  - unfold handleUseJailCard in H. bind_inv H.
    repeat case_if H; by invert H.
  - unfold handleGetGameState in H. bind_inv H. bind_inv H. by invert H.
  - unfold handleGetPropertyInfo in H.
    by destruct (Engine.findProperty _ _); invert H.
Qed.


(** While the buildings are within bounds, no command but roll_dice makes or
    loses a building: the houses in the bank and on the board together are as
    many after it as before, and so are the hotels. *)
Theorem commands_conserve_buildings tiles dice fuel call i e e' r :
  call <> roll_dice ->
  wellBuilt e ->
  executeToolCall tiles dice fuel call i e = Ok (e', r) ->
  allHouses e' = allHouses e /\ allHotels e' = allHotels e.
Proof. apply commands_conserve_buildings_aux. Qed.

Lemma sumZ_fmap_le {A} (g : A -> Z) (h : A -> A) (l : list A) :
  Forall (fun x => g (h x) <= g x) l -> sumZ (g <$> (h <$> l)) <= sumZ (g <$> l).
Proof.
  unfold sumZ. induction 1 as [|x l Hx _ IH]; csimpl; lia.
Qed.

Lemma handover_buildings ps ps' :
  rtc handover ps ps' ->
  Forall (fun p => 0 <= Property.houses p <= 4
                   /\ 0 <= Property.hotels p <= 1
                   /\ (0 < Property.hotels p -> Property.houses p = 0)) ps ->
  sumZ (Property.houses <$> ps') <= sumZ (Property.houses <$> ps)
  /\ sumZ (Property.hotels <$> ps') <= sumZ (Property.hotels <$> ps).
Proof.
  induction 1 as [|ps ps1 ps2 Hstep Hrun IH]; [lia|]. intros Hw.
  destruct IH as [IH1 IH2].
  { eapply wellBuilt_handover; [by apply rtc_once|exact Hw]. }
  assert (Hstep1 :
    sumZ (Property.houses <$> ps1) <= sumZ (Property.houses <$> ps)
    /\ sumZ (Property.hotels <$> ps1) <= sumZ (Property.hotels <$> ps)).
  { destruct Hstep; unfold forOwned; split; apply sumZ_fmap_le;
      (eapply Forall_impl; [exact Hw|]);
      intros p Hp; simpl in *; destruct (ownedBy _ p); simpl; lia. }
  lia.
Qed.

Lemma settles_buildings e e' :
  settles e e' -> wellBuilt e ->
  allHouses e' <= allHouses e /\ allHotels e' <= allHotels e.
Proof.
  intros [] Hw. unfold allHouses, allHotels, housesOnBoard, hotelsOnBoard.
  destruct (handover_buildings _ _ settles_table0 Hw). lia.
Qed.

Lemma executeToolCall_buildings tiles dice fuel call i e e' r :
  wellBuilt e ->
  executeToolCall tiles dice fuel call i e = Ok (e', r) ->
  allHouses e' <= allHouses e /\ allHotels e' <= allHotels e.
Proof.
  intros Hw H.
  assert (Hcases : call = roll_dice \/ call <> roll_dice)
    by (destruct call; (by left) || (by right)).
  destruct Hcases as [->|Hcall].
  - unfold executeToolCall in H. bind_inv H.
    apply settles_buildings; [|exact Hw]. by eapply handleRollDice_settles.
  - destruct (commands_conserve_buildings_aux _ _ _ _ _ _ _ _ Hcall Hw H). lia.
Qed.

Lemma sumZ_zero {A} (h : A -> Z) (l : list A) :
  (forall x, h x = 0) -> sumZ (h <$> l) = 0.
Proof.
  intros Hh. unfold sumZ. induction l as [|x l IH]; csimpl; [done|].
  rewrite Hh, IH. lia.
Qed.

Lemma newGame_buildings tiles players chance communityChest :
  allHouses (newGame tiles players chance communityChest) = 32
  /\ allHotels (newGame tiles players chance communityChest) = 12.
Proof.
  unfold allHouses, allHotels, housesOnBoard, hotelsOnBoard, newGame,
    Engine.properties.
  cbn [Engine.gameState GameState.properties GameState.houses
       GameState.hotels].
  rewrite <- !list_fmap_compose. by rewrite !sumZ_zero.
Qed.

Lemma handleBuyProperty_hotels_in_bank tiles i confirm e e' r :
  handleBuyProperty tiles i confirm e = Ok (e', r) ->
  GameState.hotels (Engine.gameState e')
  = GameState.hotels (Engine.gameState e).
Proof.
  unfold handleBuyProperty. intros H. bind_inv H.
  destruct (tileAt tiles _); [|by destruct (Engine.properties e); invert H].
  destruct (Engine.findProperty e _) as [[k property]|]; [|by invert H].
  destruct (Property.owner property); [by invert H|].
  destruct confirm; cbn [negb] in H.
  - by case_if H; invert H.
  - invert H.
    by destruct (startAuction_outcome k property e)
      as [->|(w & winner & _ & _ & _ & ->)].
Qed.

(** The bank never runs short of hotels: [handleBuildHotel] takes one only
    when the bank has one. *)
Lemma executeToolCall_hotels_in_bank tiles dice fuel call i e e' r :
  executeToolCall tiles dice fuel call i e = Ok (e', r) ->
  0 <= GameState.hotels (Engine.gameState e) ->
  0 <= GameState.hotels (Engine.gameState e').
Proof.
  intros H Hbank. unfold executeToolCall in H. bind_inv H.
  destruct call; try (by invert H).
  - apply handleRollDice_settles in H as []. congruence.
  - apply handleBuyProperty_hotels_in_bank in H. congruence.
  - unfold handleBuildHouse in H.
    destruct (Engine.findProperty e _) as [[k property]|]; [|by invert H].
    bind_inv H. repeat case_test H; invert H; try done; simpl; lia.
  - unfold handleBuildHotel in H.
    destruct (Engine.findProperty e _) as [[k property]|]; [|by invert H].
    bind_inv H. repeat case_test H; invert H; try done; simpl; lia.
  - unfold handleMortgageProperty in H.
    destruct (Engine.findProperty e _) as [[k property]|]; [|by invert H].
    bind_inv H. repeat case_test H; invert H; try done; simpl; lia.
  - unfold handleUnmortgageProperty in H.
    destruct (Engine.findProperty e _) as [[k property]|]; [|by invert H].
    bind_inv H. repeat case_test H; invert H; try done; simpl; lia.
  - unfold handleSellHouse in H.
    destruct (Engine.findProperty e _) as [[k property]|]; [|by invert H].
    bind_inv H. repeat case_test H; invert H; try done; simpl; lia.
  - unfold handleSellHotel in H.
    destruct (Engine.findProperty e _) as [[k property]|]; [|by invert H].
    bind_inv H. repeat case_test H; invert H; try done; simpl; lia.
  - unfold handlePayJailFine in H. bind_inv H.
    by repeat case_test H; invert H.
  - unfold handleUseJailCard in H. bind_inv H.
    by repeat case_test H; invert H.
  - unfold handleGetGameState in H. bind_inv H. bind_inv H. by invert H.
  - unfold handleGetPropertyInfo in H.
    by destruct (Engine.findProperty _ _); invert H.
Qed.

(** The engine counts its buildings: the bank's counter plus the
    buildings that stand on the board.  While the buildings are within bounds
    no command raises this count, for houses or for hotels; in every game
    started by the constructor it is at most 32 for houses and 12 for hotels;
    and the bank's hotel counter never falls below 0, so that at most 12
    hotels stand on the board.  Nothing of the kind is stated for the houses
    on the board: [handleSellHotel] takes four houses from the bank's counter
    without looking at it, and the counter may fall below 0. *)
Theorem building_stock_never_grows tiles dice :
  (forall fuel call i e e' r,
     wellBuilt e ->
     executeToolCall tiles dice fuel call i e = Ok (e', r) ->
     allHouses e' <= allHouses e /\ allHotels e' <= allHotels e)
  /\ (forall takeTurn players chance communityChest n maxTurns fuel e,
        runTurns tiles dice takeTurn n maxTurns fuel
          (newGame tiles players chance communityChest) = Ok e ->
        allHouses e <= 32 /\ allHotels e <= 12
        /\ 0 <= GameState.hotels (Engine.gameState e)
        /\ 0 <= hotelsOnBoard e <= 12).
Proof.
  split.
  - intros fuel call i e e' r. apply executeToolCall_buildings.
  - intros takeTurn players chance communityChest n maxTurns fuel e H.
    assert (Hinv : wellBuilt e
                   /\ allHouses e <= 32 /\ allHotels e <= 12
                   /\ 0 <= GameState.hotels (Engine.gameState e)).
    { eapply (runTurns_keeps tiles dice takeTurn
                (fun e => wellBuilt e
                          /\ allHouses e <= 32 /\ allHotels e <= 12
                          /\ 0 <= GameState.hotels (Engine.gameState e)));
        [..|exact H|].
      + intros ? ? ? e1 e2 ? Hcall (Hw & Hhouses & Hhotels & Hbank).
        split; [by eapply executeToolCall_wellBuilt|].
        destruct (executeToolCall_buildings _ _ _ _ _ _ _ _ Hw Hcall).
        pose proof (executeToolCall_hotels_in_bank _ _ _ _ _ _ _ _ Hcall
                      Hbank).
        lia.
      + intros ? ? e1 e2 Hjail%handleJail_settles
          (Hw & Hhouses & Hhotels & Hbank).
        split; [destruct Hjail; by eapply wellBuilt_handover|].
        destruct (settles_buildings _ _ Hjail Hw).
        destruct Hjail. lia.
      + intros e1 e2 [] (Hw & Hstock). split.
        * by eapply wellBuilt_properties.
        * unfold allHouses, allHotels, housesOnBoard, hotelsOnBoard in *.
          by rewrite books_properties0, books_houses0, books_hotels0.
      + by intros.
      + intros e1 Hinv. unfold checkWinCondition.
        by destruct (filter _ _) as [|? [|? ?]].
      + split; [apply newGame_wellBuilt|].
        destruct (newGame_buildings tiles players chance communityChest).
        simpl. lia. }
    destruct Hinv as (Hw & Hhouses & Hhotels & Hbank).
    split_and!; try done.
    + unfold hotelsOnBoard. clear -Hw. unfold wellBuilt in Hw.
      induction Hw as [|p ps Hp _ IH]; [done|].
      unfold sumZ in *. csimpl. lia.
    + unfold allHotels in Hhotels. lia.
Qed.

(** ** The verdict of a benchmark run *)

Lemma playTurn_verdict tiles dice takeTurn fuel e e' :
  playTurn tiles dice takeTurn fuel e = Ok e' ->
  GameState.gameOver (Engine.gameState e')
  = GameState.gameOver (Engine.gameState e)
  /\ GameState.winner (Engine.gameState e')
     = GameState.winner (Engine.gameState e).
Proof.
  intros H.
  eapply (playTurn_keeps tiles dice takeTurn
            (fun e1 => GameState.gameOver (Engine.gameState e1)
                       = GameState.gameOver (Engine.gameState e)
                       /\ GameState.winner (Engine.gameState e1)
                          = GameState.winner (Engine.gameState e)));
    [..|exact H|done].
  - intros ? ? ? e1 e2 ? [_ []]%executeToolCall_steady [? ?].
    split; congruence.
  - intros ? ? e1 e2 []%handleJail_settles [? ?]. split; congruence.
  - intros e1 e2 [] [? ?]. split; congruence.
  - by intros.
Qed.

Lemma runTurns_verdict tiles dice takeTurn n maxTurns fuel : forall e e',
  runTurns tiles dice takeTurn n maxTurns fuel e = Ok e' ->
  GameState.gameOver (Engine.gameState e) = false ->
  (GameState.gameOver (Engine.gameState e') = true
   /\ exists p, solvent e' = [p]
                /\ GameState.winner (Engine.gameState e')
                   = Some (Player.name p))
  \/ (GameState.gameOver (Engine.gameState e') = false
      /\ GameState.winner (Engine.gameState e')
         = GameState.winner (Engine.gameState e)
      /\ maxTurns <= GameState.turn (Engine.gameState e')).
Proof.
  induction n as [|n IH]; intros e e' H Hopen; simpl in H; rewrite Hopen in H;
    cbn [orb] in H; case_test H.
  - invert H. right. split_and!; [done|done|lia].
  - discriminate.
  - invert H. right. split_and!; [done|done|lia].
  - bind_inv H. destruct (playTurn_verdict _ _ _ _ _ _ Ha) as [Hover Hwinner].
    rewrite Hopen in Hover.
    unfold checkWinCondition in H. fold (solvent a) in H.
    destruct (solvent a) as [|p [|q l]] eqn:Hsolvent.
    + destruct (IH _ _ H Hover) as [?|(? & Hw & ?)]; [by left|right].
      by rewrite Hw, Hwinner.
    + invert H. left. split; [done|]. exists p. split; [exact Hsolvent|done].
    + destruct (IH _ _ H Hover) as [?|(? & Hw & ?)]; [by left|right].
      by rewrite Hw, Hwinner.
Qed.

(** When [runBenchmark] comes back, either the game is closed and the winner
    is a solvent player, the only one left or, at the turn limit, the first
    with the largest net worth, which is positive: every solvent player before
    it in the order of the table has a strictly smaller net worth, and none
    has a larger one; or the turn limit is reached, no solvent player has a
    positive net worth, and the game is left open with no winner named. *)
Theorem benchmark_verdict tiles dice takeTurn n maxTurns fuel e e' :
  GameState.gameOver (Engine.gameState e) = false ->
  runBenchmark tiles dice takeTurn n maxTurns fuel e = Ok e' ->
  (GameState.gameOver (Engine.gameState e') = true
   /\ exists p,
        p ∈ solvent e'
        /\ GameState.winner (Engine.gameState e') = Some (Player.name p)
        /\ (solvent e' = [p]
            \/ (maxTurns <= GameState.turn (Engine.gameState e')
                /\ 0 < calculateNetWorth e' p
                /\ (forall q, q ∈ solvent e' ->
                      calculateNetWorth e' q <= calculateNetWorth e' p)
                /\ exists k,
                     solvent e' !! k = Some p
                     /\ forall k' q, (k' < k)%nat ->
                          solvent e' !! k' = Some q ->
                          calculateNetWorth e' q < calculateNetWorth e' p)))
  \/ (GameState.gameOver (Engine.gameState e') = false
      /\ GameState.winner (Engine.gameState e')
         = GameState.winner (Engine.gameState e)
      /\ maxTurns <= GameState.turn (Engine.gameState e')
      /\ forall q, q ∈ solvent e' -> calculateNetWorth e' q <= 0).
Proof.
  intros Hopen H. unfold runBenchmark in H.
  apply bind_Ok_inv in H as (e1 & Hrun & H).
  apply runTurns_verdict in Hrun; [|exact Hopen].
  change (GameState.winner (Engine.gameState (Engine.log "GAME_START" e)))
    with (GameState.winner (Engine.gameState e)) in Hrun.
  case_test H; invert H.
  - set (e2 := Engine.log "MAX_TURNS_REACHED" e1).
    pose proof (richest_spec e2) as Hrich. unfold determineWinnerByNetWorth.
    assert (Hturn : maxTurns <= GameState.turn (Engine.gameState e1)) by lia.
    destruct (richest e2).2 as [best|].
    + left. split; [done|]. exists best.
      destruct Hrich as (k & Hk & _ & Hpos & Hmax & Hfirst).
      split_and!.
      * by eapply list_elem_of_lookup_2.
      * done.
      * right. split_and!; [done|done|done|]. exists k. by split.
    + destruct Hrich as [_ Hnone].
      destruct Hrun as [(Hover & p & Hp & Hw)|(Hover & Hw & _)].
      * left. split; [exact Hover|]. exists p. split_and!.
        -- change (solvent e2) with (solvent e1). rewrite Hp. left.
        -- exact Hw.
        -- by left.
      * right. split_and!; done.
  - destruct Hrun as [(Hover & p & Hp & Hw)|(Hover & Hw & ?)]; [|lia].
    left. split; [exact Hover|]. exists p. split_and!.
    + rewrite Hp. left.
    + exact Hw.
    + by left.
Qed.

(** ** The decisions asked in a turn *)

Lemma runToolCalls_sameTurn tiles dice fuel i calls : forall e e' ended,
  runToolCalls tiles dice fuel i calls e = Ok (e', ended) -> sameTurn e e'.
Proof.
  induction calls as [|call calls IH]; intros e e' ended H.
  - by invert H.
  - simpl in H. bind_inv H. destruct a as [e1 result]. bind_inv H.
    apply executeToolCall_steady in Ha as [_ Hturn].
    case_if H; [by invert H|]. etrans; [exact Hturn|eauto].
Qed.

Lemma asked_lookup e e' i a :
  Agent.turnInteractionCount <$> Engine.agents e'
  = Agent.turnInteractionCount <$> Engine.agents e ->
  Engine.agents e !! i = Some a ->
  exists a', Engine.agents e' !! i = Some a'
             /\ Agent.turnInteractionCount a' = Agent.turnInteractionCount a.
Proof.
  intros Heq Ha.
  assert (H : (Agent.turnInteractionCount <$> Engine.agents e') !! i
              = Some (Agent.turnInteractionCount a))
    by (by rewrite Heq, list_lookup_fmap, Ha).
  rewrite list_lookup_fmap in H.
  destruct (Engine.agents e' !! i) as [a'|]; [|discriminate].
  injection H as H. by exists a'.
Qed.

Lemma decisionLoop_asked tiles dice takeTurn n fuel i :
  forall empties e e' agent,
    decisionLoop tiles dice takeTurn n fuel i empties e = Ok e' ->
    Engine.agents e !! i = Some agent ->
    Z.of_nat (Engine.interactions e')
    <= Z.of_nat (Engine.interactions e)
       + Z.max 1 (21 - Agent.turnInteractionCount agent).
Proof.
  induction n as [|n IH]; intros empties e e' agent H Hagent; simpl in H;
    apply bind_Ok_inv in H as (player & _ & H).
  - case_if H; [invert H; lia|discriminate].
  - case_if H; [invert H; lia|].
    unfold requestDecision in H.
    apply bind_Ok_inv in H as ([[e1 ended] empties1] & Hround & H).
    apply bind_Ok_inv in H as (agent1 & Hagent1 & H).
    set (e0 := Engine.set_interactions (S (Engine.interactions e))
                 (Engine.set_agents
                    (alter Agent.countInteraction i (Engine.agents e)) e))
      in *.
    assert (Hagent0 : Engine.agents e0 !! i
                      = Some (Agent.countInteraction agent))
      by (simpl; by rewrite list_lookup_alter_eq, Hagent).
    assert (Hturn : sameTurn e0 e1).
    { destruct (takeTurn _ _) as [|call calls]; [by invert Hround|].
      apply bind_Ok_inv in Hround as ([e2 ended2] & Hrun & Hround).
      invert Hround. by eapply runToolCalls_sameTurn. }
    destruct Hturn as [_ _ _ _ Hasked Hinteractions].
    destruct (asked_lookup _ _ _ _ Hasked Hagent0) as (a1 & Ha1 & Hcount).
    unfold defined in Hagent1. rewrite Ha1 in Hagent1. injection Hagent1 as <-.
    simpl in Hcount.
    case_test H.
    + invert H. rewrite Hinteractions. simpl. lia.
    + specialize (IH _ _ _ _ H Ha1). rewrite Hinteractions in IH. simpl in IH.
      apply orb_false_iff in Heqb as [_ Hfew]. lia.
Qed.

Lemma nextPlayer_interactions e e' :
  nextPlayer e = Ok e' -> Engine.interactions e' = Engine.interactions e.
Proof.
  unfold nextPlayer. by intros (j & _ & ->)%nextPlayerLoop_handedTo.
Qed.

(** A turn asks its agent for a decision at most 21 times: the request that
    brings the agent's count of the turn above 20 is the last. *)
Theorem turn_asks_at_most_21_times tiles dice takeTurn fuel e e' :
  playTurn tiles dice takeTurn fuel e = Ok e' ->
  (Engine.interactions e' <= Engine.interactions e + 21)%nat.
Proof.
  unfold playTurn. intros H.
  apply bind_Ok_inv in H as (player & _ & H).
  apply bind_Ok_inv in H as (agent & Hagent & H).
  unfold getCurrentAgent, defined in Hagent.
  set (i := GameState.currentPlayerIndex (Engine.gameState e)) in *.
  destruct (Engine.agents e !! i) as [a|] eqn:Ha; [|discriminate].
  assert (Hreset : Engine.agents (beginTurn e) !! i
                   = Some (Agent.resetForNewTurn a))
    by (simpl; fold i; by rewrite list_lookup_alter_eq, Ha).
  assert (Hloop : forall e1 e2,
            Agent.turnInteractionCount <$> Engine.agents e1
            = Agent.turnInteractionCount <$> Engine.agents (beginTurn e) ->
            Engine.interactions e1 = Engine.interactions e ->
            decisionLoop tiles dice takeTurn fuel fuel i 0 e1 = Ok e2 ->
            (Engine.interactions e2 <= Engine.interactions e + 21)%nat).
  { intros e1 e2 Hasked Hsame Hrun.
    destruct (asked_lookup _ _ _ _ Hasked Hreset) as (a1 & Ha1 & Hcount).
    pose proof (decisionLoop_asked _ _ _ _ _ _ _ _ _ _ Hrun Ha1) as Hle.
    rewrite Hcount, Hsame in Hle. simpl in Hle. lia. }
  case_if H.
  - apply bind_Ok_inv in H as (e1 & Hjail & H).
    apply handleJail_settles in Hjail as [].
    apply bind_Ok_inv in H as (player1 & _ & H).
    case_if H.
    + apply nextPlayer_interactions in H. rewrite H, settles_interactions0.
      simpl. lia.
    + apply bind_Ok_inv in H as (e2 & Hrun & H).
      apply nextPlayer_interactions in H. rewrite H.
      by eapply Hloop.
  - apply bind_Ok_inv in H as (e2 & Hrun & H).
    apply nextPlayer_interactions in H. rewrite H.
    by eapply Hloop.
Qed.

(** ** The further properties on the sample game *)

Lemma nextPlayer_first_solvent_witness :
  exists k,
    (1 <= k <= length (Engine.players Sample.start))%nat
    /\ nextPlayer Sample.start = Ok (handedTo (seat Sample.start k) Sample.start)
    /\ solventAt Sample.start (seat Sample.start k)
    /\ forall k', (1 <= k' < k)%nat -> bankruptAt Sample.start (seat Sample.start k').
Proof.
  apply (nextPlayer_first_solvent Sample.start);
    [reflexivity|simpl; lia|discriminate].
Defined.

Lemma nextPlayer_all_bankrupt_witness :
  nextPlayer
    (Engine.setPlayers (Player.set_bankrupt true <$> Sample.players)
       Sample.start)
  = Raise Diverges.
Proof.
  apply nextPlayer_all_bankrupt; [discriminate|reflexivity|].
  repeat constructor.
Defined.

Lemma rent_conserves_cash_witness :
  exists e',
    handlePropertyLanding 1
      (Sample.street 3 "Baltic Avenue" "Brown" 60 4 20 60 180 320 450 50)
      Play.brownBuilt = Ok e'
    /\ cash e' = cash Play.brownBuilt.
Proof.
  eexists. split; [vm_compute; reflexivity|].
  eapply (rent_conserves_cash 1
            (Sample.street 3 "Baltic Avenue" "Brown" 60 4 20 60 180 320 450 50)
            Play.brownBuilt).
  vm_compute. reflexivity.
Defined.

Lemma brownBuilt_fairPrices : fairPrices Play.brownBuilt.
Proof. apply (bool_decide_unpack _). vm_compute. exact I. Qed.

Lemma brownBuilt_covered : covered Play.brownBuilt.
Proof. apply (bool_decide_unpack _). vm_compute. exact I. Qed.

Lemma brownBuilt_wellBuilt : wellBuilt Play.brownBuilt.
Proof. apply (bool_decide_unpack _). vm_compute. exact I. Qed.

Lemma build_hotel_on_brown :
  executeToolCall Sample.tiles Play.dice 0 (build_hotel (Some 1)) 0
    Play.brownBuilt
  = Ok (Play.brownHotel, Result.ok).
Proof. vm_compute. reflexivity. Qed.

Lemma commands_never_overdraw_witness : covered Play.brownHotel.
Proof.
  eapply (commands_never_overdraw Sample.tiles Play.dice 0
            (build_hotel (Some 1)) 0 Play.brownBuilt Play.brownHotel Result.ok).
  - discriminate.
  - exact brownBuilt_fairPrices.
  - exact build_hotel_on_brown.
  - exact brownBuilt_covered.
Defined.

Lemma hotel_round_trip_witness :
  exists e2,
    executeToolCall Sample.tiles Play.dice 0 (sell_hotel (Some 1)) 0
      Play.brownHotel = Ok (e2, Result.ok)
    /\ Engine.properties e2 = Engine.properties Play.brownBuilt
    /\ GameState.houses (Engine.gameState e2) = 24
    /\ GameState.hotels (Engine.gameState e2) = 12.
Proof.
  edestruct (hotel_round_trip Sample.tiles Play.dice 0 0 (Some 1)
               Play.brownBuilt Play.brownHotel Result.ok)
    as (e2 & Hsell & Htable & Hhouses & Hhotels & _).
  - vm_compute. reflexivity.
  - vm_compute. reflexivity.
  - reflexivity.
  - exact build_hotel_on_brown.
  - reflexivity.
  - exists e2. split_and!; [exact Hsell|exact Htable|exact Hhouses|exact Hhotels].
Defined.


Lemma brownAlmostBuilt_wellBuilt : wellBuilt brownAlmostBuilt.
Proof. apply (bool_decide_unpack _). vm_compute. exact I. Qed.

Lemma brownAlmostBuilt_even : evenHousesOffHotels brownAlmostBuilt.
Proof.
  apply evenHouses_off_hotels, evenHouses_Forall.
  apply (bool_decide_unpack _). vm_compute. exact I.
Qed.

Lemma house_round_trip_witness :
  exists e2,
    executeToolCall Sample.tiles Play.dice 0 (sell_house (Some 3)) 0
      brownRebuilt = Ok (e2, Result.ok)
    /\ Engine.properties e2 = Engine.properties brownAlmostBuilt.
Proof.
  edestruct (house_round_trip Sample.tiles Play.dice 0 0 (Some 3)
               brownAlmostBuilt brownRebuilt Result.ok)
    as (e2 & Hback & Htable & _).
  - exact brownAlmostBuilt_wellBuilt.
  - exact brownAlmostBuilt_even.
  - vm_compute. reflexivity.
  - vm_compute. reflexivity.
  - vm_compute. reflexivity.
  - reflexivity.
  - exists e2. split; [exact Hback|exact Htable].
Defined.

Lemma roll_settles_witness :
  exists e' r,
    executeToolCall Sample.tiles Play.dice 30 roll_dice 0 Sample.start
    = Ok (e', r)
    /\ settles Sample.start e'.
Proof.
  do 2 eexists. split; [vm_compute; reflexivity|].
  eapply (proj1 (roll_settles Sample.tiles Play.dice 30 0 Sample.start)).
  vm_compute. reflexivity.
Defined.

Lemma commands_keep_the_cast_witness :
  sameCast Play.brownBuilt Play.brownHotel
  /\ sameTurn Play.brownBuilt Play.brownHotel.
Proof.
  exact (commands_keep_the_cast Sample.tiles Play.dice 0
           (build_hotel (Some 1)) 0 Play.brownBuilt Play.brownHotel Result.ok
           build_hotel_on_brown).
Defined.

Lemma game_keeps_the_cast_witness :
  exists e,
    runTurns Sample.tiles Play.dice Play.takeTurn 10 10 30 Sample.start = Ok e
    /\ sameCast Sample.start e.
Proof.
  eexists. split; [vm_compute; reflexivity|].
  eapply proj1,
    (game_keeps_the_cast Sample.tiles Play.dice Play.takeTurn 10 10 30).
  vm_compute. reflexivity.
Defined.

Lemma buildings_within_bounds_witness :
  wellBuilt Play.brownHotel
  /\ exists e,
       runTurns Sample.tiles Play.dice Play.takeTurn 10 10 30 Sample.start
       = Ok e
       /\ wellBuilt e.
Proof.
  split.
  - exact (proj1 (buildings_within_bounds Sample.tiles Play.dice) 0%nat
             (build_hotel (Some 1)) 0%nat Play.brownBuilt Play.brownHotel
             Result.ok build_hotel_on_brown brownBuilt_wellBuilt).
  - eexists. split; [vm_compute; reflexivity|].
    eapply (proj2 (buildings_within_bounds Sample.tiles Play.dice)
              Play.takeTurn Sample.players Sample.chance Sample.communityChest
              10%nat 10 30%nat).
    vm_compute. reflexivity.
Defined.

Lemma commands_conserve_buildings_witness :
  allHouses Play.brownHotel = allHouses Play.brownBuilt
  /\ allHotels Play.brownHotel = allHotels Play.brownBuilt.
Proof.
  eapply (commands_conserve_buildings Sample.tiles Play.dice 0
            (build_hotel (Some 1)) 0 Play.brownBuilt Play.brownHotel Result.ok).
  - discriminate.
  - exact brownBuilt_wellBuilt.
  - exact build_hotel_on_brown.
Defined.

Lemma building_stock_never_grows_witness :
  (allHouses Play.brownHotel <= allHouses Play.brownBuilt
   /\ allHotels Play.brownHotel <= allHotels Play.brownBuilt)
  /\ exists e,
       runTurns Sample.tiles Play.dice Play.takeTurn 10 10 30 Sample.start
       = Ok e
       /\ allHouses e <= 32 /\ allHotels e <= 12
       /\ 0 <= GameState.hotels (Engine.gameState e)
       /\ 0 <= hotelsOnBoard e <= 12.
Proof.
  split.
  - exact (proj1 (building_stock_never_grows Sample.tiles Play.dice) 0%nat
             (build_hotel (Some 1)) 0%nat Play.brownBuilt Play.brownHotel
             Result.ok brownBuilt_wellBuilt build_hotel_on_brown).
  - eexists. split; [vm_compute; reflexivity|].
    eapply (proj2 (building_stock_never_grows Sample.tiles Play.dice)
              Play.takeTurn Sample.players Sample.chance Sample.communityChest
              10%nat 10 30%nat).
    vm_compute. reflexivity.
Defined.

Lemma benchmark_verdict_witness :
  exists e',
    runBenchmark Sample.tiles Play.dice Play.takeTurn 10 10 30 Sample.start
    = Ok e'
    /\ GameState.gameOver (Engine.gameState e') = true
    /\ GameState.winner (Engine.gameState e') = Some "GPT OSS 120B".
Proof.
  eexists. split; [vm_compute; reflexivity|].
  edestruct (benchmark_verdict Sample.tiles Play.dice Play.takeTurn 10 10 30
               Sample.start)
    as [(Hover & p & _ & Hwinner & _)|(Hopen & _)].
  - reflexivity.
  - vm_compute. reflexivity.
  - split; [exact Hover|reflexivity].
  - discriminate Hopen.
Defined.

Lemma turn_asks_at_most_21_times_witness :
  exists e',
    playTurn Sample.tiles Play.dice Play.takeTurn 30 Sample.start = Ok e'
    /\ (Engine.interactions e' <= Engine.interactions Sample.start + 21)%nat.
Proof.
  eexists. split; [vm_compute; reflexivity|].
  eapply (turn_asks_at_most_21_times Sample.tiles Play.dice Play.takeTurn 30).
  vm_compute. reflexivity.
Defined.

(** ** No [TypeError]

    On a regular board, with regular dice and decks, every index the engine
    uses is in range: it reads a field of a missing value only when a command
    comes with arguments that parse to [null]. *)

Lemma safe_bind {A B} (m : res A) (k : A -> res B) (Q : A -> Prop)
  (R : B -> Prop) :
  safe m Q -> (forall a, Q a -> safe (k a) R) -> safe (m ≫= k) R.
Proof. destruct m as [a|[]]; simpl; eauto. Qed.

Lemma safe_mono {A} (m : res A) (Q R : A -> Prop) :
  safe m Q -> (forall a, Q a -> R a) -> safe m R.
Proof. destruct m as [a|[]]; simpl; eauto. Qed.

Lemma safe_Ok {A} (m : res A) (Q : A -> Prop) a :
  safe m Q -> m = Ok a -> Q a.
Proof. by intros H ->. Qed.

Lemma ready_player n e i :
  ready n e -> (i < n)%nat ->
  exists p, Engine.players e !! i = Some p /\ regularPlayer p.
Proof.
  intros [] Hi.
  destruct (lookup_lt_is_Some_2 (Engine.players e) i) as [p Hp]; [lia|].
  exists p. split; [exact Hp|].
  by eapply (proj1 (Forall_forall _ _) ready_regular0), list_elem_of_lookup_2.
Qed.

Lemma board_tile tiles pos :
  regularBoard tiles -> onBoard pos ->
  exists tile, tileAt tiles pos = Some tile /\ onBoard (Tile.location tile).
Proof.
  intros [Hlen Hloc] Hpos.
  destruct (tileAt_board tiles pos Hlen Hpos) as [tile Htile].
  exists tile. split; [exact Htile|].
  unfold tileAt in Htile. destruct (pos <? 0); [discriminate|].
  by eapply (proj1 (Forall_forall _ _) Hloc), list_elem_of_lookup_2.
Qed.

Lemma Forall_filtered {A} (P Q : A -> Prop) `{forall x, Decision (Q x)}
  (l : list A) :
  Forall P l -> Forall P (filter Q l).
Proof.
  rewrite !Forall_forall. intros Hl x [_ Hx]%list_elem_of_filter. by apply Hl.
Qed.

(** The steps of the engine that keep it ready. *)
Lemma ready_log n e action : ready n e -> ready n (Engine.log action e).
Proof. by intros []. Qed.

Lemma ready_set_rolls n e k : ready n e -> ready n (Engine.set_rolls k e).
Proof. by intros []. Qed.

Lemma ready_set_lastCardDrawn n e c :
  ready n e -> ready n (Engine.set_lastCardDrawn c e).
Proof. by intros []. Qed.

Lemma ready_updBank n e dHouses dHotels :
  ready n e -> ready n (Engine.updBank dHouses dHotels e).
Proof. by intros []. Qed.

Lemma ready_updPlayer n e i f :
  (forall p, Engine.players e !! i = Some p -> regularPlayer p ->
     regularPlayer (f p)) ->
  ready n e -> ready n (Engine.updPlayer i f e).
Proof.
  intros Hf []. split; try done.
  - by rewrite players_updPlayer, length_alter.
  - rewrite players_updPlayer. by apply Forall_alter.
Qed.

Lemma ready_updProperty n e k f :
  (forall p, Property.tile (f p) = Property.tile p) ->
  ready n e -> ready n (Engine.updProperty k f e).
Proof.
  intros Hf []. split; try done.
  change (Engine.properties (Engine.updProperty k f e))
    with (alter f k (Engine.properties e)).
  apply Forall_alter; [done|]. intros p _. unfold Property.location.
  by rewrite Hf.
Qed.

Lemma ready_forOwned n e pid f :
  (forall p, Property.tile (f p) = Property.tile p) ->
  ready n e ->
  ready n (Engine.setProperties (forOwned pid f (Engine.properties e)) e).
Proof.
  intros Hf []. split; try done.
  change (Forall (fun p => onBoard (Property.location p))
            (forOwned pid f (Engine.properties e))).
  unfold forOwned. apply Forall_fmap.
  eapply Forall_impl; [exact ready_table0|]. intros p Hp. simpl.
  destruct (ownedBy pid p); [|done]. unfold Property.location in *.
  by rewrite Hf.
Qed.

(** The closing moves of a proof that the engine stays ready; the changes of
    a player that move neither the token nor the deeds go by themselves. *)
Ltac readied :=
  repeat first
    [ assumption
    | apply ready_log
    | apply ready_set_rolls
    | apply ready_set_lastCardDrawn
    | apply ready_updBank
    | apply ready_updProperty; [by intros [] | ]
    | apply ready_forOwned; [by intros [] | ]
    | apply ready_updPlayer; [by intros [] ? [] | ] ].

Lemma sendToJail_ready n e i : ready n e -> ready n (sendToJail i e).
Proof.
  intros Hr. unfold sendToJail. readied.
Qed.

Lemma handleBankruptcy_safe n i creditor e :
  ready n e -> (i < n)%nat ->
  (forall c, creditor = Some c -> (c < n)%nat) ->
  safe (handleBankruptcy i creditor e) (ready n).
Proof.
  intros Hr Hi Hc. unfold handleBankruptcy.
  destruct (ready_player n e i Hr Hi) as (player & Hplayer & Hregular).
  rewrite (player_lookup _ _ _ Hplayer), bind_Ok. cbv zeta.
  set (e1 := Engine.updPlayer i (Player.set_bankrupt true)
               (Engine.log "BANKRUPTCY" e)).
  assert (Hr1 : ready n e1) by (unfold e1; readied).
  destruct creditor as [c|].
  - specialize (Hc c eq_refl).
    destruct (ready_player n e1 c Hr1 Hc) as (cred & Hcred & _).
    destruct (ready_player n e1 i Hr1 Hi) as (player1 & Hplayer1 & _).
    rewrite (player_lookup _ _ _ Hcred), bind_Ok.
    rewrite (player_lookup _ _ _ Hplayer1), bind_Ok.
    match goal with
    | |- context [Engine.player ?e4 i] => assert (Hr4 : ready n e4)
    end.
    { apply ready_updPlayer; [|readied].
      intros q _ [Hpos Hdeeds]. split; [done|]. simpl.
      apply Forall_app. split; [done|]. apply Forall_fmap.
      apply Forall_filtered. by destruct Hr1. }
    match goal with
    | |- context [Engine.player ?e4 i] =>
        destruct (ready_player n e4 i Hr4 Hi) as (player4 & Hplayer4 & _)
    end.
    rewrite (player_lookup _ _ _ Hplayer4), !bind_Ok. simpl.
    apply ready_updPlayer; [|readied].
    intros p _ [Hpos _]. split; [done|]. simpl. constructor.
  - rewrite !bind_Ok. simpl.
    apply ready_updPlayer; [|readied].
    intros p _ [Hpos _]. split; [done|]. simpl. constructor.
Qed.

Lemma settle_safe n action i o rent e :
  ready n e -> (i < n)%nat -> (o < n)%nat ->
  safe (settle action i o rent e) (ready n).
Proof.
  intros Hr Hi Ho. unfold settle.
  destruct (ready_player n e i Hr Hi) as (player & Hplayer & _).
  rewrite (player_lookup _ _ _ Hplayer), bind_Ok.
  destruct (rent <=? Player.money player).
  - simpl. readied.
  - apply handleBankruptcy_safe; [done|done|]. by intros c [= <-].
Qed.

Lemma payBank_safe n action i tax e :
  ready n e -> (i < n)%nat -> safe (payBank action i tax e) (ready n).
Proof.
  intros Hr Hi. unfold payBank.
  destruct (ready_player n e i Hr Hi) as (player & Hplayer & _).
  rewrite (player_lookup _ _ _ Hplayer), bind_Ok.
  destruct (tax <=? Player.money player).
  - simpl. readied.
  - by apply handleBankruptcy_safe.
Qed.

Lemma findPlayer_index n e owner o p :
  ready n e -> Engine.findPlayer e owner = Some (o, p) -> (o < n)%nat.
Proof.
  intros [] (Ho & _)%list_find_Some. apply lookup_lt_Some in Ho. lia.
Qed.

Lemma payRent_safe n i property e :
  ready n e -> (i < n)%nat -> safe (payRent i property e) (ready n).
Proof.
  intros Hr Hi. unfold payRent.
  destruct (Property.mortgaged property); [done|].
  destruct (Engine.findPlayer e _) as [[o owner]|] eqn:Hfind; [|done].
  destruct (Player.bankrupt owner); [done|].
  apply settle_safe; [done|done|]. by eapply findPlayer_index.
Qed.

Lemma handlePropertyLanding_safe n i tile e :
  ready n e -> (i < n)%nat ->
  safe (handlePropertyLanding i tile e) (ready n).
Proof.
  intros Hr Hi. unfold handlePropertyLanding.
  destruct (Engine.findProperty e _) as [[k property]|]; [|done].
  destruct (ready_player n e i Hr Hi) as (player & Hplayer & _).
  rewrite (player_lookup _ _ _ Hplayer), bind_Ok.
  destruct (Property.owner property); [|done].
  destruct (bool_decide _); [done|]. by apply payRent_safe.
Qed.

Lemma handleIncomeTax_safe n i e :
  ready n e -> (i < n)%nat -> safe (handleIncomeTax i e) (ready n).
Proof.
  intros Hr Hi. unfold handleIncomeTax.
  destruct (ready_player n e i Hr Hi) as (player & Hplayer & _).
  rewrite (player_lookup _ _ _ Hplayer), bind_Ok.
  by apply payBank_safe.
Qed.

Lemma handleLuxuryTax_safe n i e :
  ready n e -> (i < n)%nat -> safe (handleLuxuryTax i e) (ready n).
Proof. apply payBank_safe. Qed.

Lemma foldl_ready {A} n (f : Engine.t -> A -> Engine.t) l :
  (forall e a, ready n e -> ready n (f e a)) ->
  forall e, ready n e -> ready n (foldl f e l).
Proof.
  intros Hf. induction l as [|a l IH]; intros e Hr; [done|].
  simpl. by apply IH, Hf.
Qed.

Lemma collectFromPlayers_safe n i perPlayer e :
  ready n e -> (i < n)%nat ->
  safe (collectFromPlayers i perPlayer e) (ready n).
Proof.
  intros Hr Hi. unfold collectFromPlayers.
  destruct (ready_player n e i Hr Hi) as (player & Hplayer & _).
  rewrite (player_lookup _ _ _ Hplayer), bind_Ok. simpl.
  apply foldl_ready; [|done]. intros e0 j Hr0. unfold collectFrom.
  destruct (Engine.players e0 !! j); readied.
Qed.

Lemma payToPlayers_safe n i perPlayer e :
  ready n e -> (i < n)%nat -> safe (payToPlayers i perPlayer e) (ready n).
Proof.
  intros Hr Hi. unfold payToPlayers.
  destruct (ready_player n e i Hr Hi) as (player & Hplayer & _).
  rewrite (player_lookup _ _ _ Hplayer), bind_Ok. cbv zeta.
  destruct (_ <=? _); [|by apply handleBankruptcy_safe]. simpl.
  apply foldl_ready; [|done]. intros e0 j Hr0. readied.
Qed.

Lemma repairs_safe n i attrs e :
  ready n e -> (i < n)%nat -> safe (repairs i attrs e) (ready n).
Proof.
  intros Hr Hi. unfold repairs.
  destruct (ready_player n e i Hr Hi) as (player & Hplayer & _).
  rewrite (player_lookup _ _ _ Hplayer), bind_Ok. cbv zeta.
  destruct (_ <=? _); [simpl; readied|by apply handleBankruptcy_safe].
Qed.

Lemma nearestAhead_elem targets pos :
  targets <> [] ->
  exists r, nearestAhead targets pos = Some r /\ r ∈ targets.
Proof.
  intros Hne. unfold nearestAhead.
  destruct (list_find _ targets) as [[k r]|] eqn:Hfind.
  - exists r. split; [done|].
    apply list_find_Some in Hfind as (Hk & _). by eapply list_elem_of_lookup_2.
  - destruct targets as [|r targets]; [done|]. exists r. split; [done|left].
Qed.

Lemma nearestPosition_onBoard target pos :
  exists r, nearestPosition target pos = Some r /\ onBoard r.
Proof.
  unfold nearestPosition.
  destruct target;
    (edestruct nearestAhead_elem as (r & -> & Hr); [|exists r; split; [done|]]);
    try done.
  all: repeat (apply elem_of_cons in Hr as [->|Hr]);
    [..|by apply elem_of_nil in Hr]; unfold onBoard; lia.
Qed.

Lemma ready_set_position n e i pos :
  onBoard pos -> ready n e ->
  ready n (Engine.updPlayer i (Player.set_position pos) e).
Proof.
  intros Hpos Hr. apply ready_updPlayer; [|done].
  by intros p _ [_ Hdeeds].
Qed.

Section LandingSafe.

Variable tiles : list Tile.t.
Variable dice : nat -> Z * Z.
Variable landing : nat -> Engine.t -> res Engine.t.
Variable n : nat.
Hypothesis tiles_regular : regularBoard tiles.
Hypothesis landing_safe : forall i e,
  ready n e -> (i < n)%nat -> safe (landing i e) (ready n).

Lemma cardMoveToNearest_safe i target attrs e :
  ready n e -> (i < n)%nat ->
  safe (cardMoveToNearest tiles dice landing i target attrs e) (ready n).
Proof.
  intros Hr Hi. unfold cardMoveToNearest.
  destruct (ready_player n e i Hr Hi) as (player & Hplayer & _).
  rewrite (player_lookup _ _ _ Hplayer), bind_Ok.
  destruct (nearestPosition_onBoard target (Player.position player))
    as (r & -> & Hboard).
  cbn [defined]. rewrite bind_Ok. cbv zeta.
  destruct (board_tile tiles r tiles_regular Hboard) as (tile & -> & _).
  cbn [defined]. rewrite bind_Ok.
  match goal with
  | |- context [landing i ?e1] => assert (Hr1 : ready n e1)
  end.
  { destruct (r <? _); readied; by apply ready_set_position. }
  match goal with
  | |- context [landing i ?e1] =>
      revert Hr1; generalize e1; intros e' Hr1
  end.
  destruct (Engine.findProperty e' _) as [[k property]|];
    [|by apply landing_safe].
  destruct (truthyOwner _); [|by apply landing_safe].
  destruct (bool_decide _); [by apply landing_safe|].
  destruct (Engine.findPlayer e' _) as [[o owner]|] eqn:Hfind; [|done].
  destruct (Player.bankrupt owner); [done|].
  pose proof (findPlayer_index _ _ _ _ _ Hr1 Hfind) as Ho.
  eapply (safe_bind _ _ (ready n)).
  - destruct (truthyZ (Card.rentMultiplier attrs)); [|done].
    by apply settle_safe.
  - intros e2 Hr2. destruct (truthyZ (Card.diceMultiplier attrs)); [|done].
    apply settle_safe; [readied|done|done].
Qed.

Lemma executeCardEffect_safe i card e :
  regularCard card -> ready n e -> (i < n)%nat ->
  safe (executeCardEffect tiles dice landing i card e) (ready n).
Proof.
  intros [Hspaces Hlocation] Hr Hi. unfold executeCardEffect. cbv zeta.
  destruct (ready_player n e i Hr Hi) as (player & Hplayer & [Hpos _]).
  rewrite (player_lookup _ _ _ Hplayer), bind_Ok.
  destruct (Card.moveSpaces _) as [m|] eqn:Hm.
  { assert (Hboard : onBoard (Z.rem (Player.position player + m + 40) 40)).
    { specialize (Hspaces m eq_refl). unfold onBoard in *.
      apply Z.rem_bound_pos; lia. }
    destruct (board_tile tiles _ tiles_regular Hboard) as (tile & -> & _).
    cbn [defined]. rewrite bind_Ok.
    apply landing_safe; [|done]. by apply ready_set_position. }
  destruct (Card.moveToNearest _); [by apply cardMoveToNearest_safe|].
  eapply (safe_bind _ _ (ready n)).
  { destruct (Card.location _) as [loc|] eqn:Hloc; [|done].
    specialize (Hlocation loc eq_refl).
    destruct (board_tile tiles loc tiles_regular Hlocation) as (tile & -> & _).
    cbn [defined]. rewrite bind_Ok. apply landing_safe; [|done].
    destruct (_ && _); readied; by apply ready_set_position. }
  intros e0 Hr0.
  match goal with
  | |- context [collectFromPlayers i _ ?e1] => assert (Hr1 : ready n e1)
  end.
  { destruct (Card.amount _), (Card.jailFreeCard _), (bool_decide _);
      try apply sendToJail_ready; readied. }
  eapply (safe_bind _ _ (ready n)).
  { destruct (_ && _); [|done]. by apply collectFromPlayers_safe. }
  intros e2 Hr2. eapply (safe_bind _ _ (ready n)).
  { destruct (_ && _); [|done]. by apply payToPlayers_safe. }
  intros e3 Hr3. destruct (_ || _); [|done]. by apply repairs_safe.
Qed.

Lemma drawChanceCard_safe i e :
  ready n e -> (i < n)%nat ->
  safe (drawChanceCard tiles dice landing i e) (ready n).
Proof.
  intros Hr Hi. unfold drawChanceCard.
  pose proof (ready_chance _ _ Hr) as [Hne Hcards].
  destruct (GameState.chanceCards _) as [|card rest] eqn:Hdeck; [done|].
  apply Forall_cons in Hcards as [Hcard Hrest].
  apply executeCardEffect_safe; [done| |done]. readied.
  destruct Hr. split; try done. simpl. split; [by destruct rest|].
  apply Forall_app. split; [done|]. by constructor.
Qed.

Lemma drawCommunityChestCard_safe i e :
  ready n e -> (i < n)%nat ->
  safe (drawCommunityChestCard tiles dice landing i e) (ready n).
Proof.
  intros Hr Hi. unfold drawCommunityChestCard.
  pose proof (ready_chest _ _ Hr) as [Hne Hcards].
  destruct (GameState.communityChestCards _) as [|card rest] eqn:Hdeck;
    [done|].
  apply Forall_cons in Hcards as [Hcard Hrest].
  apply executeCardEffect_safe; [done| |done]. readied.
  destruct Hr. split; try done. simpl. split; [by destruct rest|].
  apply Forall_app. split; [done|]. by constructor.
Qed.

End LandingSafe.

Lemma handleLanding_safe tiles dice n fuel :
  regularBoard tiles ->
  forall i e, ready n e -> (i < n)%nat ->
    safe (handleLanding tiles dice fuel i e) (ready n).
Proof.
  intros Hboard. induction fuel as [|fuel IH]; intros i e Hr Hi; [done|].
  simpl.
  destruct (ready_player n e i Hr Hi) as (player & Hplayer & [Hpos _]).
  rewrite (player_lookup _ _ _ Hplayer), bind_Ok.
  destruct (board_tile tiles _ Hboard Hpos) as (tile & -> & _).
  cbn [defined]. rewrite bind_Ok.
  assert (Hr1 : ready n (Engine.log "LAND_ON_TILE" e)) by readied.
  destruct (Tile.type tile); try done.
  - by apply handlePropertyLanding_safe.
  - by apply handlePropertyLanding_safe.
  - by apply handlePropertyLanding_safe.
  - by apply drawChanceCard_safe.
  - by apply drawCommunityChestCard_safe.
  - by apply handleIncomeTax_safe.
  - by apply handleLuxuryTax_safe.
  - by apply sendToJail_ready.
Qed.

Lemma findProperty_onBoard n e loc k property :
  ready n e -> Engine.findProperty e loc = Some (k, property) ->
  onBoard (Property.location property).
Proof.
  intros Hr (Hk & _)%list_find_Some.
  pose proof (ready_table _ _ Hr) as Htable.
  by apply (proj1 (Forall_lookup _ _) Htable k).
Qed.

Lemma ready_push_property n e i loc :
  onBoard loc -> ready n e ->
  ready n (Engine.updPlayer i (Player.push_property loc) e).
Proof.
  intros Hloc Hr. apply ready_updPlayer; [|done].
  intros p _ [Hpos Hdeeds]. split; [done|].
  apply Forall_app. split; [done|]. by constructor.
Qed.

Lemma startAuction_ready n k property e :
  onBoard (Property.location property) -> ready n e ->
  ready n (startAuction k property e).
Proof.
  intros Hloc Hr. unfold startAuction. cbv zeta.
  destruct (auctionLoop _ _) as [bestBid [w|]]; [|readied].
  destruct (0 <? bestBid); [|readied].
  destruct (Engine.players _ !! w); [|readied].
  readied. apply ready_push_property; [done|]. readied.
Qed.

Section Commands.

Variable tiles : list Tile.t.
Variable dice : nat -> Z * Z.
Variable n : nat.
Hypothesis tiles_regular : regularBoard tiles.
Hypothesis dice_regular : regularDice dice.

Lemma handleBuyProperty_safe i confirm e :
  ready n e -> (i < n)%nat ->
  safe (handleBuyProperty tiles i confirm e) (readyAfter n).
Proof.
  intros Hr Hi. unfold handleBuyProperty.
  destruct (ready_player n e i Hr Hi) as (player & Hplayer & [Hpos _]).
  rewrite (player_lookup _ _ _ Hplayer), bind_Ok.
  destruct (board_tile tiles _ tiles_regular Hpos) as (tile & -> & Hloc).
  destruct (Engine.findProperty e _) as [[k property]|] eqn:Hfind; [|done].
  destruct (Property.owner property); [done|]. cbv zeta.
  destruct (negb confirm).
  { apply startAuction_ready; [|done].
    by eapply findProperty_onBoard. }
  destruct (_ <? _); [done|]. unfold safe, readyAfter; simpl. readied.
  apply ready_push_property; [done|]. readied.
Qed.

Ltac command Hr Hi :=
  match goal with
  | |- safe (?h _ _ ?e) _ => unfold h
  | |- safe (?h _ ?e) _ => unfold h
  end;
  try (destruct (Engine.findProperty _ _) as [[? ?]|]; [|done]);
  match goal with
  | |- context [Engine.player ?e ?i] =>
      let player := fresh "player" in
      let Hplayer := fresh "Hplayer" in
      destruct (ready_player n e i Hr Hi) as (player & Hplayer & _);
      rewrite (player_lookup _ _ _ Hplayer), bind_Ok
  end;
  cbv zeta;
  repeat match goal with
         | |- safe (if ?b then _ else _) _ => destruct b; [done|]
         end;
  simpl; unfold readyAfter; simpl; readied.

Lemma handleBuildHouse_safe i loc e :
  ready n e -> (i < n)%nat -> safe (handleBuildHouse i loc e) (readyAfter n).
Proof. intros Hr Hi. command Hr Hi. Qed.

Lemma handleBuildHotel_safe i loc e :
  ready n e -> (i < n)%nat -> safe (handleBuildHotel i loc e) (readyAfter n).
Proof. intros Hr Hi. command Hr Hi. Qed.

Lemma handleMortgageProperty_safe i loc e :
  ready n e -> (i < n)%nat -> safe (handleMortgageProperty i loc e) (readyAfter n).
Proof. intros Hr Hi. command Hr Hi. Qed.

Lemma handleUnmortgageProperty_safe i loc e :
  ready n e -> (i < n)%nat ->
  safe (handleUnmortgageProperty i loc e) (readyAfter n).
Proof. intros Hr Hi. command Hr Hi. Qed.

Lemma handleSellHouse_safe i loc e :
  ready n e -> (i < n)%nat -> safe (handleSellHouse i loc e) (readyAfter n).
Proof. intros Hr Hi. command Hr Hi. Qed.

Lemma handleSellHotel_safe i loc e :
  ready n e -> (i < n)%nat -> safe (handleSellHotel i loc e) (readyAfter n).
Proof. intros Hr Hi. command Hr Hi. Qed.

Lemma handlePayJailFine_safe i e :
  ready n e -> (i < n)%nat -> safe (handlePayJailFine i e) (readyAfter n).
Proof. intros Hr Hi. command Hr Hi. Qed.

Lemma handleUseJailCard_safe i e :
  ready n e -> (i < n)%nat -> safe (handleUseJailCard i e) (readyAfter n).
Proof. intros Hr Hi. command Hr Hi. Qed.

End Commands.

Lemma ready_agent n e i :
  ready n e -> (i < n)%nat -> is_Some (Engine.agents e !! i).
Proof. intros [] Hi. apply lookup_lt_is_Some. lia. Qed.

Lemma ready_set_agents n e f i :
  ready n e -> ready n (Engine.set_agents (alter f i (Engine.agents e)) e).
Proof. intros []. split; try done. simpl. by rewrite length_alter. Qed.

Lemma recordRoll_ready n roll e : ready n e -> ready n (recordRoll roll e).
Proof.
  intros Hr. unfold recordRoll. cbv zeta.
  assert (ready n (Engine.set_currentDiceRoll (Some roll) e)) as Hr1
    by (by destruct Hr).
  pose proof (ready_set_agents n _ (Agent.markRollResult (Roll.doubles roll))
                (GameState.currentPlayerIndex (Engine.gameState e)) Hr1)
    as Hr2.
  apply (ready_log _ _ "DICE_ROLL") in Hr2.
  destruct (Roll.doubles roll); [|exact Hr2]. by destruct Hr2.
Qed.

Lemma rem_onBoard pos total :
  onBoard pos -> 0 <= total -> onBoard (Z.rem (pos + total) 40).
Proof. unfold onBoard. intros Hpos Htotal. apply Z.rem_bound_pos; lia. Qed.

Lemma mapM_defined {A B} (f : A -> res B) (l : list A) :
  Forall (fun x => exists y, f x = Ok y) l -> exists ys, mapM f l = Ok ys.
Proof.
  induction 1 as [|x l [y Hy] _ [ys Hys]]; [by exists []|].
  exists (y :: ys). simpl. by rewrite Hy, bind_Ok, Hys.
Qed.

Section SafeTurns.

Variable tiles : list Tile.t.
Variable dice : nat -> Z * Z.
Variable takeTurn : nat -> GameState.t -> list ToolCall.
Variable n : nat.
Hypothesis tiles_regular : regularBoard tiles.
Hypothesis dice_regular : regularDice dice.
Hypothesis takeTurn_neverNull : neverNull takeTurn.

Lemma move_safe i roll e :
  0 <= Roll.total roll -> ready n e -> (i < n)%nat ->
  safe (move tiles i roll e) (ready n).
Proof.
  intros Htotal Hr Hi. unfold move.
  destruct (ready_player n e i Hr Hi) as (player & Hplayer & [Hpos Hdeeds]).
  rewrite (player_lookup _ _ _ Hplayer), bind_Ok. cbv zeta.
  pose proof (rem_onBoard _ _ Hpos Htotal) as Hboard.
  assert (Hmoved : regularPlayer (advance (Roll.total roll) player).1
                   /\ Player.position (advance (Roll.total roll) player).1
                      = Z.rem (Player.position player + Roll.total roll) 40).
  { unfold advance. cbv zeta. by destruct (_ || _). }
  destruct Hmoved as [Hmoved ->].
  destruct (board_tile tiles _ tiles_regular Hboard) as (tile & -> & _).
  cbn [defined]. rewrite bind_Ok. simpl.
  destruct (advance _ _).2; readied; by apply ready_updPlayer.
Qed.

Lemma landAfterRoll_safe fuel i e :
  ready n e -> (i < n)%nat ->
  safe (landAfterRoll tiles dice fuel i e) (readyAfter n).
Proof.
  intros Hr Hi. unfold landAfterRoll.
  eapply safe_bind; [by apply handleLanding_safe|].
  intros e1 Hr1.
  destruct (ready_player n e1 i Hr1 Hi) as (player & Hplayer & [Hpos _]).
  rewrite (player_lookup _ _ _ Hplayer), bind_Ok.
  destruct (board_tile tiles _ tiles_regular Hpos) as (tile & -> & _).
  done.
Qed.

Lemma handleRollDice_safe fuel i e :
  ready n e -> (i < n)%nat ->
  safe (handleRollDice tiles dice fuel i e) (readyAfter n).
Proof.
  intros Hr Hi. unfold handleRollDice, getCurrentAgent.
  destruct (ready_agent n e _ Hr (ready_index _ _ Hr)) as [agent ->].
  cbn [defined]. rewrite bind_Ok.
  destruct (negb _).
  { destruct (ready_player n e i Hr Hi) as (player & Hplayer & _).
    by rewrite (player_lookup _ _ _ Hplayer), bind_Ok. }
  unfold rollDice.
  set (roll := Roll.make (dice (Engine.rolls e))).
  assert (Hr1 : ready n (recordRoll roll (Engine.set_rolls
                                            (S (Engine.rolls e)) e)))
    by (apply recordRoll_ready; readied).
  destruct (_ && _); [by apply sendToJail_ready|].
  unfold moveAndLand. eapply safe_bind.
  - apply move_safe; [apply dice_regular|done|done].
  - intros e2 Hr2. by apply landAfterRoll_safe.
Qed.

Lemma handleJail_safe fuel i e :
  ready n e -> (i < n)%nat -> safe (handleJail tiles dice fuel i e) (ready n).
Proof.
  intros Hr Hi. unfold handleJail.
  destruct (ready_player n e i Hr Hi) as (player & Hplayer & [Hpos Hdeeds]).
  rewrite (player_lookup _ _ _ Hplayer), bind_Ok. cbv zeta.
  destruct (3 <=? _).
  { destruct (50 <=? _); [simpl; readied|].
    apply handleBankruptcy_safe; [readied|done|done]. }
  unfold rollDice.
  set (roll := Roll.make _).
  destruct (Roll.doubles roll); [|simpl; readied].
  assert (Htotal : 0 <= Roll.total roll) by apply dice_regular.
  pose proof (rem_onBoard _ _ Hpos Htotal) as Hboard.
  destruct (board_tile tiles _ tiles_regular Hboard) as (tile & -> & _).
  cbn [defined]. rewrite bind_Ok.
  apply handleLanding_safe; [done| |done]. readied.
  apply ready_updPlayer; [|readied].
  intros p _ [Hp Hd]. split; [|done]. by apply rem_onBoard.
Qed.

Lemma handleGetGameState_safe e :
  ready n e -> safe (handleGetGameState tiles e) (readyAfter n).
Proof.
  intros Hr. unfold handleGetGameState.
  destruct (ready_player n e _ Hr (ready_index _ _ Hr))
    as (player & Hplayer & _).
  rewrite (player_lookup _ _ _ Hplayer), bind_Ok.
  edestruct (mapM_defined
               (fun p : Player.t =>
                  _ ← defined (tileAt tiles (Player.position p));
                  mapM (fun loc => defined (tileAt tiles loc))
                    (Player.properties p))
               (Engine.players e)) as [ys ->]; [|done].
  eapply Forall_impl; [exact (ready_regular _ _ Hr)|].
  intros p [Hpos Hdeeds]. simpl.
  destruct (board_tile tiles _ tiles_regular Hpos) as (tile & -> & _).
  cbn [defined]. setoid_rewrite bind_Ok.
  apply mapM_defined. eapply Forall_impl; [exact Hdeeds|].
  intros loc Hloc. simpl.
  destruct (board_tile tiles _ tiles_regular Hloc) as (t & -> & _).
  by eexists.
Qed.

Lemma executeToolCall_safe fuel call i e :
  call <> null_arguments -> ready n e -> (i < n)%nat ->
  safe (executeToolCall tiles dice fuel call i e) (readyAfter n).
Proof.
  intros Hcall Hr Hi. unfold executeToolCall.
  destruct (ready_player n e i Hr Hi) as (player & Hplayer & _).
  rewrite (player_lookup _ _ _ Hplayer), bind_Ok.
  destruct call; try done.
  - by apply handleRollDice_safe.
  - by apply handleBuyProperty_safe.
  - by apply handleBuildHouse_safe.
  - by apply handleBuildHotel_safe.
  - by apply handleMortgageProperty_safe.
  - by apply handleUnmortgageProperty_safe.
  - by apply handleSellHouse_safe.
  - by apply handleSellHotel_safe.
  - by apply handlePayJailFine_safe.
  - by apply handleUseJailCard_safe.
  - unfold safe, readyAfter; simpl. readied.
  - by apply handleGetGameState_safe.
  - unfold handleGetPropertyInfo. by destruct (Engine.findProperty _ _).
Qed.

Lemma nextPlayerLoop_safe k e :
  ready n e -> safe (nextPlayerLoop k e) (ready n).
Proof.
  revert e. induction k as [|k IH]; intros e Hr; [done|].
  pose proof (ready_players _ _ Hr) as Hlen.
  pose proof (ready_index _ _ Hr) as Hindex.
  assert (Hne : Engine.players e <> []) by (destruct (Engine.players e);
                                            [simpl in Hlen; lia|done]).
  rewrite (nextPlayerLoop_step _ _ Hne).
  assert (Hi : (seat e 1 < n)%nat).
  { rewrite <- Hlen. by apply lookup_lt_is_Some, seat_in_range. }
  assert (Hr1 : ready n (handedTo (seat e 1) e)).
  { destruct Hr. split; try done. }
  destruct (ready_player n e _ Hr Hi) as (current & Hcurrent & _).
  rewrite (player_lookup _ _ _ Hcurrent), bind_Ok.
  destruct (_ && _); [by apply IH|done].
Qed.

Lemma runToolCalls_safe fuel i calls :
  null_arguments ∉ calls -> (i < n)%nat ->
  forall e, ready n e ->
    safe (runToolCalls tiles dice fuel i calls e)
      (fun eb => ready n eb.1).
Proof.
  intros Hcalls Hi. induction calls as [|call calls IH]; intros e Hr; [done|].
  apply not_elem_of_cons in Hcalls as [Hcall Hcalls].
  simpl. eapply safe_bind; [by apply executeToolCall_safe|].
  intros [e1 result] Hr1. unfold readyAfter in Hr1. simpl in Hr1.
  destruct (ready_player n e1 i Hr1 Hi) as (player & Hplayer & _).
  rewrite (player_lookup _ _ _ Hplayer), bind_Ok.
  destruct (_ || _); [done|by apply IH].
Qed.

Lemma decisionLoop_safe k fuel i :
  (i < n)%nat ->
  forall count e, ready n e ->
    safe (decisionLoop tiles dice takeTurn k fuel i count e) (ready n).
Proof.
  intros Hi. induction k as [|k IH]; intros count e Hr; simpl;
    destruct (ready_player n e i Hr Hi) as (player & Hplayer & _);
    rewrite (player_lookup _ _ _ Hplayer), bind_Ok;
    (destruct (Player.bankrupt player); [done|]); [done|].
  assert (Hr1 : ready n (Engine.set_interactions (S (Engine.interactions e))
                           (Engine.set_agents
                              (alter Agent.countInteraction i
                                 (Engine.agents e)) e))).
  { pose proof (ready_set_agents n e Agent.countInteraction i Hr) as Hr1.
    by destruct Hr1. }
  eapply (safe_bind _ _ (fun x => ready n x.1.1)).
  - pose proof (takeTurn_neverNull (Engine.interactions e)
                  (Engine.gameState e)) as Hcalls.
    destruct (takeTurn _ _) as [|call calls]; [done|].
    eapply safe_bind; [by apply runToolCalls_safe|].
    by intros [e2 ended] Hr2.
  - intros [[e2 ended] count2] Hr2. simpl in Hr2.
    destruct (ready_agent n e2 i Hr2 Hi) as [agent ->].
    cbn [defined]. rewrite bind_Ok.
    destruct (_ || _); [done|by apply IH].
Qed.

Lemma beginTurn_ready e : ready n e -> ready n (beginTurn e).
Proof.
  intros Hr. unfold beginTurn. cbv zeta.
  assert (Hr1 : ready n (Engine.set_gameState
                           (GameState.set_turn
                              (GameState.turn (Engine.gameState e) + 1)
                              (Engine.gameState e)) e))
    by (by destruct Hr).
  pose proof (ready_set_agents n _ Agent.resetForNewTurn
                (GameState.currentPlayerIndex (Engine.gameState e)) Hr1)
    as Hr2.
  apply (ready_log _ _ "TURN_START") in Hr2. by destruct Hr2.
Qed.

Lemma playTurn_safe fuel e :
  ready n e -> safe (playTurn tiles dice takeTurn fuel e) (ready n).
Proof.
  intros Hr. unfold playTurn. cbv zeta.
  pose proof (ready_index _ _ Hr) as Hi.
  destruct (ready_player n e _ Hr Hi) as (player & Hplayer & _).
  rewrite (player_lookup _ _ _ Hplayer), bind_Ok.
  unfold getCurrentAgent.
  destruct (ready_agent n e _ Hr Hi) as [agent ->].
  cbn [defined]. rewrite bind_Ok.
  pose proof (beginTurn_ready e Hr) as Hr1.
  destruct (Player.inJail player).
  - eapply safe_bind; [by apply handleJail_safe|].
    intros e2 Hr2.
    destruct (ready_player n e2 _ Hr2 Hi) as (player2 & Hplayer2 & _).
    rewrite (player_lookup _ _ _ Hplayer2), bind_Ok.
    destruct (_ || _); [by apply nextPlayerLoop_safe|].
    eapply safe_bind; [by apply decisionLoop_safe|].
    intros e3 Hr3. by apply nextPlayerLoop_safe.
  - eapply safe_bind; [by apply decisionLoop_safe|].
    intros e3 Hr3. by apply nextPlayerLoop_safe.
Qed.

Lemma checkWinCondition_ready e :
  ready n e -> ready n (checkWinCondition e).1.
Proof.
  intros Hr. unfold checkWinCondition.
  destruct (filter _ _) as [|winner [|]]; try done.
  simpl. by destruct Hr.
Qed.

Lemma runTurns_safe k maxTurns fuel e :
  ready n e -> safe (runTurns tiles dice takeTurn k maxTurns fuel e) (ready n).
Proof.
  revert e. induction k as [|k IH]; intros e Hr; simpl;
    (destruct (_ || _); [done|]); [done|].
  eapply safe_bind; [by apply playTurn_safe|].
  intros e1 Hr1. pose proof (checkWinCondition_ready e1 Hr1) as Hr2.
  destruct (checkWinCondition e1) as [e2 won]. simpl in Hr2.
  destruct won; [done|by apply IH].
Qed.

Lemma determineWinnerByNetWorth_ready e :
  ready n e -> ready n (determineWinnerByNetWorth e).
Proof.
  intros Hr. unfold determineWinnerByNetWorth.
  destruct (richest e).2; [|done]. by destruct Hr.
Qed.

Lemma runBenchmark_safe k maxTurns fuel e :
  ready n e ->
  safe (runBenchmark tiles dice takeTurn k maxTurns fuel e) (ready n).
Proof.
  intros Hr. unfold runBenchmark. cbv zeta.
  eapply safe_bind; [apply runTurns_safe; readied|].
  intros e1 Hr1. destruct (_ <=? _); [|done].
  apply determineWinnerByNetWorth_ready. readied.
Qed.

End SafeTurns.

Lemma newGame_ready tiles players chance communityChest :
  regularBoard tiles -> players <> [] -> Forall regularPlayer players ->
  chance <> [] -> Forall regularCard chance ->
  communityChest <> [] -> Forall regularCard communityChest ->
  ready (length players) (newGame tiles players chance communityChest).
Proof.
  intros [_ Hboard] Hne Hplayers Hchance Hcards Hchest Hcards'.
  split; try done.
  - simpl. by rewrite length_fmap.
  - simpl. destruct players; [done|simpl; lia].
  - unfold Engine.properties. simpl. apply Forall_fmap.
    by apply Forall_filtered.
Qed.

Lemma generatePlayers_regular names :
  Forall regularPlayer (generatePlayers names).
Proof.
  apply Forall_lookup. intros i p Hp. unfold generatePlayers in Hp.
  apply list_lookup_imap_Some in Hp as (name & _ & ->).
  split; [unfold onBoard; simpl; lia|constructor].
Qed.

Lemma safe_outcome {A} (m : res A) (Q : A -> Prop) :
  safe m Q -> m <> Raise TypeError /\ forall a, m = Ok a -> Q a.
Proof.
  intros H. split.
  - by intros ->.
  - by intros a ->.
Qed.

(** From a state that is ready (as many agents as players, the current
    index among them, every player and every deed on a square of the board,
    both decks filled with cards that move within the board), on a board of 40
    squares and with dice that show no negative total, a command of a player
    at the table throws a [TypeError] in exactly one case: it is a command
    that reads its arguments and its argument string parses to [null].  Every
    other command, whatever its arguments, reads no field of a missing player,
    agent, tile or card; and the state a command leaves, with any result, is
    ready again. *)
Theorem commands_throw_only_on_null_arguments tiles dice fuel call n i e :
  regularBoard tiles -> regularDice dice -> ready n e -> (i < n)%nat ->
  (executeToolCall tiles dice fuel call i e = Raise TypeError
   <-> call = null_arguments)
  /\ forall e' result,
       executeToolCall tiles dice fuel call i e = Ok (e', result) ->
       ready n e'.
Proof.
  intros Hboard Hdice Hr Hi.
  assert (Hcases : call = null_arguments \/ call <> null_arguments)
    by (destruct call; (by left) || (by right)).
  destruct Hcases as [->|Hcall].
  - destruct (ready_player n e i Hr Hi) as (player & Hplayer & _).
    unfold executeToolCall.
    rewrite (player_lookup _ _ _ Hplayer), bind_Ok. by split.
  - destruct (safe_outcome _ _
                (executeToolCall_safe tiles dice n Hboard Hdice fuel call i e
                   Hcall Hr Hi)) as [Hthrow Hok].
    split; [by split|]. intros e' result H. exact (Hok _ H).
Qed.

Lemma playTurn_null_arguments tiles dice takeTurn fuel e player agent calls :
  let i := GameState.currentPlayerIndex (Engine.gameState e) in
  Engine.players e !! i = Some player ->
  Engine.agents e !! i = Some agent ->
  Player.inJail player = false ->
  Player.bankrupt player = false ->
  takeTurn (Engine.interactions e) (Engine.gameState (beginTurn e))
  = null_arguments :: calls ->
  playTurn tiles dice takeTurn (S fuel) e = Raise TypeError.
Proof.
  intros i Hplayer Hagent Hjail Hbankrupt Hcalls.
  unfold playTurn, getCurrentAgent. fold i.
  rewrite (player_lookup _ _ _ Hplayer), bind_Ok, Hagent.
  cbn [defined]. rewrite bind_Ok, Hjail.
  cbn [decisionLoop].
  change (Engine.player (beginTurn e) i) with (Engine.player e i).
  rewrite (player_lookup _ _ _ Hplayer), bind_Ok, Hbankrupt.
  unfold requestDecision.
  change (Engine.interactions (beginTurn e)) with (Engine.interactions e).
  rewrite Hcalls. cbn [runToolCalls]. unfold executeToolCall.
  match goal with
  | |- context [Engine.player ?e1 i] =>
      change (Engine.player e1 i) with (Engine.player e i)
  end.
  by rewrite (player_lookup _ _ _ Hplayer).
Qed.

Lemma runBenchmark_null_arguments tiles dice takeTurn names chance
  communityChest n maxTurns fuel :
  names <> [] -> n <> 0%nat -> fuel <> 0%nat -> 0 < maxTurns ->
  (forall g, head (takeTurn 0%nat g) = Some null_arguments) ->
  runBenchmark tiles dice takeTurn n maxTurns fuel
    (newGame tiles (generatePlayers names) chance communityChest)
  = Raise TypeError.
Proof.
  intros Hnames Hn Hfuel Hturns Hnull.
  destruct names as [|name names]; [done|].
  destruct n as [|n]; [done|]. destruct fuel as [|fuel]; [done|].
  unfold runBenchmark. cbv zeta. cbn [runTurns].
  set (e := Engine.log "GAME_START" _).
  change (GameState.gameOver (Engine.gameState e)) with false.
  change (GameState.turn (Engine.gameState e)) with 0.
  replace (0 <? maxTurns) with true by (symmetry; lia).
  cbn [orb negb].
  specialize (Hnull (Engine.gameState (beginTurn e))).
  destruct (takeTurn 0%nat (Engine.gameState (beginTurn e)))
    as [|call calls] eqn:Hcalls; [done|].
  injection Hnull as ->.
  by rewrite (playTurn_null_arguments tiles dice takeTurn fuel e
                (newPlayer ("p" +:+ pretty 1%nat) name) newAgent calls).
Qed.

(** A benchmark set up for at least one model, on a board of 40 squares
    whose tiles carry locations of the board, with decks that are not empty
    and whose cards move within the board, and with dice that show no negative
    total, throws a [TypeError] only on a command with [null] arguments.  With
    agents that never send the argument string [null] with a command that
    reads its arguments it throws none, whatever else the agents answer and
    however long it runs, and the state it returns is ready.  When the first
    answer of the first agent begins with such a command, the benchmark
    throws: [playTurn] does not catch the error. *)
Theorem benchmark_throws_only_on_null_arguments tiles dice takeTurn names
  chance communityChest n maxTurns fuel :
  regularBoard tiles -> regularDice dice -> names <> [] ->
  chance <> [] -> Forall regularCard chance ->
  communityChest <> [] -> Forall regularCard communityChest ->
  let e := newGame tiles (generatePlayers names) chance communityChest in
  (neverNull takeTurn ->
   runBenchmark tiles dice takeTurn n maxTurns fuel e <> Raise TypeError
   /\ forall e',
        runBenchmark tiles dice takeTurn n maxTurns fuel e = Ok e' ->
        ready (length names) e')
  /\ ((forall g, head (takeTurn 0%nat g) = Some null_arguments) ->
      n <> 0%nat -> fuel <> 0%nat -> 0 < maxTurns ->
      runBenchmark tiles dice takeTurn n maxTurns fuel e = Raise TypeError).
Proof.
  intros Hboard Hdice Hnames Hchance Hcards Hchest Hcards' e. split.
  - intros Hnull.
    assert (Hr : ready (length names) e).
    { replace (length names) with (length (generatePlayers names))
        by apply length_imap.
      apply newGame_ready; try done.
      - intros Hnil. apply Hnames. apply (f_equal length) in Hnil.
        unfold generatePlayers in Hnil. rewrite length_imap in Hnil.
        by destruct names.
      - apply generatePlayers_regular. }
    apply safe_outcome.
    by apply runBenchmark_safe.
  - intros Hnull Hn Hfuel Hturns.
    by apply runBenchmark_null_arguments.
Qed.

Lemma sample_board_regular : regularBoard Sample.tiles.
Proof.
  split; [reflexivity|].
  unfold onBoard. apply (bool_decide_unpack _). vm_compute. exact I.
Qed.

Lemma sample_dice_regular : regularDice Play.dice.
Proof.
  intros n. unfold Play.dice.
  do 10 (destruct n as [|n]; [simpl; lia|]). destruct n; simpl; lia.
Qed.

Lemma sample_chance_regular : Forall regularCard Sample.chance.
Proof.
  unfold Sample.chance.
  repeat (apply Forall_cons; split;
          [split; intros ? H; vm_compute in H; simplify_eq;
           unfold onBoard; lia|]).
  constructor.
Qed.

Lemma sample_chest_regular : Forall regularCard Sample.communityChest.
Proof.
  unfold Sample.communityChest.
  repeat (apply Forall_cons; split;
          [split; intros ? H; vm_compute in H; simplify_eq;
           unfold onBoard; lia|]).
  constructor.
Qed.

Lemma sample_start_ready : ready 2 Sample.start.
Proof.
  apply (newGame_ready Sample.tiles Sample.players); try done.
  - apply sample_board_regular.
  - unfold Sample.players.
    repeat (apply Forall_cons; split;
            [split; [unfold onBoard; simpl; lia|constructor]|]).
    constructor.
  - apply sample_chance_regular.
  - apply sample_chest_regular.
Qed.

Lemma sample_agents_neverNull : neverNull Play.takeTurn.
Proof.
  intros k g H. unfold Play.takeTurn in H.
  do 10 (destruct k as [|k]; simpl in H;
         [repeat (apply elem_of_cons in H as [H|H]; [discriminate|]);
          by apply elem_of_nil in H|]).
  destruct k; simpl in H;
    (apply elem_of_cons in H as [H|H]; [discriminate|]);
    by apply elem_of_nil in H.
Qed.

Lemma commands_throw_only_on_null_arguments_witness :
  exists e' result,
    executeToolCall Sample.tiles Play.dice 30 roll_dice 0 Sample.start
    = Ok (e', result)
    /\ ready 2 e'.
Proof.
  eexists. eexists. split; [vm_compute; reflexivity|].
  eapply (proj2 (commands_throw_only_on_null_arguments Sample.tiles Play.dice
                   30 roll_dice 2 0 Sample.start sample_board_regular
                   sample_dice_regular sample_start_ready ltac:(lia))).
  vm_compute. reflexivity.
Defined.

Lemma benchmark_throws_only_on_null_arguments_witness :
  exists e',
    runBenchmark Sample.tiles Play.dice Play.takeTurn 10 10 30
      (newGame Sample.tiles (generatePlayers ["GPT OSS 120B"; "Deepseek V3.2"])
         Sample.chance Sample.communityChest)
    = Ok e'
    /\ ready 2 e'.
Proof.
  eexists. split; [vm_compute; reflexivity|].
  eapply (proj2 (proj1 (benchmark_throws_only_on_null_arguments Sample.tiles
                          Play.dice Play.takeTurn
                          ["GPT OSS 120B"; "Deepseek V3.2"]
                          Sample.chance Sample.communityChest 10 10 30
                          sample_board_regular sample_dice_regular
                          ltac:(done) ltac:(done) sample_chance_regular
                          ltac:(done) sample_chest_regular)
                   sample_agents_neverNull)).
  vm_compute. reflexivity.
Defined.
